(** * LEED Daylight Option 1 post-processing: a shallow embedding

    Source: [honeybee_radiance_postprocess/leed/leed.py].

    Python numbers (the float illuminances, multipliers and percentages, and
    the small integers used for shading states) are embedded in the canonical
    rationals [Qc], whose equality is Leibniz equality.  NumPy arrays are
    lists; a two dimensional array is the list of its rows.  Python
    dictionaries whose iteration order is observed by the code are ordered
    association lists ([odict]); the others are [gmap]s. *)

From Stdlib Require Import QArith Qcanon Lqa.
From stdpp Require Import base numbers list strings gmap option.

Local Open Scope Qc_scope.

(** ** Numbers *)

Definition Qc_of_nat (n : nat) : Qc := Qc_of_Z (Z.of_nat n).

(** [int(x)]: truncation towards zero. *)
Definition int_of (x : Qc) : Z := (Qnum (this x) ÷ Z.pos (Qden (this x)))%Z.

(** [values.sum()] *)
Definition sum_list (values : list Qc) : Qc := foldr Qcplus 0 values.

(** The literals [100], [1000], [0.02] and [0.05] of the source. *)
Definition hundred : Qc := Qc_of_Z 100.
Definition lux_1000 : Qc := Qc_of_Z 1000.
Definition two_percent : Qc := Q2Qc (2 # 100).
Definition default_shd_trans : Qc := Q2Qc (5 # 100).

(** ** Exceptions *)

Inductive exn :=
  | ValueError
  | AttributeError
  | IndexError
  | KeyError
  | ZeroDivisionError
  | NotImplementedError.

Inductive result (A : Type) :=
  | Ok (a : A)
  | Raise (e : exn).
Arguments Ok {A} a.
Arguments Raise {A} e.

#[global] Instance result_ret : MRet result := λ A a, Ok a.
#[global] Instance result_bind : MBind result := λ A B k r,
  match r with
  | Ok a => k a
  | Raise e => Raise e
  end.

(** ** Ordered dictionaries

    A Python [dict] keeps its keys in the order of their first insertion;
    assigning to a key that is present replaces the value in place. *)

Module odict.

Definition t (V : Type) := list (string * V).

Fixpoint get {V} (k : string) (d : t V) : option V :=
  match d with
  | [] => None
  | (k', v) :: d' => if decide (k' = k) then Some v else get k d'
  end.

(** [d[k] = v] *)
Fixpoint set {V} (k : string) (v : V) (d : t V) : t V :=
  match d with
  | [] => [(k, v)]
  | (k', v') :: d' =>
      if decide (k' = k) then (k, v) :: d' else (k', v') :: set k v d'
  end.

(** [d[k].append(v)] on a [defaultdict(list)]. *)
Fixpoint append {V} (k : string) (v : V) (d : t (list V)) : t (list V) :=
  match d with
  | [] => [(k, [v])]
  | (k', l) :: d' =>
      if decide (k' = k) then (k, l ++ [v]) :: d'
      else (k', l) :: append k v d'
  end.

Definition keys {V} (d : t V) : list string := d.*1.
Definition values {V} (d : t V) : list V := d.*2.

End odict.

(** ** The transmittance resolver *)

Definition static_apertures : string := "__static_apertures__".

(** [shade_transmittance : Union[float, dict]] *)
Inductive shade_input :=
  | ShdScalar (x : Qc)
  | ShdMapping (m : gmap string Qc).

(** What every branch of the two loops does once the multiplier is known:
    [shade_transmittances[light_path] = [1]] (set before the branches),
    [shade_transmittances[light_path].append(multiplier)] and
    [shd_trans_dict[light_path] = multiplier]. *)
Definition add_multiplier (light_path : string) (multiplier : Qc)
    (acc : odict.t (list Qc) * gmap string Qc)
    : odict.t (list Qc) * gmap string Qc :=
  let '(shade_transmittances, shd_trans_dict) := acc in
  (odict.append light_path multiplier
     (odict.set light_path [1] shade_transmittances),
   <[light_path := multiplier]> shd_trans_dict).

Definition shade_transmittance_per_light_path (light_paths : list string)
    (shade_transmittance : shade_input) (shd_trans_dict : gmap string Qc)
    : odict.t (list Qc) * gmap string Qc :=
  match shade_transmittance with
  | ShdMapping mapping =>
      foldl (λ acc light_path,
               match mapping !! light_path with
               | Some custom =>
                   (* add custom shade transmittance *)
                   add_multiplier light_path custom acc
               | None =>
                   if decide (light_path ≠ static_apertures) then
                     (* add default shade transmittance (0.05) *)
                     add_multiplier light_path default_shd_trans acc
                   else add_multiplier light_path 1 acc
               end)
            ([], shd_trans_dict) light_paths
  | ShdScalar shd_trans =>
      foldl (λ acc light_path,
               if decide (light_path ≠ static_apertures) then
                 add_multiplier light_path shd_trans acc
               else add_multiplier light_path 1 acc)
            ([], shd_trans_dict) light_paths
  end.

(** The two loops in one: the multiplier that either loop resolves for a
    light path, and the loop body that adds it. *)
Definition resolved_multiplier (shade_transmittance : shade_input)
    (light_path : string) : Qc :=
  match shade_transmittance with
  | ShdMapping mapping =>
      match mapping !! light_path with
      | Some custom => custom
      | None =>
          if decide (light_path ≠ static_apertures) then default_shd_trans
          else 1
      end
  | ShdScalar shd_trans =>
      if decide (light_path ≠ static_apertures) then shd_trans else 1
  end.

Definition shade_transmittance_step (shade_transmittance : shade_input)
    (acc : odict.t (list Qc) * gmap string Qc) (light_path : string)
    : odict.t (list Qc) * gmap string Qc :=
  add_multiplier light_path
    (resolved_multiplier shade_transmittance light_path) acc.

(** ** NumPy and itertools

    Arrays of one grid have one row per sensor and one column per sun-up hour
    (the results provider delivers them in that shape), so the element-wise
    operations below are only ever applied to arrays of equal shape. *)

Module np.

Definition matrix := list (list Qc).

Definition add (a b : matrix) : matrix := zip_with (zip_with Qcplus) a b.
Definition scale (a : matrix) (v : Qc) : matrix := map (map (λ x, x * v)) a.

Definition ncols {A} (a : list (list A)) : nat :=
  match a with
  | [] => 0
  | row :: _ => length row
  end.

Definition column {A} (j : nat) (a : list (list A)) : list A :=
  omap (λ row : list A, row !! j) a.

Definition columns {A} (a : list (list A)) : list (list A) :=
  (λ j, column j a) <$> seq 0 (ncols a).

(** [np.array(rows)] for a list of one dimensional arrays: the rows must
    have one length. *)
Definition array2d {A} (rows : list (list A)) : result (list (list A)) :=
  if decide (Forall (λ row, length row = ncols rows) rows) then Ok rows
  else Raise ValueError.

(** [np.minimum] and [np.logical_or(..).astype(int)] on two entries. *)
Definition minimum (x y : Qc) : Qc := if decide (x ≤ y) then x else y.
Definition logical_or (x y : Qc) : Qc :=
  if decide (x ≠ 0 ∨ y ≠ 0) then 1 else 0.

(** [mask.astype(bool)] *)
Definition truthy (m : Z) : Prop := m ≠ 0%Z.

(** [row[mask.astype(bool)]] *)
Definition select {A} (mask : list Z) (row : list A) : list A :=
  (filter (λ xm : A * Z, truthy xm.2) (zip row mask)).*1.

(** [a[i][j]] *)
Definition entry {A} (a : list (list A)) (i j : nat) : option A :=
  row ← a !! i; row !! j.

End np.

(** The builtin [sum] over a list of arrays: [0 + a1 + a2 + ...], which is
    the integer [0] (here [None]) for the empty list. *)
Definition py_sum (arrays : list np.matrix) : option np.matrix :=
  match arrays with
  | [] => None
  | a :: rest => Some (foldl np.add a rest)
  end.

(** [sum] over a list that starts with the zero array of the grid and is
    therefore not empty. *)
Definition sum_arrays (arrays : list np.matrix) : np.matrix :=
  default [] (py_sum arrays).

(** Modelled from the spec: [filter_array2d] of [util.py], which is not among
    the sources; it keeps the columns (hours) of a two dimensional array at
    which the occupancy mask is set.  As with every NumPy boolean index the
    mask must be as long as the indexed axis, and an array without rows has
    no second axis to index. *)
Definition filter_array2d {A} (array : list (list A)) (mask : list Z)
    : result (list (list A)) :=
  match array with
  | [] => Raise IndexError
  | row :: _ =>
      if decide (length mask = length row) then Ok (np.select mask <$> array)
      else Raise IndexError
  end.

(** [itertools.product] over the pools: the rightmost pool advances
    fastest. *)
Fixpoint product {A} (pools : list (list A)) : list (list A) :=
  match pools with
  | [] => [[]]
  | pool :: rest => x ← pool; (x ::.) <$> product rest
  end.

(** Entries of [array_combinations] after the in-place assignment of
    [-np.inf]. *)
Inductive efloat :=
  | NegInf
  | Fin (x : Qc).

Definition is_neg_inf (x : efloat) : bool :=
  match x with
  | NegInf => true
  | Fin _ => false
  end.

Definition ef_lt (x y : efloat) : bool :=
  match x, y with
  | NegInf, Fin _ => true
  | Fin a, Fin b => bool_decide (a < b)
  | _, NegInf => false
  end.

(** [argmax] of a one dimensional array: the first index of the maximum;
    [ValueError] on an empty sequence. *)
Fixpoint argmax_from (best_i : nat) (best : efloat) (i : nat)
    (l : list efloat) : nat :=
  match l with
  | [] => best_i
  | x :: l' =>
      if ef_lt best x then argmax_from i x (S i) l'
      else argmax_from best_i best (S i) l'
  end.

Definition argmax (l : list efloat) : result nat :=
  match l with
  | [] => Raise ValueError
  | x :: l' => Ok (argmax_from 0 x 1 l')
  end.

Definition argmax_axis0 (a : list (list efloat)) : result (list nat) :=
  mapM argmax (np.columns a).

(** What [argmax] is to find: index [r] holds a maximum of [l], and no
    earlier index holds one. *)
Definition first_max (l : list efloat) (r : nat) : Prop :=
  ∃ x, l !! r = Some x ∧
       ∀ k y, l !! k = Some y →
              ef_lt x y = false ∧ ((k < r)%nat → ef_lt y x = true).

(** ** Grids and the results provider *)

Record grid_info := GridInfo {
  gi_name : string;
  gi_full_id : string;
  gi_count : Z;
  gi_light_path : list (list string)
}.

Inductive res_type := direct | total.

(** The part of the [AnnualDaylight] results object that [leed.py] reads.
    The class itself lives in [results/annual_daylight.py], outside the
    sources at hand, so its methods are fields here.  [_get_array] takes the
    state ([0] when the caller leaves it out). *)
Record AnnualDaylight := {
  sun_up_hours : list Qc;
  timestep : Z;
  occ_mask : list Z;
  total_occ : Z;
  _filter_grids : string → list grid_info;
  _get_state_combinations : grid_info → list (odict.t Qc);
  _get_array : grid_info → string → Qc → res_type → np.matrix;
  _array_from_states : grid_info → odict.t (list Qc) → np.matrix;
  values_to_annual : list Qc → list Qc → Z → list Qc
}.

(** The flattened light paths of a grid; the static apertures are dropped
    from a group that has other members. *)
Definition light_paths_of (grid_info : grid_info) : list string :=
  lp ← gi_light_path grid_info;
  filter (λ _lp, ¬ (_lp = static_apertures ∧ (1 < length lp)%nat)) lp.

(** ** The exhaustive search of [leed_states_schedule] *)

(** The keys and the value lists of [shade_transmittances] are unzipped
    (which fails on an empty dictionary), and every element [v] of the
    [itertools.product] of the value lists gives [dict(zip(keys, v))]. *)
Definition transmittance_combinations (shade_transmittances : odict.t (list Qc))
    : result (list (odict.t Qc)) :=
  match shade_transmittances with
  | [] => Raise ValueError
  | _ =>
      let keys := odict.keys shade_transmittances in
      let values := odict.values shade_transmittances in
      Ok ((λ v, zip keys v) <$> product values)
  end.

Definition combination_arrays (results : AnnualDaylight)
    (grid_info : grid_info) (use_states : bool) (combination : odict.t Qc)
    : list np.matrix :=
  (λ '(light_path, value),
     if use_states then _get_array results grid_info light_path value direct
     else
       let array := _get_array results grid_info light_path 0 direct in
       if decide (value = 1) then array else np.scale array value)
  <$> combination.

(** [(column >= 1000).sum() / grid_count] *)
Definition overlit_fraction (grid_count : Z) (column : list Qc) : Qc :=
  Qc_of_nat (length (filter (λ x, lux_1000 ≤ x) column)) / Qc_of_Z grid_count.


Definition combination_percentage (combination_array : np.matrix)
    (grid_count : Z) : list Qc :=
  overlit_fraction grid_count <$> np.columns combination_array.

Definition combination_array (results : AnnualDaylight)
    (grid_info : grid_info) (use_states : bool) (combination : odict.t Qc)
    : result np.matrix :=
  match py_sum (combination_arrays results grid_info use_states combination) with
  | None => Raise AttributeError
  | Some array => Ok array
  end.

Definition array_list_combinations (results : AnnualDaylight)
    (grid_info : grid_info) (use_states : bool)
    (combinations : list (odict.t Qc)) : result (list (list Qc)) :=
  mapM (λ combination,
          array ← combination_array results grid_info use_states combination;
          Ok (combination_percentage array (gi_count grid_info)))
       combinations.

(** [array_combinations[array_combinations > 0.02] = -np.inf] *)
Definition mark_invalid (array_combinations : list (list Qc))
    : list (list efloat) :=
  map (map (λ p, if decide (two_percent < p) then NegInf else Fin p))
      array_combinations.

(** [np.where(np.all(array_combinations == -np.inf, axis=0))[0]] *)
Definition grid_comply (array_combinations : list (list efloat)) : list nat :=
  filter (λ j, forallb is_neg_inf (np.column j array_combinations) = true)
         (seq 0 (np.ncols array_combinations)).

(** [[int(hoy) for hoy in np.array(results.sun_up_hours)[grid_comply]]] *)
Definition failing_hoys (sun_up_hours : list Qc) (grid_comply : list nat)
    : result (list Z) :=
  mapM (λ j, match sun_up_hours !! j with
             | Some hoy => Ok (int_of hoy)
             | None => Raise IndexError
             end) grid_comply.

Definition pick {A} (l : list A) (idx : nat) : result A :=
  match l !! idx with
  | Some x => Ok x
  | None => Raise IndexError
  end.

(** The position that sun-up hour [j] takes among the occupied hours, that
    is, its column after [filter_array2d]. *)
Definition occ_rank (occ_mask : list Z) (j : nat) : nat :=
  length (filter np.truthy (take j occ_mask)).

(** What one pass of the exhaustive search computes before it touches the
    dictionaries. *)
Record search_trace := SearchTrace {
  tr_percentages : list (list Qc);
  tr_failing : list Z;
  tr_max_indices : list nat;
  tr_selected : list (odict.t Qc)
}.

Definition exhaustive_trace (results : AnnualDaylight) (grid_info : grid_info)
    (use_states : bool) (combinations : list (odict.t Qc)) (occ_mask : list Z)
    : result search_trace :=
  percentages ←
    array_list_combinations results grid_info use_states combinations;
  array_combinations ← np.array2d percentages;
  let array_combinations := mark_invalid array_combinations in
  failing ←
    failing_hoys (sun_up_hours results) (grid_comply array_combinations);
  array_combinations_filter ← filter_array2d array_combinations occ_mask;
  max_indices ← argmax_axis0 array_combinations_filter;
  selected ← mapM (pick combinations) max_indices;
  Ok (SearchTrace percentages failing max_indices selected).

(** The loop that merges the selected combinations into the grid's
    schedule. *)
Definition merge_combinations (selected : list (odict.t Qc))
    (grid_states_schedule : odict.t (list Qc)) : odict.t (list Qc) :=
  foldl
    (λ schedule combination,
       foldl (λ schedule '(light_path, value),
                if decide (light_path ≠ static_apertures)
                then odict.append light_path value schedule
                else schedule)
             schedule combination)
    grid_states_schedule selected.

Definition exhaustive_search (results : AnnualDaylight) (grid_info : grid_info)
    (use_states : bool) (combinations : list (odict.t Qc)) (occ_mask : list Z)
    (grid_states_schedule : odict.t (list Qc))
    (fail_to_comply : odict.t (list Z))
    : result (odict.t (list Qc) * odict.t (list Z)) :=
  trace ← exhaustive_trace results grid_info use_states combinations occ_mask;
  let fail_to_comply :=
    match tr_failing trace with
    | [] => fail_to_comply
    | hoys => odict.set (gi_name grid_info) hoys fail_to_comply
    end in
  Ok (merge_combinations (tr_selected trace) grid_states_schedule,
      fail_to_comply).

(** ** Collaborators outside [leed.py]

    Functions of other modules and libraries that [leed.py] calls but that
    are not among the sources at hand: the occupancy helpers (for the fixed
    8-to-6 schedule), the descending search of [leed_schedule.py], the two
    metric formulas of [metrics.py], and the builtin [round(x, 2)]. *)
Record collaborators := {
  filter_schedule_by_hours : list Qc → list Z;
  schedule_to_hoys : list Qc → list Qc;
  states_schedule_descending :
    AnnualDaylight → grid_info → list string → list Z →
    odict.t (list Qc) → odict.t (list Z) →
    odict.t (list Qc) * odict.t (list Z);
  shd_trans_schedule_descending :
    AnnualDaylight → grid_info → list string → odict.t (list Qc) → list Z →
    odict.t (list Qc) → odict.t (list Z) →
    odict.t (list Qc) * odict.t (list Z);
  da_array2d : np.matrix → Z → Qc → list Qc;
  ase_array2d : np.matrix → Z → Qc → Qc * list Qc;
  round2 : Qc → Qc
}.

(** ** [leed_states_schedule] *)

(** The merge of two schedules of one aperture group: [np.logical_or] cast
    to [int] in state mode, [np.minimum] otherwise.  Both arrays hold one
    entry per occupied sun-up hour. *)
Definition merge_schedules (use_states : bool) (current value : list Qc)
    : list Qc :=
  if use_states then zip_with np.logical_or current value
  else zip_with np.minimum current value.

(** The loop over [grid_states_schedule.items()] that closes each grid. *)
Definition merge_grid_schedule (use_states : bool)
    (states_schedule grid_states_schedule : odict.t (list Qc))
    : odict.t (list Qc) :=
  foldl (λ states_schedule '(key, value),
           match odict.get key states_schedule with
           | None => odict.set key value states_schedule
           | Some current =>
               odict.set key (merge_schedules use_states current value)
                         states_schedule
           end)
        states_schedule grid_states_schedule.

Definition schedule_state : Type :=
  odict.t (list Qc) * odict.t (list Z) * gmap string Qc.

(** The candidate combinations of a grid with at most six light paths. *)
Definition grid_combinations (results : AnnualDaylight)
    (grid_info : grid_info) (light_paths : list string)
    (shade_transmittance : shade_input) (use_states : bool)
    (shd_trans_dict : gmap string Qc)
    : result (list (odict.t Qc) * gmap string Qc) :=
  if use_states then
    Ok (_get_state_combinations results grid_info, shd_trans_dict)
  else
    let '(shade_transmittances, shd_trans_dict) :=
      shade_transmittance_per_light_path
        light_paths shade_transmittance shd_trans_dict in
    combinations ← transmittance_combinations shade_transmittances;
    Ok (combinations, shd_trans_dict).

(** The body of the loop over [grids_info]. *)
Definition grid_step (ext : collaborators) (results : AnnualDaylight)
    (shade_transmittance : shade_input) (use_states : bool)
    (occ_mask : list Z) (acc : schedule_state) (grid_info : grid_info)
    : result schedule_state :=
  let '(states_schedule, fail_to_comply, shd_trans_dict) := acc in
  let grid_states_schedule : odict.t (list Qc) := [] in
  let light_paths := light_paths_of grid_info in
  let '(shade_transmittances, shd_trans_dict) :=
    shade_transmittance_per_light_path
      light_paths shade_transmittance shd_trans_dict in
  '(grid_states_schedule, fail_to_comply, shd_trans_dict) ←
    (if decide (6 < length light_paths)%nat then
       if use_states then
         let '(grid_states_schedule, fail_to_comply) :=
           states_schedule_descending ext results grid_info light_paths
             occ_mask grid_states_schedule fail_to_comply in
         Ok (grid_states_schedule, fail_to_comply, shd_trans_dict)
       else
         let '(grid_states_schedule, fail_to_comply) :=
           shd_trans_schedule_descending ext results grid_info light_paths
             shade_transmittances occ_mask grid_states_schedule
             fail_to_comply in
         Ok (grid_states_schedule, fail_to_comply, shd_trans_dict)
     else
       '(combinations, shd_trans_dict) ←
         grid_combinations results grid_info light_paths shade_transmittance
           use_states shd_trans_dict;
       '(grid_states_schedule, fail_to_comply) ←
         exhaustive_search results grid_info use_states combinations occ_mask
           grid_states_schedule fail_to_comply;
       Ok (grid_states_schedule, fail_to_comply, shd_trans_dict));
  Ok (merge_grid_schedule use_states states_schedule grid_states_schedule,
      fail_to_comply, shd_trans_dict).

Fixpoint foldlM {A B} (f : B → A → result B) (b : B) (l : list A)
    : result B :=
  match l with
  | [] => Ok b
  | a :: l' => b' ← f b a; foldlM f b' l'
  end.

(** The expansion of every schedule to the hours of the year. *)
Definition map_to_annual (ext : collaborators) (results : AnnualDaylight)
    (states_schedule : odict.t (list Qc)) : odict.t (list Qc) :=
  let occupancy_hoys := schedule_to_hoys ext (sun_up_hours results) in
  (λ '(identifier, values),
     (identifier,
      values_to_annual results occupancy_hoys values (timestep results)))
  <$> states_schedule.

Definition leed_states_schedule (ext : collaborators)
    (results : AnnualDaylight) (grids_filter : string)
    (shade_transmittance : shade_input) (use_states : bool)
    : result schedule_state :=
  let grids_info := _filter_grids results grids_filter in
  let occ_mask := filter_schedule_by_hours ext (sun_up_hours results) in
  '(states_schedule, fail_to_comply, shd_trans_dict) ←
    foldlM (grid_step ext results shade_transmittance use_states occ_mask)
           ([], [], ∅) grids_info;
  Ok (map_to_annual ext results states_schedule, fail_to_comply,
      shd_trans_dict).

(** ** The metric engine of [leed_option_one] *)

(** An element-wise comparison of a one dimensional array with a scalar. *)
Definition pass_flags (values : list Qc) (test : Qc → bool) : list bool :=
  test <$> values.

(** [_ase_hourly_percentage]: for every hour the percentage of the floor
    area, or of the sensors, above the direct threshold, mapped to the
    hours of the year (the header of the data collection is left out). *)
Definition _ase_hourly_percentage (ext : collaborators)
    (results : AnnualDaylight) (array : np.matrix) (grid_info : grid_info)
    (direct_threshold : Qc) (grid_area : option (list Qc)) : list Qc :=
  let percentage_above :=
    match grid_area with
    | Some grid_area =>
        (λ column,
           sum_list (filter (λ xa : Qc * Qc, direct_threshold < xa.1)
                            (zip column grid_area)).*2
           / sum_list grid_area * hundred)
        <$> np.columns array
    | None =>
        (λ column,
           Qc_of_nat (length (filter (λ x, direct_threshold < x) column))
           / Qc_of_Z (gi_count grid_info) * hundred)
        <$> np.columns array
    end in
  let occupancy_hoys := schedule_to_hoys ext (sun_up_hours results) in
  values_to_annual results occupancy_hoys percentage_above (timestep results).

(** One iteration of the loop under [# annual sunlight exposure]: the
    direct arrays of the grid are filtered to the occupied hours, summed and
    handed to the ASE formula. *)
Definition ase_of_grid (ext : collaborators) (results : AnnualDaylight)
    (grid_info : grid_info) (grid_area : option (list Qc))
    (occ_hours direct_threshold : Qc)
    : result (Qc * list Qc * list bool * list Qc) :=
  let light_paths := light_paths_of grid_info in
  arrays ←
    mapM (λ light_path,
            filter_array2d
              (_get_array results grid_info light_path 0 direct)
              (occ_mask results))
         light_paths;
  match py_sum arrays with
  | None => Raise AttributeError
  | Some array =>
      let '(ase_grid, h_above) :=
        ase_array2d ext array (int_of occ_hours) direct_threshold in
      let ase_hr_pct :=
        _ase_hourly_percentage ext results array grid_info direct_threshold
          grid_area in
      Ok (ase_grid, h_above,
          pass_flags h_above (λ h, bool_decide (h < occ_hours)), ase_hr_pct)
  end.

(** [states_schedule[light_path][sun_up_hours][occ_mask.astype(bool)]] *)
Definition occupied_schedule (results : AnnualDaylight)
    (states_schedule : odict.t (list Qc)) (light_path : string)
    : result (list Qc) :=
  match odict.get light_path states_schedule with
  | None => Raise KeyError
  | Some annual =>
      at_sun_up ←
        mapM (λ hoy, match annual !! Z.to_nat (int_of hoy) with
                     | Some v => Ok v
                     | None => Raise IndexError
                     end)
             (sun_up_hours results);
      Ok (np.select (occ_mask results) at_sun_up)
  end.

(** [array * vector]: every row is multiplied entry by entry. *)
Definition scale_columns (array : np.matrix) (vector : list Qc) : np.matrix :=
  (λ row, zip_with Qcmult row vector) <$> array.

(** The three lists of arrays that the loop over the light paths of one
    grid builds: with the schedule applied, with the blinds always up and
    with the blinds always down. *)
Record sda_lists := SdaLists {
  arrays : list np.matrix;
  arrays_blinds_up : list np.matrix;
  arrays_blinds_down : list np.matrix
}.

Definition sda_light_path_states (results : AnnualDaylight)
    (grid_info : grid_info) (acc : sda_lists) (light_path : string)
    : result sda_lists :=
  if decide (light_path ≠ static_apertures) then
    array_filter_up ←
      filter_array2d (_get_array results grid_info light_path 0 total)
                     (occ_mask results);
    array_filter_down ←
      filter_array2d (_get_array results grid_info light_path 1 total)
                     (occ_mask results);
    Ok (SdaLists (arrays acc)
                 (arrays_blinds_up acc ++ [array_filter_up])
                 (arrays_blinds_down acc
                    ++ [array_filter_down] ++ [array_filter_down]))
  else
    array_filter ←
      filter_array2d (_get_array results grid_info light_path 0 total)
                     (occ_mask results);
    Ok (SdaLists (arrays acc ++ [array_filter])
                 (arrays_blinds_up acc ++ [array_filter])
                 (arrays_blinds_down acc ++ [array_filter])).

Definition sda_light_path_transmittance (results : AnnualDaylight)
    (grid_info : grid_info) (states_schedule : odict.t (list Qc))
    (shd_trans_dict : gmap string Qc) (acc : sda_lists) (light_path : string)
    : result sda_lists :=
  array_filter ←
    filter_array2d (_get_array results grid_info light_path 0 total)
                   (occ_mask results);
  if decide (light_path ≠ static_apertures) then
    shd_trans_array ← occupied_schedule results states_schedule light_path;
    match shd_trans_dict !! light_path with
    | None => Raise KeyError
    | Some shd_trans =>
        Ok (SdaLists (arrays acc ++ [scale_columns array_filter shd_trans_array])
                     (arrays_blinds_up acc ++ [array_filter])
                     (arrays_blinds_down acc
                        ++ [np.scale array_filter shd_trans]))
    end
  else
    Ok (SdaLists (arrays acc ++ [array_filter])
                 (arrays_blinds_up acc ++ [array_filter])
                 (arrays_blinds_down acc ++ [array_filter])).

(** [filter_array2d(np.zeros((count, len(sun_up_hours))), occ_mask)] *)
Definition base_zero_array (results : AnnualDaylight) (grid_info : grid_info)
    : result np.matrix :=
  let zeros :=
    replicate (Z.to_nat (gi_count grid_info))
              (replicate (length (sun_up_hours results)) (0 : Qc)) in
  match zeros with
  | [] =>
      if decide (length (occ_mask results) = length (sun_up_hours results))
      then Ok [] else Raise IndexError
  | _ => filter_array2d zeros (occ_mask results)
  end.

(** The summed arrays of one grid: scheduled, blinds up, blinds down. *)
Definition sda_arrays (results : AnnualDaylight) (grid_info : grid_info)
    (use_states : bool) (states_schedule : odict.t (list Qc))
    (shd_trans_dict : gmap string Qc)
    : result (np.matrix * np.matrix * np.matrix) :=
  let light_paths := light_paths_of grid_info in
  base ← base_zero_array results grid_info;
  let start := SdaLists [base] [base] [base] in
  if use_states then
    array ←
      filter_array2d (_array_from_states results grid_info states_schedule)
                     (occ_mask results);
    lists ← foldlM (sda_light_path_states results grid_info) start light_paths;
    Ok (array,
        sum_arrays (arrays_blinds_up lists),
        sum_arrays (arrays_blinds_down lists))
  else
    lists ←
      foldlM (sda_light_path_transmittance results grid_info states_schedule
                shd_trans_dict)
             start light_paths;
    Ok (sum_arrays (arrays lists),
        sum_arrays (arrays_blinds_up lists),
        sum_arrays (arrays_blinds_down lists)).

(** The per-sensor pass flags of one grid for the three variants. *)
Definition sda_of_grid (ext : collaborators) (results : AnnualDaylight)
    (grid_info : grid_info) (use_states : bool)
    (states_schedule : odict.t (list Qc)) (shd_trans_dict : gmap string Qc)
    (threshold target_time : Qc)
    : result (list Qc * list bool * list bool * list bool) :=
  '(array, array_blinds_up, array_blinds_down) ←
    sda_arrays results grid_info use_states states_schedule shd_trans_dict;
  let da_grid := da_array2d ext array (total_occ results) threshold in
  let da_blinds_up_grid :=
    da_array2d ext array_blinds_up (total_occ results) threshold in
  let da_blinds_down_grid :=
    da_array2d ext array_blinds_down (total_occ results) threshold in
  let passes := λ da, pass_flags da (λ x, bool_decide (target_time ≤ x)) in
  Ok (da_grid, passes da_grid, passes da_blinds_up_grid,
      passes da_blinds_down_grid).

(** ** Summaries *)

(** The values of the summary dictionaries. *)
Inductive jvalue :=
  | JNum (x : Qc)
  | JInt (z : Z)
  | JStr (s : string).

(** [pass.sum()] and [grid_area[pass].sum()] *)
Definition count_true (pass : list bool) : Z :=
  Z.of_nat (length (filter (λ b : bool, b = true) pass)).
Definition area_where (grid_area : list Qc) (pass : list bool) : Qc :=
  sum_list (filter (λ ab : Qc * bool, ab.2 = true) (zip grid_area pass)).*1.

(** [_create_grid_summary]: the grid's [full_id] and the inner dictionary
    stored under it. *)
Definition _create_grid_summary (ext : collaborators) (grid_info : grid_info)
    (sda_grid sda_blinds_up_grid sda_blinds_down_grid ase_grid : Qc)
    (pass_sda pass_ase total_floor : Qc) (area_weighted : bool)
    : string * gmap string jvalue :=
  let grid_id := gi_full_id grid_info in
  let grid_name := gi_name grid_info in
  let grid_summary : gmap string jvalue :=
    if decide (Qc_of_Z 10 < ase_grid) then
      {[ "ase_note" :=
           JStr ("The Annual Sunlight Exposure is greater than 10% for space: "
                 +:+ grid_name
                 +:+ ". Identify in writing how the space is designed to "
                 +:+ "address glare.") ]}
    else ∅ in
  let common : gmap string jvalue :=
    <["name" := JStr grid_name]>
    (<["full_id" := JStr grid_id]>
    (<["ase" := JNum (round2 ext ase_grid)]>
    (<["sda" := JNum (round2 ext sda_grid)]>
    (<["sda_blinds_up" := JNum (round2 ext sda_blinds_up_grid)]>
    (<["sda_blinds_down" := JNum (round2 ext sda_blinds_down_grid)]> ∅))))) in
  let _grid_summary : gmap string jvalue :=
    if area_weighted then
      <["floor_area_passing_ase" := JNum (round2 ext pass_ase)]>
      (<["floor_area_passing_sda" := JNum (round2 ext pass_sda)]>
      (<["total_floor_area" := JNum (round2 ext total_floor)]> common))
    else
      <["sensor_count_passing_ase" := JInt (int_of (round2 ext pass_ase))]>
      (<["sensor_count_passing_sda" := JInt (int_of (round2 ext pass_sda))]>
      (<["total_sensor_count" := JInt (int_of total_floor)]> common)) in
  (grid_id, _grid_summary ∪ grid_summary).

(** Modelled from the spec: [recursive_dict_merge] of [util.py], which is
    not among the sources, for the two levels that occur here: an entry of
    the second dictionary is added to the first, and where both hold a
    dictionary under one key the two are merged, the second one winning. *)
Definition recursive_dict_merge (dict_1 : gmap string (gmap string jvalue))
    (entry : string * gmap string jvalue) : gmap string (gmap string jvalue) :=
  match dict_1 !! entry.1 with
  | Some present => <[entry.1 := entry.2 ∪ present]> dict_1
  | None => <[entry.1 := entry.2]> dict_1
  end.

(** The running totals of either loop of [_leed_summary]. *)
Record totals := Totals {
  total_all : Qc;
  total_pass_ase : Qc;
  total_pass_sda : Qc;
  grids_done : gmap string (gmap string jvalue)
}.

(** One iteration of the area-weighted loop.  The divisions are divisions
    of Python floats, which raise on a zero area. *)
Definition area_step (ext : collaborators) (acc : totals)
    (item : list bool * list bool * list Qc * grid_info
            * list bool * list bool) : result totals :=
  let '(pass_ase, pass_sda, grid_area, grid_info, pass_sda_blinds_up,
        pass_sda_blinds_down) := item in
  let total_grid_area := sum_list grid_area in
  let area_pass_ase := area_where grid_area pass_ase in
  if decide (total_grid_area = 0) then Raise ZeroDivisionError else
  let ase_grid := (total_grid_area - area_pass_ase) / total_grid_area * hundred in
  let area_pass_sda := area_where grid_area pass_sda in
  let area_pass_sda_blind_up := area_where grid_area pass_sda_blinds_up in
  let area_pass_sda_blinds_down := area_where grid_area pass_sda_blinds_down in
  let sda_grid := area_pass_sda / total_grid_area * hundred in
  let sda_blinds_up_grid :=
    area_pass_sda_blind_up / total_grid_area * hundred in
  let sda_blinds_down_grid :=
    area_pass_sda_blinds_down / total_grid_area * hundred in
  let grid_summary :=
    _create_grid_summary ext grid_info sda_grid sda_blinds_up_grid
      sda_blinds_down_grid ase_grid area_pass_sda area_pass_ase
      total_grid_area true in
  Ok (Totals (total_all acc + total_grid_area)
             (total_pass_ase acc + area_pass_ase)
             (total_pass_sda acc + area_pass_sda)
             (recursive_dict_merge (grids_done acc) grid_summary)).

(** One iteration of the count-weighted loop.  The divisions are NumPy
    divisions (a count of zero would give [nan], which has no counterpart
    here: grids have at least one sensor). *)
Definition count_step (ext : collaborators) (acc : totals)
    (item : list bool * list bool * grid_info * list bool * list bool)
    : totals :=
  let '(pass_ase, pass_sda, grid_info, pass_sda_blinds_up,
        pass_sda_blinds_down) := item in
  let grid_count := Qc_of_Z (gi_count grid_info) in
  let sensor_count_pass_ase := Qc_of_Z (count_true pass_ase) in
  let ase_grid := (grid_count - sensor_count_pass_ase) / grid_count * hundred in
  let sensor_count_pass_sda := Qc_of_Z (count_true pass_sda) in
  let sensor_count_pass_sda_blinds_up :=
    Qc_of_Z (count_true pass_sda_blinds_up) in
  let sensor_count_pass_sda_blinds_down :=
    Qc_of_Z (count_true pass_sda_blinds_down) in
  let sda_grid := sensor_count_pass_sda / grid_count * hundred in
  let sda_blinds_up_grid :=
    sensor_count_pass_sda_blinds_up / grid_count * hundred in
  let sda_blinds_down_grid :=
    sensor_count_pass_sda_blinds_down / grid_count * hundred in
  let grid_summary :=
    _create_grid_summary ext grid_info sda_grid sda_blinds_up_grid
      sda_blinds_down_grid ase_grid sensor_count_pass_sda
      sensor_count_pass_ase grid_count false in
  Totals (total_all acc + grid_count)
         (total_pass_ase acc + sensor_count_pass_ase)
         (total_pass_sda acc + sensor_count_pass_sda)
         (recursive_dict_merge (grids_done acc) grid_summary).

(** [zip] of several lists, as far as the shortest reaches. *)
Definition zip5 {A B C D E} (a : list A) (b : list B) (c : list C)
    (d : list D) (e : list E) : list (A * B * C * D * E) :=
  zip (zip (zip (zip a b) c) d) e.
Definition zip6 {A B C D E F} (a : list A) (b : list B) (c : list C)
    (d : list D) (e : list E) (f : list F) : list (A * B * C * D * E * F) :=
  zip (zip5 a b c d e) f.

Definition _leed_summary (ext : collaborators)
    (pass_ase_grids pass_sda_grids : list (list bool))
    (grids_info : list grid_info) (grid_areas : list (option (list Qc)))
    (pass_sda_blinds_up_grids pass_sda_blinds_down_grids : list (list bool))
    : result (gmap string jvalue * gmap string (gmap string jvalue)) :=
  let start := Totals 0 0 0 ∅ in
  if decide (Forall is_Some grid_areas) then
    (* weighted by mesh face area *)
    t ← foldlM (area_step ext) start
          (zip6 pass_ase_grids pass_sda_grids (default [] <$> grid_areas)
                grids_info pass_sda_blinds_up_grids pass_sda_blinds_down_grids);
    if decide (total_all t = 0) then Raise ZeroDivisionError else
    let summary : gmap string jvalue :=
      <["total_floor_area" := JNum (total_all t)]>
      (<["floor_area_passing_sda" := JNum (total_pass_sda t)]>
      (<["floor_area_passing_ase" := JNum (total_pass_ase t)]>
      (<["sda" :=
           JNum (round2 ext (total_pass_sda t / total_all t * hundred))]>
      (<["ase" :=
           JNum (round2 ext ((total_all t - total_pass_ase t)
                               / total_all t * hundred))]> ∅)))) in
    Ok (summary, grids_done t)
  else
    (* assume all sensor points cover the same area *)
    let items := zip5 pass_ase_grids pass_sda_grids grids_info
                      pass_sda_blinds_up_grids pass_sda_blinds_down_grids in
    (* without a grid the totals stay Python integers, and [0 / 0] raises *)
    if decide (items = []) then Raise ZeroDivisionError else
    let t := foldl (count_step ext) start items in
    let summary : gmap string jvalue :=
      <["total_sensor_count" := JInt (int_of (total_all t))]>
      (<["sensor_count_passing_sda" := JInt (int_of (total_pass_sda t))]>
      (<["sensor_count_passing_ase" := JInt (int_of (total_pass_ase t))]>
      (<["sda" :=
           JNum (round2 ext (total_pass_sda t / total_all t * hundred))]>
      (<["ase" :=
           JNum (round2 ext ((total_all t - total_pass_ase t)
                               / total_all t * hundred))]> ∅)))) in
    Ok (summary, grids_done t).

(** ** Credits *)

(** [d['sda']] *)
Definition sda_of (d : gmap string jvalue) : result Qc :=
  match d !! "sda" with
  | Some (JNum x) => Ok x
  | Some (JInt z) => Ok (Qc_of_Z z)
  | _ => Raise KeyError
  end.

Definition exemplary : string := "Exemplary performance".

(** [', '.join(keys)] *)
Fixpoint join_comma (keys : list string) : string :=
  match keys with
  | [] => ""
  | [k] => k
  | k :: rest => k +:+ ", " +:+ join_comma rest
  end.

Definition fail_note (fail_to_comply : odict.t (list Z)) : string :=
  "0 credits have been awarded. The following sensor grids have at "
  +:+ "least one hour where 2% of the floor area receives direct "
  +:+ "illuminance of 1000 lux or more: "
  +:+ join_comma (odict.keys fail_to_comply) +:+ ".".

(** The tier table. *)
Definition tier (sda : Qc) : Z :=
  if decide (Qc_of_Z 75 ≤ sda) then 3
  else if decide (Qc_of_Z 55 ≤ sda) then 2
  else if decide (Qc_of_Z 40 ≤ sda) then 1
  else 0.

(** The block of [leed_option_one] under the comment [# credits].  Every
    grid summary is read before the test, where Python stops at the first
    grid below 55; the two differ only for a grid summary without the key
    ['sda'], which [_create_grid_summary] never builds. *)
Definition assign_credits (fail_to_comply : odict.t (list Z))
    (summary : gmap string jvalue)
    (summary_grid : gmap string (gmap string jvalue))
    : result (gmap string jvalue) :=
  match fail_to_comply with
  | [] =>
      sda ← sda_of summary;
      let credits := tier sda in
      let summary := <["credits" := JInt credits]> summary in
      grid_sdas ← mapM sda_of (map_to_list summary_grid).*2;
      if forallb (λ x, bool_decide (Qc_of_Z 55 ≤ x)) grid_sdas then
        if decide (credits ≤ 2)%Z then
          Ok (<["credits" := JInt (credits + 1)]> summary)
        else Ok (<["credits" := JStr exemplary]> summary)
      else Ok summary
  | _ =>
      let summary := <["credits" := JInt 0]> summary in
      Ok (<["note" := JStr (fail_note fail_to_comply)]> summary)
  end.

(** ** [leed_option_one] *)

(** What [leed_option_one] returns.  The schedule is given as
    [leed_states_schedule] returned it, before its conversion to data
    collections; the files written for [sub_folder] (the hourly ASE series
    among them) are left out. *)
Record leed_result := LeedResult {
  lr_summary : gmap string jvalue;
  lr_summary_grid : gmap string (gmap string jvalue);
  lr_da_grids : list (list Qc);
  lr_hours_above : list (list Qc);
  lr_states_schedule : odict.t (list Qc);
  lr_fail_to_comply : odict.t (list Z);
  lr_grids_info : list grid_info
}.

(** [not states_schedule] *)
Definition is_falsy {V} (states_schedule : option (odict.t V)) : bool :=
  match states_schedule with
  | None | Some [] => true
  | Some _ => false
  end.

(** [model_areas] stands for the face areas of the sensor-grid meshes of the
    model file found next to the results folder (the list [grid_areas]
    before the test [if not grid_areas]); it is empty when there is no such
    file or no grid has a mesh. *)
Definition leed_option_one (ext : collaborators) (results : AnnualDaylight)
    (grids_filter : string) (shade_transmittance : shade_input)
    (use_states : bool) (states_schedule : option (odict.t (list Qc)))
    (threshold direct_threshold occ_hours target_time : Qc)
    (model_areas : list (list Qc)) : result leed_result :=
  let grids_info := _filter_grids results grids_filter in
  '(states_schedule, fail_to_comply, shd_trans_dict) ←
    (if is_falsy states_schedule then
       leed_states_schedule ext results grids_filter shade_transmittance
         use_states
     else Raise NotImplementedError);
  let grid_areas : list (option (list Qc)) :=
    match model_areas with
    | [] => replicate (length grids_info) None
    | _ => Some <$> model_areas
    end in
  (* annual sunlight exposure *)
  ase ←
    mapM (λ '(grid_info, grid_area),
            ase_of_grid ext results grid_info grid_area occ_hours
              direct_threshold)
         (zip grids_info grid_areas);
  let hours_above :=
    (λ r : Qc * list Qc * list bool * list Qc, r.1.1.2) <$> ase in
  let pass_ase_grids :=
    (λ r : Qc * list Qc * list bool * list Qc, r.1.2) <$> ase in
  (* spatial daylight autonomy *)
  sda ←
    mapM (λ grid_info,
            sda_of_grid ext results grid_info use_states states_schedule
              shd_trans_dict threshold target_time)
         grids_info;
  let da_grids :=
    (λ r : list Qc * list bool * list bool * list bool, r.1.1.1) <$> sda in
  let pass_sda_grids :=
    (λ r : list Qc * list bool * list bool * list bool, r.1.1.2) <$> sda in
  let pass_sda_blinds_up_grids :=
    (λ r : list Qc * list bool * list bool * list bool, r.1.2) <$> sda in
  let pass_sda_blinds_down_grids :=
    (λ r : list Qc * list bool * list bool * list bool, r.2) <$> sda in
  (* create summaries for all grids and each grid individually *)
  '(summary, summary_grid) ←
    _leed_summary ext pass_ase_grids pass_sda_grids grids_info grid_areas
      pass_sda_blinds_up_grids pass_sda_blinds_down_grids;
  (* credits *)
  summary ← assign_credits fail_to_comply summary summary_grid;
  Ok (LeedResult summary summary_grid da_grids hours_above states_schedule
        fail_to_comply grids_info).

(** The two weighting modes of a summary dictionary, told apart by the
    fields it carries. *)
Inductive weighting := AreaWeighted | CountWeighted.

Definition area_fields : list string :=
  ["floor_area_passing_ase"; "floor_area_passing_sda"; "total_floor_area"].
Definition count_fields : list string :=
  ["sensor_count_passing_ase"; "sensor_count_passing_sda";
   "total_sensor_count"].

Definition has_all (fields : list string) (d : gmap string jvalue) : Prop :=
  ∀ k, k ∈ fields → is_Some (d !! k).
Definition has_none (fields : list string) (d : gmap string jvalue) : Prop :=
  ∀ k, k ∈ fields → d !! k = None.

Definition uses (w : weighting) (d : gmap string jvalue) : Prop :=
  match w with
  | AreaWeighted => has_all area_fields d ∧ has_none count_fields d
  | CountWeighted => has_all count_fields d ∧ has_none area_fields d
  end.

(** The values that the items of a combination hold for one light path (one
    value when the combination is a dictionary), and the effect of appending
    values to a schedule entry that may be missing. *)
Definition values_for (light_path : string) (combination : odict.t Qc)
    : list Qc :=
  (filter (λ kv : string * Qc, kv.1 = light_path) combination).*2.

Definition extend (entry : option (list Qc)) (values : list Qc)
    : option (list Qc) :=
  match values with
  | [] => entry
  | _ => Some (default [] entry ++ values)
  end.

(** The shape that the results provider gives the arrays of a grid: at
    least one sensor, and [hours] columns. *)
Definition shape_ok (hours : nat) (array : np.matrix) : Prop :=
  array ≠ [] ∧ Forall (λ row, length row = hours) array.

Definition well_shaped (results : AnnualDaylight) (grid_info : grid_info)
    (occ_mask : list Z) : Prop :=
  length (sun_up_hours results) = length occ_mask ∧
  ∀ light_path state type,
    shape_ok (length occ_mask)
             (_get_array results grid_info light_path state type).

(** ** Decidable equality of outcomes *)

#[global] Instance exn_eq_dec : EqDecision exn.
Proof. solve_decision. Defined.
#[global] Instance result_eq_dec {A} `{EqDecision A} : EqDecision (result A).
Proof. solve_decision. Defined.
#[global] Instance jvalue_eq_dec : EqDecision jvalue.
Proof. solve_decision. Defined.

Definition from_Ok {A} (default : A) (r : result A) : A :=
  match r with
  | Ok a => a
  | Raise _ => default
  end.

(** ** Sample data

    Small results providers on which the definitions above can be run. *)

Module sample.

Definition q (a : Z) (b : positive) : Qc := Q2Qc (a # b).

(** Modelled from the spec: [da_array2d] of [metrics.py], which is not
    among the sources; a sensor's daylight autonomy is the percentage of
    the occupied time at which its illuminance meets or exceeds the
    threshold. *)
Definition daylight_autonomy (array : np.matrix) (total_occ : Z)
    (threshold : Qc) : list Qc :=
  (λ row, Qc_of_nat (length (filter (λ x, threshold ≤ x) row))
          / Qc_of_Z total_occ * hundred) <$> array.

(** Modelled from the spec: [ase_array2d] of [metrics.py], which is not
    among the sources; it returns the percentage of sensors that exceed
    the direct threshold for at least the allowed number of occupied
    hours, and every sensor's count of hours above the threshold. *)
Definition sunlight_exposure (array : np.matrix) (occ_hours : Z)
    (direct_threshold : Qc) : Qc * list Qc :=
  let h_above :=
    (λ row, Qc_of_nat (length (filter (λ x, direct_threshold < x) row)))
    <$> array in
  (Qc_of_nat (length (filter (λ h, Qc_of_Z occ_hours ≤ h) h_above))
   / Qc_of_nat (length array) * hundred,
   h_above).

(** Every sun-up hour is occupied; the hours of the year are the sun-up
    hours themselves; the descending search is never reached (no sample
    grid has more than six light paths); nothing is rounded. *)
Definition ext : collaborators := {|
  filter_schedule_by_hours := λ hours, (λ _, 1%Z) <$> hours;
  schedule_to_hoys := λ hours, hours;
  states_schedule_descending := λ _ _ _ _ schedule failures,
    (schedule, failures);
  shd_trans_schedule_descending := λ _ _ _ _ _ schedule failures,
    (schedule, failures);
  da_array2d := daylight_autonomy;
  ase_array2d := sunlight_exposure;
  round2 := λ x, x
|}.

(** A stand-in for [values_to_annual] on a year of 24 hours. *)
Definition to_annual (hours values : list Qc) (timestep : Z) : list Qc :=
  foldl (λ annual hv, <[Z.to_nat (int_of hv.1) := hv.2]> annual)
        (replicate 24 0) (zip hours values).

(** One grid of two sensors behind two aperture groups, three occupied
    sun-up hours.  At hour 8 the first sensor is overlit whatever the
    shading, at hour 9 nothing is overlit, at hour 10 the first sensor is
    overlit unless group [B] is shaded. *)
Definition grid : grid_info :=
  GridInfo "G" "G" 2 [[static_apertures; "A"]; ["B"]].

Definition results : AnnualDaylight := {|
  sun_up_hours := [q 8 1; q 9 1; q 10 1];
  timestep := 1;
  occ_mask := [1; 1; 1]%Z;
  total_occ := 3;
  _filter_grids := λ _, [grid];
  _get_state_combinations := λ _, [];
  _get_array := λ _ light_path _ _,
    if decide (light_path = "A")
    then [[q 30000 1; 0; q 900 1]; [q 400 1; q 400 1; 0]]
    else [[0; 0; q 200 1]; [0; 0; 0]];
  _array_from_states := λ _ _, [];
  values_to_annual := to_annual
|}.

(** One sensor behind static apertures only, which receives exactly 1000
    lux at the single occupied sun-up hour. *)
Definition boundary_grid : grid_info :=
  GridInfo "G" "G" 1 [[static_apertures]].

Definition boundary_results : AnnualDaylight := {|
  sun_up_hours := [q 8 1];
  timestep := 1;
  occ_mask := [1%Z];
  total_occ := 1;
  _filter_grids := λ _, [boundary_grid];
  _get_state_combinations := λ _, [];
  _get_array := λ _ _ _ _, [[lux_1000]];
  _array_from_states := λ _ _, [];
  values_to_annual := to_annual
|}.

(** One sensor behind one aperture group with two simulated states: 500
    lux in total with the blinds up (state 0), 200 lux with the blinds
    down (state 1), and no direct light. *)
Definition states_grid : grid_info := GridInfo "G" "G" 1 [["A"]].

Definition states_results : AnnualDaylight := {|
  sun_up_hours := [q 8 1];
  timestep := 1;
  occ_mask := [1%Z];
  total_occ := 1;
  _filter_grids := λ _, [states_grid];
  _get_state_combinations := λ _, [[("A", 0)]; [("A", 1)]];
  _get_array := λ _ _ state type,
    match type with
    | direct => [[0]]
    | total => if decide (state = 1) then [[q 200 1]] else [[q 500 1]]
    end;
  _array_from_states := λ _ _, [[q 500 1]];
  values_to_annual := to_annual
|}.

(** The state after the loop body has run on [grid], starting from the
    empty dictionaries. *)
Definition acc : schedule_state :=
  from_Ok ([], [], ∅)
    (grid_step ext results (ShdScalar default_shd_trans) false
       [1; 1; 1]%Z ([], [], ∅) grid).

(** The run of [leed_option_one] on [results] with the default
    arguments and no model file. *)
Definition run : leed_result :=
  from_Ok (LeedResult ∅ ∅ [] [] [] [] [])
    (leed_option_one ext results "*" (ShdScalar default_shd_trans) false
       None (q 300 1) (q 1000 1) (q 250 1) (q 50 1) []).

(** A building summary and a grid summary as far as the credits read
    them. *)
Definition summary : gmap string jvalue :=
  {[ "sda" := JNum (Qc_of_Z 76) ]}.
Definition summary_grid : gmap string (gmap string jvalue) :=
  {[ "G" := {[ "sda" := JNum (Qc_of_Z 60) ]} ]}.

(** The summaries of [grid] with the face areas 1 and 3. *)
Definition summaries
    : gmap string jvalue * gmap string (gmap string jvalue) :=
  from_Ok (∅, ∅)
    (_leed_summary ext [[true; true]] [[true; false]] [grid]
       [Some [1; q 3 1]] [[true; true]] [[false; false]]).

End sample.

(** ** The conversion of the schedule to data collections *)

(** What [to_datacollection] hands to the hourly data collection of one
    aperture group: the name of the data type, the ['Shade Transmittance']
    of the header's metadata (transmittance mode only) and the values.  The
    analysis period of the header and the serialisation of the collection
    belong to Ladybug and are left out. *)
Record datacollection := DataCollection {
  dc_name : string;
  dc_shade_transmittance : option Qc;
  dc_values : list Qc
}.

Definition to_datacollection (use_states : bool)
    (shd_trans_dict : gmap string Qc) (aperture_group : string)
    (values : list Qc) : result datacollection :=
  if use_states then Ok (DataCollection aperture_group None values)
  else
    (* values[values == 1] = 0 *)
    let values := (λ v, if decide (v = 1) then 0 else v) <$> values in
    match shd_trans_dict !! aperture_group with
    | None => Raise KeyError
    | Some shd_trans =>
        (* values[values == shd_trans_dict[aperture_group]] = 1 *)
        let values :=
          (λ v, if decide (v = shd_trans) then 1 else v) <$> values in
        Ok (DataCollection aperture_group (Some shd_trans) values)
    end.

(** The dictionary comprehension over [states_schedule.items()] of
    transmittance mode. *)
Definition schedule_datacollections (shd_trans_dict : gmap string Qc)
    (states_schedule : odict.t (list Qc)) : result (odict.t datacollection) :=
  mapM (λ '(k, v),
          collection ← to_datacollection false shd_trans_dict k v;
          Ok (k, collection))
       states_schedule.

(** ** Predicates used in the statements *)

(** Entry by entry, the first array is at most the second. *)
Definition below (a b : np.matrix) : Prop := Forall2 (Forall2 Qcle) a b.

(** What holds of every grid summary once it holds of the entry that is
    merged in and survives a later merge under the same key. *)
Definition grid_summary_ok (grid_id : string) (d : gmap string jvalue) : Prop :=
  (∃ x, d !! "sda" = Some (JNum x)) ∧ d !! "full_id" = Some (JStr grid_id).

(** ** More sample data *)

Module sample_runs.

(** The combinations of [sample.grid] under the default transmittance,
    and the map of multipliers that comes with them. *)
Definition combinations : list (odict.t Qc) * gmap string Qc :=
  from_Ok ([], ∅)
    (grid_combinations sample.results sample.grid
       (light_paths_of sample.grid) (ShdScalar default_shd_trans) false ∅).

(** What the exhaustive search returns for [sample.grid]. *)
Definition searched : odict.t (list Qc) * odict.t (list Z) :=
  from_Ok ([], [])
    (exhaustive_search sample.results sample.grid false combinations.1
       [1; 1; 1]%Z [] []).

(** The trace of that search. *)
Definition trace : search_trace :=
  from_Ok (SearchTrace [] [] [] [])
    (exhaustive_trace sample.results sample.grid false combinations.1
       [1; 1; 1]%Z).

(** What [leed_states_schedule] returns for [sample.results] under the
    default transmittance. *)
Definition schedule : schedule_state :=
  from_Ok ([], [], ∅)
    (leed_states_schedule sample.ext sample.results "*"
       (ShdScalar default_shd_trans) false).

(** The same for a mapping that gives aperture group [A] the multiplier
    one tenth, and the summed arrays of [sample.grid] under either
    schedule. *)
Definition schedule_tenth : schedule_state :=
  from_Ok ([], [], ∅)
    (leed_states_schedule sample.ext sample.results "*"
       (ShdMapping {[ "A" := sample.q 1 10 ]}) false).

Definition arrays_default : np.matrix * np.matrix * np.matrix :=
  from_Ok ([], [], [])
    (sda_arrays sample.results sample.grid false schedule.1.1 schedule.2).

Definition arrays_tenth : np.matrix * np.matrix * np.matrix :=
  from_Ok ([], [], [])
    (sda_arrays sample.results sample.grid false schedule_tenth.1.1
       schedule_tenth.2).

(** The summed arrays of the grid that has only static apertures. *)
Definition arrays_static : np.matrix * np.matrix * np.matrix :=
  from_Ok ([], [], [])
    (sda_arrays sample.boundary_results sample.boundary_grid false [] ∅).

(** A grid without a light path, and a results provider whose filter
    selects it after [sample.grid]. *)
Definition bare_grid : grid_info := GridInfo "bare" "bare" 1 [].

Definition bare_results : AnnualDaylight := {|
  sun_up_hours := sun_up_hours sample.results;
  timestep := 1;
  occ_mask := occ_mask sample.results;
  total_occ := 3;
  _filter_grids := λ _, [sample.grid; bare_grid];
  _get_state_combinations := λ _, [];
  _get_array := _get_array sample.results;
  _array_from_states := λ _ _, [];
  values_to_annual := sample.to_annual
|}.

(** The run of [leed_option_one] on [sample.results] with the face areas
    1 and 3 for the two sensors of its grid. *)
Definition area_run : leed_result :=
  from_Ok (LeedResult ∅ ∅ [] [] [] [] [])
    (leed_option_one sample.ext sample.results "*"
       (ShdScalar default_shd_trans) false None (sample.q 300 1)
       (sample.q 1000 1) (sample.q 250 1) (sample.q 50 1)
       [[1; sample.q 3 1]]).

(** A results provider whose filter selects no grid. *)
Definition empty_results : AnnualDaylight := {|
  sun_up_hours := sun_up_hours sample.results;
  timestep := 1;
  occ_mask := occ_mask sample.results;
  total_occ := 3;
  _filter_grids := λ _, [];
  _get_state_combinations := λ _, [];
  _get_array := _get_array sample.results;
  _array_from_states := λ _ _, [];
  values_to_annual := sample.to_annual
|}.

End sample_runs.

(** * Properties *)

Module odict_facts.
Import odict.

Lemma get_set_eq {V} k (v : V) d : get k (set k v d) = Some v.
Proof.
  induction d as [|[k' v'] d IH]; simpl.
  - by rewrite decide_True.
  - destruct (decide (k' = k)) as [->|Hne]; simpl.
    + by rewrite decide_True.
    + by rewrite decide_False.
Qed.

Lemma get_set_ne {V} k k' (v : V) d : k ≠ k' → get k' (set k v d) = get k' d.
Proof.
  intros Hne. induction d as [|[k0 v0] d IH]; simpl.
  - by rewrite decide_False.
  - destruct (decide (k0 = k)) as [->|Hne0]; simpl.
    + by rewrite !decide_False.
    + destruct (decide (k0 = k')); auto.
Qed.

Lemma append_set_eq {V} k (x v : V) d :
  append k v (set k [x] d) = set k [x; v] d.
Proof.
  induction d as [|[k' l] d IH]; simpl.
  - by rewrite decide_True.
  - destruct (decide (k' = k)) as [->|Hne]; simpl.
    + by rewrite decide_True.
    + by rewrite decide_False, IH.
Qed.
End odict_facts.

Section resolver.
Variable shade_transmittance : shade_input.

Lemma shade_transmittance_foldl light_paths shd_trans_dict :
  shade_transmittance_per_light_path
    light_paths shade_transmittance shd_trans_dict
  = foldl (shade_transmittance_step shade_transmittance)
          ([], shd_trans_dict) light_paths.
Proof.
  unfold shade_transmittance_per_light_path.
  generalize (@nil (string * list Qc), shd_trans_dict) as acc.
  destruct shade_transmittance as [shd_trans|mapping];
    induction light_paths as [|lp lps IH]; intros acc; try done;
    cbn [foldl]; rewrite IH; f_equal;
    unfold shade_transmittance_step, resolved_multiplier.
  - by case_decide.
  - destruct (mapping !! lp); [done|]. by case_decide.
Qed.

Lemma shade_transmittance_fold light_paths shade_transmittances shd_trans_dict light_path :
  odict.get light_path
    (foldl (shade_transmittance_step shade_transmittance)
           (shade_transmittances, shd_trans_dict) light_paths).1 =
    (if decide (light_path ∈ light_paths)
     then Some [1; resolved_multiplier shade_transmittance light_path]
     else odict.get light_path shade_transmittances) ∧
  (foldl (shade_transmittance_step shade_transmittance)
         (shade_transmittances, shd_trans_dict) light_paths).2 !! light_path =
    (if decide (light_path ∈ light_paths)
     then Some (resolved_multiplier shade_transmittance light_path)
     else shd_trans_dict !! light_path).
Proof.
  revert shade_transmittances shd_trans_dict.
  induction light_paths as [|lp lps IH]; intros sts dict.
  - done.
  - cbn [foldl]. unfold shade_transmittance_step at 2 4.
    cbn [add_multiplier]. rewrite odict_facts.append_set_eq.
    specialize (IH (odict.set lp [1; resolved_multiplier shade_transmittance lp]
                      sts)
                   (<[lp := resolved_multiplier shade_transmittance lp]> dict)).
    simpl in IH. destruct IH as [IH1 IH2]. rewrite IH1, IH2.
    destruct (decide (light_path ∈ lps)) as [Hin|Hnin].
    + rewrite !decide_True by (rewrite elem_of_cons; tauto). done.
    + destruct (decide (light_path = lp)) as [->|Hne].
      * rewrite !decide_True by (rewrite elem_of_cons; tauto).
        by rewrite odict_facts.get_set_eq, lookup_insert_eq.
      * rewrite !decide_False by (rewrite elem_of_cons; tauto).
        rewrite odict_facts.get_set_ne, lookup_insert_ne by done. done.
Qed.
End resolver.

Lemma shade_transmittance_per_light_path_fold_get shade_transmittance
    light_paths shd_trans_dict light_path :
  light_path ∈ light_paths →
  ∃ values,
    odict.get light_path
      (shade_transmittance_per_light_path
         light_paths shade_transmittance shd_trans_dict).1 = Some values.
Proof.
  intros Hin. rewrite shade_transmittance_foldl.
  destruct (shade_transmittance_fold shade_transmittance light_paths []
              shd_trans_dict light_path) as [H _].
  rewrite decide_True in H by done. eauto.
Qed.


(** ** The order on array entries and [argmax] *)

Lemma ef_lt_irrefl x : ef_lt x x = false.
Proof.
  destruct x as [|a]; simpl; [done|].
  apply bool_decide_eq_false. apply Qclt_not_eq' || (intros H; by apply Qclt_not_eq in H).
Qed.

Lemma ef_lt_asym x y : ef_lt x y = true → ef_lt y x = false.
Proof.
  destruct x as [|a], y as [|b]; simpl; try done.
  rewrite bool_decide_eq_true, bool_decide_eq_false.
  intros H. by apply Qcle_not_lt, Qclt_le_weak.
Qed.

Lemma ef_le_lt_trans x y z :
  ef_lt y x = false → ef_lt y z = true → ef_lt x z = true.
Proof.
  destruct x as [|a], y as [|b], z as [|c]; simpl; try done.
  rewrite !bool_decide_eq_true, bool_decide_eq_false.
  intros H1 H2. apply Qcnot_lt_le in H1. by eapply Qcle_lt_trans.
Qed.

Lemma ef_le_trans x y z :
  ef_lt y x = false → ef_lt z y = false → ef_lt z x = false.
Proof.
  destruct x as [|a], y as [|b], z as [|c]; simpl; try done.
  rewrite !bool_decide_eq_false.
  intros H1 H2. apply Qcnot_lt_le in H1, H2. apply Qcle_not_lt.
  by eapply Qcle_trans.
Qed.

Lemma argmax_from_first_max pre l best_i best :
  first_max pre best_i → pre !! best_i = Some best →
  first_max (pre ++ l) (argmax_from best_i best (length pre) l).
Proof.
  revert pre best_i best.
  induction l as [|x l IH]; intros pre best_i best Hfm Hbest; simpl.
  - by rewrite app_nil_r.
  - assert (Hlt : (best_i < length pre)%nat) by (by eapply lookup_lt_Some).
    destruct Hfm as (b & Hb & Hmax). rewrite Hbest in Hb. injection Hb as <-.
    replace (pre ++ x :: l) with ((pre ++ [x]) ++ l) by (by rewrite <- app_assoc).
    replace (S (length pre)) with (length (pre ++ [x]))
      by (rewrite length_app; simpl; lia).
    destruct (ef_lt best x) eqn:Hcmp.
    + replace (length pre) with (length pre + 0)%nat at 1 by lia.
      apply IH.
      * exists x. split.
        { rewrite lookup_app_r by lia. by replace (length pre + 0 - length pre)%nat with 0%nat by lia. }
        intros k y Hk. apply lookup_app_Some in Hk as [Hk|[Hge Hk]].
        -- destruct (Hmax k y Hk) as [Hle _]. split.
           ++ eapply ef_le_trans; [exact Hle | by apply ef_lt_asym].
           ++ intros _. by eapply ef_le_lt_trans.
        -- apply list_lookup_singleton_Some in Hk as [Hk ->]. split.
           ++ apply ef_lt_irrefl.
           ++ lia.
      * rewrite lookup_app_r by lia. by replace (length pre + 0 - length pre)%nat with 0%nat by lia.
    + apply IH.
      * exists best. split; [by apply lookup_app_l_Some|].
        intros k y Hk. apply lookup_app_Some in Hk as [Hk|[Hge Hk]].
        -- by apply Hmax.
        -- apply list_lookup_singleton_Some in Hk as [Hk ->]. split; [done|lia].
      * by apply lookup_app_l_Some.
Qed.

Lemma argmax_first_max l r : argmax l = Ok r → first_max l r.
Proof.
  destruct l as [|x l]; simpl; [done|]. intros [= <-].
  apply (argmax_from_first_max [x] l 0 x); [|done].
  exists x. split; [done|]. intros [|k] y Hk; simplify_eq/=.
  split; [apply ef_lt_irrefl | lia].
Qed.

Lemma argmax_is_Ok l : l ≠ [] → ∃ r, argmax l = Ok r.
Proof. destruct l; [done|]. simpl. eauto. Qed.

(** ** The result monad *)

Lemma bind_Ok {A B} (r : result A) (k : A → result B) b :
  r ≫= k = Ok b ↔ ∃ a, r = Ok a ∧ k a = Ok b.
Proof.
  destruct r as [a|e]; simpl; split.
  - eauto.
  - by intros (? & [= ->] & ?).
  - done.
  - by intros (? & [=] & ?).
Qed.

Lemma mapM_Ok_cons {A B} (f : A → result B) x l k :
  mapM f (x :: l) = Ok k ↔ ∃ y k', f x = Ok y ∧ mapM f l = Ok k' ∧ k = y :: k'.
Proof.
  simpl. rewrite bind_Ok. split.
  - intros (y & Hy & H). apply bind_Ok in H as (k' & Hk' & H).
    injection H as <-. eauto.
  - intros (y & k' & Hy & Hk' & ->). exists y. split; [done|].
    apply bind_Ok. eauto.
Qed.

Lemma mapM_Ok_lookup {A B} (f : A → result B) l k i x :
  mapM f l = Ok k → l !! i = Some x → ∃ y, f x = Ok y ∧ k !! i = Some y.
Proof.
  revert k i. induction l as [|x' l IH]; intros k i Hm Hi; [done|].
  apply mapM_Ok_cons in Hm as (y & k' & Hy & Hk' & ->).
  destruct i as [|i]; simplify_eq/=; eauto.
Qed.

Lemma mapM_Ok_length {A B} (f : A → result B) l k :
  mapM f l = Ok k → length k = length l.
Proof.
  revert k. induction l as [|x' l IH]; intros k Hm.
  - by injection Hm as <-.
  - apply mapM_Ok_cons in Hm as (y & k' & Hy & Hk' & ->). simpl. f_equal. eauto.
Qed.

Lemma mapM_Ok_lookup_r {A B} (f : A → result B) l k i y :
  mapM f l = Ok k → k !! i = Some y → ∃ x, l !! i = Some x ∧ f x = Ok y.
Proof.
  intros Hm Hi. pose proof (mapM_Ok_length _ _ _ Hm) as Hlen.
  destruct (lookup_lt_is_Some_2 l i) as [x Hx].
  { rewrite <- Hlen. by eapply lookup_lt_Some. }
  destruct (mapM_Ok_lookup _ _ _ _ _ Hm Hx) as (y' & Hy' & Hky).
  exists x. split; [done|]. congruence.
Qed.

(** ** Columns, masks and ranks *)

Lemma select_lookup {A} (mask : list Z) (row : list A) j m :
  mask !! j = Some m → np.truthy m →
  np.select mask row !! occ_rank mask j = row !! j.
Proof.
  unfold np.select, occ_rank.
  revert row j. induction mask as [|m0 mask IH]; intros row j Hj Hm; [done|].
  destruct row as [|x row]; [by destruct j|].
  destruct j as [|j]; simpl in *.
  - injection Hj as ->. rewrite filter_cons_True by done. done.
  - rewrite !filter_cons. simpl. destruct (decide (np.truthy m0)); simpl; eauto.
Qed.

Lemma column_lookup {A} (a : list (list A)) j i :
  Forall (λ row, (j < length row)%nat) a →
  np.column j a !! i = np.entry a i j.
Proof.
  unfold np.column, np.entry. intros Hall. revert i.
  induction Hall as [|row a Hrow _ IH]; intros i; [done|].
  apply lookup_lt_is_Some_2 in Hrow as [x Hx].
  simpl. rewrite Hx. destruct i as [|i]; simpl; [done|]. apply IH.
Qed.

Lemma column_mark_invalid j a :
  np.column j (mark_invalid a) =
  (λ p, if decide (two_percent < p) then NegInf else Fin p) <$> np.column j a.
Proof.
  unfold np.column, mark_invalid. induction a as [|row a IH]; [done|].
  simpl. rewrite list_lookup_fmap. destruct (row !! j); simpl; [f_equal|]; apply IH.
Qed.

Lemma column_select {A} (a : list (list A)) mask j m :
  mask !! j = Some m → np.truthy m →
  np.column (occ_rank mask j) (np.select mask <$> a) = np.column j a.
Proof.
  intros Hj Hm. unfold np.column. induction a as [|row a IH]; [done|].
  simpl. rewrite (select_lookup _ _ _ _ Hj Hm).
  destruct (row !! j); simpl; [f_equal|]; apply IH.
Qed.

Lemma columns_lookup {A} (a : list (list A)) j :
  (j < np.ncols a)%nat → np.columns a !! j = Some (np.column j a).
Proof.
  intros Hj. unfold np.columns. rewrite list_lookup_fmap.
  by rewrite lookup_seq_lt.
Qed.

Lemma ncols_mark_invalid a : np.ncols (mark_invalid a) = np.ncols a.
Proof. destruct a; simpl; [done|]. by rewrite length_map. Qed.

(** ** One pass of the exhaustive search *)

Section exhaustive.
Context (results : AnnualDaylight) (grid_info : grid_info)
        (use_states : bool) (combinations : list (odict.t Qc))
        (occ_mask : list Z) (trace : search_trace).
Hypothesis Htrace :
  exhaustive_trace results grid_info use_states combinations occ_mask
  = Ok trace.

Let percentages := tr_percentages trace.
Let mark := λ p : Qc, if decide (two_percent < p) then NegInf else Fin p.

Lemma exhaustive_trace_Ok :
  array_list_combinations results grid_info use_states combinations
    = Ok percentages ∧
  Forall (λ row, length row = np.ncols percentages) percentages ∧
  failing_hoys (sun_up_hours results) (grid_comply (mark_invalid percentages))
    = Ok (tr_failing trace) ∧
  np.ncols percentages = length occ_mask ∧
  percentages ≠ [] ∧
  mapM argmax (np.columns (np.select occ_mask <$> mark_invalid percentages))
    = Ok (tr_max_indices trace) ∧
  mapM (pick combinations) (tr_max_indices trace) = Ok (tr_selected trace).
Proof.
  unfold exhaustive_trace in Htrace.
  apply bind_Ok in Htrace as (pcts & Hpcts & H).
  apply bind_Ok in H as (pcts' & Harr & H).
  unfold np.array2d in Harr. case_decide as Hrect; [|done].
  injection Harr as <-.
  apply bind_Ok in H as (failing & Hfail & H).
  apply bind_Ok in H as (filtered & Hfilt & H).
  apply bind_Ok in H as (max_indices & Hmax & H).
  apply bind_Ok in H as (selected & Hsel & H).
  injection H as <-. subst percentages. simpl.
  unfold filter_array2d in Hfilt.
  destruct (mark_invalid pcts) as [|row0 rest] eqn:Hmark; [done|].
  case_decide as Hlen; [|done]. injection Hfilt as <-.
  assert (Hnc : np.ncols pcts = length occ_mask).
  { rewrite <- (ncols_mark_invalid pcts), Hmark. simpl. done. }
  split_and!; try done.
  intros ->. done.
Qed.

Lemma rectangular_entries j :
  (j < length occ_mask)%nat →
  Forall (λ row : list Qc, (j < length row)%nat) percentages.
Proof.
  intros Hj. destruct exhaustive_trace_Ok as (_ & Hrect & _ & Hnc & _).
  eapply list.Forall_impl; [exact Hrect|]. simpl. intros row ->. lia.
Qed.

Lemma marked_column_lookup j i :
  (j < length occ_mask)%nat →
  np.column j (mark_invalid percentages) !! i
  = mark <$> np.entry percentages i j.
Proof.
  intros Hj. rewrite column_mark_invalid, list_lookup_fmap.
  by rewrite column_lookup by by apply rectangular_entries.
Qed.

(** The index chosen for an occupied hour is the first maximum of that
    hour's column of [array_combinations]. *)
Lemma selected_first_max j m :
  occ_mask !! j = Some m → np.truthy m →
  ∃ idx combination,
    tr_max_indices trace !! occ_rank occ_mask j = Some idx ∧
    combinations !! idx = Some combination ∧
    tr_selected trace !! occ_rank occ_mask j = Some combination ∧
    first_max (np.column j (mark_invalid percentages)) idx.
Proof.
  intros Hj Hm.
  destruct exhaustive_trace_Ok
    as (_ & Hrect & _ & Hnc & Hne & Hmax & Hsel).
  assert (Hlt : (j < length occ_mask)%nat) by by eapply lookup_lt_Some.
  assert (Hrank : (occ_rank occ_mask j
                   < np.ncols (np.select occ_mask <$> mark_invalid percentages))%nat).
  { destruct percentages as [|row0 rest] eqn:Hp; [done|]. simpl.
    eapply lookup_lt_is_Some_1.
    rewrite (select_lookup _ _ _ _ Hj Hm).
    apply lookup_lt_is_Some_2. rewrite length_map.
    simpl in Hnc. lia. }
  apply columns_lookup in Hrank.
  rewrite (column_select _ _ _ _ Hj Hm) in Hrank.
  destruct (mapM_Ok_lookup _ _ _ _ _ Hmax Hrank) as (idx & Harg & Hidx).
  destruct (mapM_Ok_lookup _ _ _ _ _ Hsel Hidx) as (c & Hpick & Hc).
  unfold pick in Hpick.
  destruct (combinations !! idx) as [c'|] eqn:Hcomb; [|done].
  injection Hpick as ->.
  exists idx, c. split_and!; try done. by apply argmax_first_max.
Qed.

(** If some combination is valid at an occupied hour, the chosen one is
    valid, maximal among the valid ones, and the first such. *)
Lemma selected_valid_max j m i p :
  occ_mask !! j = Some m → np.truthy m →
  np.entry percentages i j = Some p → p ≤ two_percent →
  ∃ idx combination q,
    tr_max_indices trace !! occ_rank occ_mask j = Some idx ∧
    combinations !! idx = Some combination ∧
    tr_selected trace !! occ_rank occ_mask j = Some combination ∧
    np.entry percentages idx j = Some q ∧
    q ≤ two_percent ∧ p ≤ q ∧ (p = q → (idx ≤ i)%nat).
Proof.
  intros Hj Hm Hp Hvalid.
  destruct (selected_first_max j m Hj Hm)
    as (idx & c & Hidx & Hc & Hsel & x & Hx & Hmaxi).
  assert (Hlt : (j < length occ_mask)%nat) by by eapply lookup_lt_Some.
  rewrite marked_column_lookup in Hx by done.
  destruct (np.entry percentages idx j) as [q|] eqn:Hq; [|done].
  injection Hx as <-.
  destruct (Hmaxi i (mark p)) as [Hle Hfirst].
  { rewrite marked_column_lookup by done. by rewrite Hp. }
  unfold mark in Hle, Hfirst.
  rewrite (decide_False (P := two_percent < p)) in Hle, Hfirst
    by by apply Qcle_not_lt.
  destruct (decide (two_percent < q)) as [Hq2|Hq2]; [done|].
  apply Qcnot_lt_le in Hq2. simpl in Hle, Hfirst.
  apply bool_decide_eq_false, Qcnot_lt_le in Hle.
  exists idx, c, q. split_and!; try done.
  intros ->. destruct (decide (idx ≤ i)%nat) as [|Hgt]; [done|].
  assert (Hi : (i < idx)%nat) by lia. apply Hfirst in Hi.
  apply bool_decide_eq_true in Hi. by apply Qclt_not_eq in Hi.
Qed.

(** When every combination is invalid at an occupied hour, index [0] is
    chosen. *)
Lemma selected_when_none_valid j m :
  occ_mask !! j = Some m → np.truthy m →
  (∀ i p, np.entry percentages i j = Some p → two_percent < p) →
  tr_max_indices trace !! occ_rank occ_mask j = Some 0%nat ∧
  tr_selected trace !! occ_rank occ_mask j = combinations !! 0%nat.
Proof.
  intros Hj Hm Hall.
  destruct (selected_first_max j m Hj Hm)
    as (idx & c & Hidx & Hc & Hsel & x & Hx & Hmaxi).
  assert (Hlt : (j < length occ_mask)%nat) by by eapply lookup_lt_Some.
  assert (Hneg : ∀ k y, np.column j (mark_invalid percentages) !! k = Some y →
                        y = NegInf).
  { intros k y. rewrite marked_column_lookup by done.
    destruct (np.entry percentages k j) as [p|] eqn:Hp; [|done].
    intros [= <-]. unfold mark. by rewrite decide_True by eauto. }
  destruct idx as [|idx]; [by rewrite Hc|].
  exfalso.
  destruct (lookup_lt_is_Some_2 (np.column j (mark_invalid percentages)) 0)
    as [y Hy].
  { apply lookup_lt_Some in Hx. lia. }
  destruct (Hmaxi 0%nat y Hy) as [_ Hfirst].
  rewrite (Hneg _ _ Hy), (Hneg _ _ Hx) in Hfirst.
  specialize (Hfirst ltac:(lia)). done.
Qed.

End exhaustive.

Lemma forallb_false_lookup {A} (f : A → bool) l :
  forallb f l = false → ∃ i x, l !! i = Some x ∧ f x = false.
Proof.
  induction l as [|x l IH]; simpl; [done|].
  destruct (f x) eqn:Hx; simpl.
  - intros (i & y & Hi & Hy)%IH. by exists (S i), y.
  - intros _. by exists 0%nat, x.
Qed.

Lemma forallb_true_lookup {A} (f : A → bool) l i x :
  forallb f l = true → l !! i = Some x → f x = true.
Proof.
  rewrite forallb_forall. intros H Hi. apply H.
  apply list_elem_of_In. by eapply list_elem_of_lookup_2.
Qed.

Section record.
Context (results : AnnualDaylight) (grid_info : grid_info)
        (use_states : bool) (combinations : list (odict.t Qc))
        (occ_mask : list Z) (trace : search_trace).
Hypothesis Htrace :
  exhaustive_trace results grid_info use_states combinations occ_mask
  = Ok trace.

(** A percentage of the trace is the overlit fraction of the matching
    combination's array. *)
Lemma percentage_of_combination idx combination :
  combinations !! idx = Some combination →
  ∃ array,
    combination_array results grid_info use_states combination = Ok array ∧
    ∀ j q, np.entry (tr_percentages trace) idx j = Some q →
           q = overlit_fraction (gi_count grid_info) (np.column j array).
Proof.
  intros Hc.
  destruct (exhaustive_trace_Ok _ _ _ _ _ _ Htrace) as (Hpcts & _).
  destruct (mapM_Ok_lookup _ _ _ _ _ Hpcts Hc) as (row & Hrow & Hidx).
  apply bind_Ok in Hrow as (array & Harr & [= <-]).
  exists array. split; [done|]. intros j q. unfold np.entry.
  rewrite Hidx. simpl. unfold combination_percentage, np.columns.
  rewrite !list_lookup_fmap.
  destruct (seq 0 (np.ncols array) !! j) as [j'|] eqn:Hj; [|done].
  apply lookup_seq in Hj as [-> _]. simpl. by intros [= <-].
Qed.


(** The hours of the record are the hours at which every combination is
    invalid. *)
Lemma grid_comply_spec j :
  j ∈ grid_comply (mark_invalid (tr_percentages trace)) ↔
  (j < length occ_mask)%nat ∧
  ∀ i p, np.entry (tr_percentages trace) i j = Some p → two_percent < p.
Proof.
  destruct (exhaustive_trace_Ok _ _ _ _ _ _ Htrace)
    as (_ & _ & _ & Hnc & _).
  unfold grid_comply. rewrite list_elem_of_filter, elem_of_seq.
  rewrite ncols_mark_invalid, Hnc. split.
  - intros [Hall [_ Hj]]. split; [simpl in Hj; lia|].
    intros i p Hp.
    assert (Hm : np.column j (mark_invalid (tr_percentages trace)) !! i
                 = Some (if decide (two_percent < p) then NegInf else Fin p)).
    { rewrite (marked_column_lookup _ _ _ _ _ _ Htrace) by (simpl in Hj; lia).
      by rewrite Hp. }
    apply (forallb_true_lookup _ _ _ _ Hall) in Hm.
    by destruct (decide (two_percent < p)).
  - intros [Hj Hall]. split; [|lia].
    destruct (forallb is_neg_inf _) eqn:Hf; [done|].
    apply forallb_false_lookup in Hf as (i & x & Hx & Hfin).
    rewrite (marked_column_lookup _ _ _ _ _ _ Htrace) in Hx by done.
    destruct (np.entry (tr_percentages trace) i j) as [p|] eqn:Hp; [|done].
    injection Hx as <-. by rewrite decide_True in Hfin by eauto.
Qed.

Lemma failing_spec h :
  h ∈ tr_failing trace ↔
  ∃ j hoy, j ∈ grid_comply (mark_invalid (tr_percentages trace)) ∧
           sun_up_hours results !! j = Some hoy ∧ int_of hoy = h.
Proof.
  destruct (exhaustive_trace_Ok _ _ _ _ _ _ Htrace)
    as (_ & _ & Hfail & _).
  unfold failing_hoys in Hfail. split.
  - intros (k & Hk)%list_elem_of_lookup_1.
    destruct (mapM_Ok_lookup_r _ _ _ _ _ Hfail Hk) as (j & Hj & Hhoy).
    destruct (sun_up_hours results !! j) as [hoy|] eqn:Hs; [|done].
    injection Hhoy as <-. exists j, hoy. split_and!; try done.
    by eapply list_elem_of_lookup_2.
  - intros (j & hoy & (k & Hk)%list_elem_of_lookup_1 & Hs & <-).
    destruct (mapM_Ok_lookup _ _ _ _ _ Hfail Hk) as (h & Hh & Hfk).
    rewrite Hs in Hh. injection Hh as <-.
    by eapply list_elem_of_lookup_2.
Qed.
End record.

(** ** The cross-grid merge *)

(** Order goals on [Qc] are goals on the underlying [Q]. *)
Ltac qc_lra :=
  try apply Qc_is_canon;
  unfold Qcle, Qclt, Qc_of_Z, inject_Z in *; simpl in *; lra.

Lemma minimum_comm x y : np.minimum x y = np.minimum y x.
Proof.
  unfold np.minimum.
  destruct (decide (x ≤ y)) as [Hxy|Hxy], (decide (y ≤ x)) as [Hyx|Hyx];
    try done.
  - by apply Qcle_antisym.
  - destruct (Qc_le_total x y); contradiction.
Qed.

Lemma minimum_assoc x y z :
  np.minimum (np.minimum x y) z = np.minimum x (np.minimum y z).
Proof. unfold np.minimum. repeat case_decide; try done; qc_lra. Qed.

Lemma Qc_1_neq_0 : (1 : Qc) ≠ 0.
Proof. intros H. by apply (f_equal this) in H. Qed.

Lemma logical_or_comm x y : np.logical_or x y = np.logical_or y x.
Proof. unfold np.logical_or. repeat case_decide; tauto. Qed.

Lemma logical_or_nonzero x y : np.logical_or x y ≠ 0 ↔ x ≠ 0 ∨ y ≠ 0.
Proof.
  unfold np.logical_or. case_decide; [|tauto].
  split; [done|]. intros _. apply Qc_1_neq_0.
Qed.

Lemma logical_or_assoc x y z :
  np.logical_or (np.logical_or x y) z = np.logical_or x (np.logical_or y z).
Proof.
  unfold np.logical_or at 1 3.
  repeat case_decide; try done; rewrite logical_or_nonzero in *; tauto.
Qed.

Lemma zip_with_comm_eq {A B} (f : A → A → B) :
  (∀ x y, f x y = f y x) → ∀ l k, zip_with f l k = zip_with f k l.
Proof.
  intros Hf l. induction l as [|x l IH]; intros [|y k]; simpl; try done.
  by rewrite Hf, IH.
Qed.

Lemma zip_with_assoc_eq {A} (f : A → A → A) :
  (∀ x y z, f (f x y) z = f x (f y z)) →
  ∀ l k m, zip_with f (zip_with f l k) m = zip_with f l (zip_with f k m).
Proof.
  intros Hf l. induction l as [|x l IH]; intros [|y k] [|z m]; simpl; try done.
  by rewrite Hf, IH.
Qed.

Lemma merge_schedules_comm use_states a b :
  merge_schedules use_states a b = merge_schedules use_states b a.
Proof.
  destruct use_states; simpl;
    auto using zip_with_comm_eq, logical_or_comm, minimum_comm.
Qed.

Lemma merge_schedules_assoc use_states a b c :
  merge_schedules use_states (merge_schedules use_states a b) c
  = merge_schedules use_states a (merge_schedules use_states b c).
Proof.
  destruct use_states; simpl;
    auto using zip_with_assoc_eq, logical_or_assoc, minimum_assoc.
Qed.

Lemma get_None_not_key {V} key (d : odict.t V) :
  odict.get key d = None ↔ key ∉ odict.keys d.
Proof.
  unfold odict.keys. induction d as [|[k v] d IH]; simpl.
  - split; [intros _; apply not_elem_of_nil | done].
  - rewrite not_elem_of_cons. destruct (decide (k = key)) as [->|Hne].
    + split; [done | tauto].
    + rewrite IH. split; [intros ?; split; [congruence|done] | tauto].
Qed.

Lemma merge_grid_schedule_get use_states states_schedule grid_states_schedule key :
  NoDup (odict.keys grid_states_schedule) →
  odict.get key
    (merge_grid_schedule use_states states_schedule grid_states_schedule)
  = match odict.get key grid_states_schedule with
    | None => odict.get key states_schedule
    | Some value =>
        Some (match odict.get key states_schedule with
              | None => value
              | Some current => merge_schedules use_states current value
              end)
    end.
Proof.
  unfold merge_grid_schedule. revert states_schedule.
  induction grid_states_schedule as [|[k v] g IH]; intros ss Hnd; [done|].
  apply list.NoDup_cons in Hnd as [Hk Hnd]. simpl.
  rewrite IH by done. destruct (decide (k = key)) as [->|Hne].
  - simpl in Hk. apply get_None_not_key in Hk. rewrite Hk.
    destruct (odict.get key ss); by rewrite odict_facts.get_set_eq.
  - destruct (odict.get k ss); by rewrite odict_facts.get_set_ne.
Qed.

(** C7.  In state mode (logical or) and in transmittance mode (minimum)
    alike, the merge of two schedules of one aperture group is commutative
    and associative, and folding the schedules of two grids into the
    building-wide dictionary gives every aperture group the same schedule
    whichever grid is folded in first. *)
Theorem cross_grid_merge_assoc_comm (use_states : bool) :
  (∀ a b : list Qc,
     merge_schedules use_states a b = merge_schedules use_states b a) ∧
  (∀ a b c : list Qc,
     merge_schedules use_states (merge_schedules use_states a b) c
     = merge_schedules use_states a (merge_schedules use_states b c)) ∧
  (∀ (states_schedule grid_a grid_b : odict.t (list Qc)) (key : string),
     NoDup (odict.keys grid_a) → NoDup (odict.keys grid_b) →
     odict.get key
       (merge_grid_schedule use_states
          (merge_grid_schedule use_states states_schedule grid_a) grid_b)
     = odict.get key
         (merge_grid_schedule use_states
            (merge_grid_schedule use_states states_schedule grid_b) grid_a)).
Proof.
  split_and!.
  - apply merge_schedules_comm.
  - apply merge_schedules_assoc.
  - intros ss ga gb key Ha Hb.
    rewrite !merge_grid_schedule_get by done.
    destruct (odict.get key ga) as [a|], (odict.get key gb) as [b|],
      (odict.get key ss) as [s|]; try done; f_equal.
    + rewrite !merge_schedules_assoc. f_equal. apply merge_schedules_comm.
    + apply merge_schedules_comm.
Qed.

(** ** Credits *)

Lemma mapM_is_Ok {A B} (f : A → result B) l :
  (∀ x, x ∈ l → ∃ y, f x = Ok y) → ∃ k, mapM f l = Ok k.
Proof.
  induction l as [|x l IH]; intros Hall.
  - by exists [].
  - destruct (Hall x) as [y Hy]; [by left|].
    destruct IH as [k Hk]; [intros z Hz; apply Hall; by right|].
    exists (y :: k). apply mapM_Ok_cons. eauto.
Qed.




(** C3.  With a non-empty compliance-failure record the credit block
    returns normally, whatever the sDA values of the summaries: the credit
    is 0 and the note lists the names of the recorded grids; and every run
    of [leed_option_one] that ends with that record carries this credit and
    this note. *)
Theorem noncompliance_forces_zero_credit
    (fail_to_comply : odict.t (list Z)) (summary : gmap string jvalue)
    (summary_grid : gmap string (gmap string jvalue)) :
  fail_to_comply ≠ [] →
  assign_credits fail_to_comply summary summary_grid
    = Ok (<["note" :=
              JStr ("0 credits have been awarded. The following sensor grids "
                    +:+ "have at least one hour where 2% of the floor area "
                    +:+ "receives direct illuminance of 1000 lux or more: "
                    +:+ join_comma (odict.keys fail_to_comply) +:+ ".")]>
            (<["credits" := JInt 0]> summary)) ∧
  ∀ ext results grids_filter shade_transmittance use_states states_schedule
    threshold direct_threshold occ_hours target_time model_areas r,
    leed_option_one ext results grids_filter shade_transmittance use_states
      states_schedule threshold direct_threshold occ_hours target_time
      model_areas = Ok r →
    lr_fail_to_comply r = fail_to_comply →
    lr_summary r !! "credits" = Some (JInt 0) ∧
    lr_summary r !! "note" = Some (JStr (fail_note fail_to_comply)).
Proof.
  intros Hne. split.
  - destruct fail_to_comply; [done|]. reflexivity.
  - intros ext results grids_filter shade_transmittance use_states
      states_schedule threshold direct_threshold occ_hours target_time
      model_areas r Hrun Hrec.
    unfold leed_option_one in Hrun.
    apply bind_Ok in Hrun as ([[sched ftc] shd] & _ & Hrun).
    apply bind_Ok in Hrun as (ase & _ & Hrun).
    apply bind_Ok in Hrun as (sda & _ & Hrun).
    apply bind_Ok in Hrun as ([summary0 summary_grid0] & _ & Hrun).
    apply bind_Ok in Hrun as (summary1 & Hcred & Hrun).
    injection Hrun as <-. simpl in *. subst ftc.
    destruct fail_to_comply as [|entry rest]; [done|].
    injection Hcred as <-.
    rewrite lookup_insert_eq, lookup_insert_ne, lookup_insert_eq by done.
    done.
Qed.

(** ** Summaries *)




Lemma in_fields_cases k (fields : list string) :
  k ∈ fields → Exists (λ f, k = f) fields.
Proof. intros Hk. apply list.Exists_exists. by exists k. Qed.

Ltac field_cases Hk :=
  apply in_fields_cases in Hk;
  repeat (apply Exists_cons in Hk as [->|Hk]); [..|by apply Exists_nil in Hk].




(** ** Building the grid's schedule *)

Lemma append_get {V} k k' (v : V) d :
  odict.get k' (odict.append k v d)
  = if decide (k = k') then Some (default [] (odict.get k' d) ++ [v])
    else odict.get k' d.
Proof.
  induction d as [|[k0 l] d IH]; simpl.
  - by destruct (decide (k = k')).
  - destruct (decide (k0 = k)) as [->|Hne0]; simpl.
    + by destruct (decide (k = k')).
    + rewrite IH. destruct (decide (k0 = k')) as [->|]; [|done].
      by rewrite decide_False.
Qed.

Lemma extend_app entry vs ws : extend (extend entry vs) ws = extend entry (vs ++ ws).
Proof.
  destruct vs as [|v vs]; [done|]. destruct ws as [|w ws]; simpl.
  - by rewrite app_nil_r.
  - by rewrite <- app_assoc.
Qed.

Lemma values_for_cons light_path k v combination :
  values_for light_path ((k, v) :: combination)
  = if decide (k = light_path) then v :: values_for light_path combination
    else values_for light_path combination.
Proof.
  unfold values_for. rewrite (filter_cons _ (k, v)). cbn [fst].
  by destruct (decide (k = light_path)).
Qed.

Lemma merge_one_get light_path combination schedule :
  light_path ≠ static_apertures →
  odict.get light_path
    (foldl (λ schedule '(light_path, value),
              if decide (light_path ≠ static_apertures)
              then odict.append light_path value schedule
              else schedule)
           schedule combination)
  = extend (odict.get light_path schedule) (values_for light_path combination).
Proof.
  intros Hlp. revert schedule.
  induction combination as [|[k v] c IH]; intros schedule; [done|].
  cbn [foldl]. rewrite IH, values_for_cons.
  destruct (decide (k = light_path)) as [->|Hne].
  - rewrite decide_True by done. rewrite append_get, decide_True by done.
    change (v :: values_for light_path c) with ([v] ++ values_for light_path c).
    by rewrite <- extend_app.
  - case_decide; [|done]. by rewrite append_get, decide_False.
Qed.

Lemma merge_combinations_get light_path selected schedule :
  light_path ≠ static_apertures →
  odict.get light_path (merge_combinations selected schedule)
  = extend (odict.get light_path schedule)
           (selected ≫= values_for light_path).
Proof.
  intros Hlp. unfold merge_combinations. revert schedule.
  induction selected as [|c selected IH]; intros schedule; [done|].
  cbn [foldl]. rewrite IH, merge_one_get by done.
  by rewrite extend_app.
Qed.

Lemma bind_singletons_lookup {A B} (f : A → list B) l k x y :
  Forall (λ x, ∃ y, f x = [y]) l →
  l !! k = Some x → f x = [y] → (l ≫= f) !! k = Some y.
Proof.
  intros Hall. revert k. induction Hall as [|x0 l [y0 Hy0] _ IH]; intros k Hk Hx.
  - done.
  - change ((x0 :: l) ≫= f) with (f x0 ++ (l ≫= f)). rewrite Hy0.
    destruct k as [|k]; simpl in *.
    + injection Hk as ->. congruence.
    + eauto.
Qed.

Lemma values_for_absent light_path (combination : odict.t Qc) :
  light_path ∉ odict.keys combination → values_for light_path combination = [].
Proof.
  unfold odict.keys. induction combination as [|[k w] c IH]; [done|].
  rewrite values_for_cons. simpl. rewrite not_elem_of_cons. intros [Hne Hnin].
  rewrite decide_False by done. by apply IH.
Qed.

Lemma values_for_unique light_path (combination : odict.t Qc) v :
  NoDup (odict.keys combination) →
  odict.get light_path combination = Some v →
  values_for light_path combination = [v].
Proof.
  unfold odict.keys.
  induction combination as [|[k w] c IH]; intros Hnd Hget; [done|].
  apply list.NoDup_cons in Hnd as [Hk Hnd]. simpl in Hget, Hk.
  rewrite values_for_cons. destruct (decide (k = light_path)) as [->|Hne].
  - injection Hget as ->. f_equal. by apply values_for_absent.
  - by apply IH.
Qed.

(** ** The combinations of transmittance mode *)

Lemma product_length {A} (pools : list (list A)) v :
  v ∈ product pools → length v = length pools.
Proof.
  revert v. induction pools as [|pool pools IH]; intros v; simpl.
  - by intros ->%list_elem_of_singleton.
  - intros (x & (w & -> & Hw)%list_elem_of_fmap & Hx)%list_elem_of_bind.
    simpl. f_equal. eauto.
Qed.

Lemma product_head (pools : list (list Qc)) :
  Forall (λ pool, ∃ m, pool = [1; m]) pools →
  product pools !! 0%nat = Some ((λ _, 1) <$> pools).
Proof.
  induction 1 as [|pool pools [m ->] _ IH]; [done|].
  simpl. destruct (product pools) as [|v vs]; [done|].
  simpl in *. by injection IH as ->.
Qed.

Lemma set_keys {V} k (v : V) d :
  odict.keys (odict.set k v d)
  = if decide (k ∈ odict.keys d) then odict.keys d else odict.keys d ++ [k].
Proof.
  unfold odict.keys. induction d as [|[k' v'] d IH]; [done|].
  cbn [odict.set]. destruct (decide (k' = k)) as [->|Hne].
  - rewrite !fmap_cons. cbn [fst]. by rewrite decide_True by (by left).
  - rewrite !fmap_cons, IH. cbn [fst]. destruct (decide (k ∈ d.*1)).
    + by rewrite decide_True by (by right).
    + rewrite decide_False; [done|]. rewrite elem_of_cons. intros [->|]; done.
Qed.

Lemma set_keys_NoDup {V} k (v : V) d :
  NoDup (odict.keys d) → NoDup (odict.keys (odict.set k v d)).
Proof.
  intros Hnd. rewrite set_keys. case_decide; [done|].
  apply list.NoDup_app. split_and!; [done| |apply list.NoDup_singleton].
  intros x Hx ->%list_elem_of_singleton. done.
Qed.

Lemma set_Forall_values {V} (P : V → Prop) k v d :
  Forall P (odict.values d) → P v → Forall P (odict.values (odict.set k v d)).
Proof.
  unfold odict.values. intros Hall Hv.
  induction d as [|[k' v'] d IH]; simpl.
  - by constructor.
  - apply list.Forall_cons in Hall as [Hv' Hall].
    destruct (decide (k' = k)); simpl; constructor; auto.
Qed.

Lemma shade_transmittance_fold_shape shade_transmittance light_paths
    shade_transmittances shd_trans_dict :
  NoDup (odict.keys shade_transmittances) →
  Forall (λ pool, ∃ m, pool = [1; m]) (odict.values shade_transmittances) →
  NoDup (odict.keys
           (foldl (shade_transmittance_step shade_transmittance)
                  (shade_transmittances, shd_trans_dict) light_paths).1) ∧
  Forall (λ pool, ∃ m, pool = [1; m])
    (odict.values
       (foldl (shade_transmittance_step shade_transmittance)
              (shade_transmittances, shd_trans_dict) light_paths).1).
Proof.
  revert shade_transmittances shd_trans_dict.
  induction light_paths as [|lp lps IH]; intros sts dict Hnd Hall; [done|].
  cbn [foldl]. unfold shade_transmittance_step at 2 4.
  cbn [add_multiplier]. rewrite odict_facts.append_set_eq. apply IH.
  - by apply set_keys_NoDup.
  - apply set_Forall_values; [done | by eexists].
Qed.

Lemma get_zip_ones (shade_transmittances : odict.t (list Qc)) light_path :
  light_path ∈ odict.keys shade_transmittances →
  odict.get light_path
    (zip (odict.keys shade_transmittances)
         ((λ _, 1) <$> odict.values shade_transmittances))
  = Some 1.
Proof.
  unfold odict.keys, odict.values.
  induction shade_transmittances as [|[k v] d IH]; simpl.
  - by intros ?%elem_of_nil.
  - intros [->|Hin]%elem_of_cons.
    + by rewrite decide_True.
    + destruct (decide (k = light_path)); [done|]. by apply IH.
Qed.

(** In transmittance mode the combinations are dictionaries over one list
    of distinct keys, which holds every light path of the grid, and the
    first combination leaves every light path unshaded. *)
Lemma transmittance_combinations_shape light_paths shade_transmittance
    shd_trans_dict combinations :
  transmittance_combinations
    (shade_transmittance_per_light_path
       light_paths shade_transmittance shd_trans_dict).1
  = Ok combinations →
  ∃ keys,
    NoDup keys ∧
    (∀ light_path, light_path ∈ light_paths → light_path ∈ keys) ∧
    (∀ combination, combination ∈ combinations →
                    odict.keys combination = keys) ∧
    ∃ first,
      combinations !! 0%nat = Some first ∧
      ∀ light_path, light_path ∈ keys → odict.get light_path first = Some 1.
Proof.
  rewrite shade_transmittance_foldl.
  destruct (shade_transmittance_fold_shape shade_transmittance light_paths []
              shd_trans_dict) as [Hnd Hpools];
    [apply NoDup_nil_2 | apply Forall_nil_2 |].
  pose proof (λ lp, proj1 (shade_transmittance_fold shade_transmittance
                             light_paths [] shd_trans_dict lp)) as Hget.
  set (sts := (foldl (shade_transmittance_step shade_transmittance)
                     ([], shd_trans_dict) light_paths).1) in *.
  intros Hcomb. exists (odict.keys sts).
  unfold transmittance_combinations in Hcomb.
  assert (Hc : combinations
               = (λ v, zip (odict.keys sts) v) <$> product (odict.values sts)).
  { destruct sts; [done|]. by injection Hcomb as <-. }
  clear Hcomb. subst combinations. split_and!.
  - done.
  - intros lp Hin. specialize (Hget lp). rewrite decide_True in Hget by done.
    destruct (decide (lp ∈ odict.keys sts)) as [|Hnin]; [done|].
    apply get_None_not_key in Hnin.
    assert (Hsome : is_Some (odict.get lp sts)) by (eexists; exact Hget).
    rewrite Hnin in Hsome. by destruct Hsome.
  - intros c (v & -> & Hv)%list_elem_of_fmap. apply fst_zip.
    apply product_length in Hv. unfold odict.keys, odict.values in *.
    rewrite Hv, !length_fmap. done.
  - exists (zip (odict.keys sts) ((λ _, 1) <$> odict.values sts)). split.
    + rewrite list_lookup_fmap, product_head by done. done.
    + apply get_zip_ones.
Qed.

(** ** A grid with at most six light paths *)

Lemma grid_step_exhaustive ext results shade_transmittance use_states occ_mask
    states_schedule fail_to_comply shd_trans_dict grid_info acc' :
  (length (light_paths_of grid_info) ≤ 6)%nat →
  grid_step ext results shade_transmittance use_states occ_mask
    (states_schedule, fail_to_comply, shd_trans_dict) grid_info = Ok acc' →
  ∃ combinations shd_trans_dict' trace,
    grid_combinations results grid_info (light_paths_of grid_info)
      shade_transmittance use_states
      (shade_transmittance_per_light_path
         (light_paths_of grid_info) shade_transmittance shd_trans_dict).2
    = Ok (combinations, shd_trans_dict') ∧
    exhaustive_trace results grid_info use_states combinations occ_mask
    = Ok trace ∧
    acc' = (merge_grid_schedule use_states states_schedule
              (merge_combinations (tr_selected trace) []),
            match tr_failing trace with
            | [] => fail_to_comply
            | hoys => odict.set (gi_name grid_info) hoys fail_to_comply
            end,
            shd_trans_dict').
Proof.
  intros Hlen Hstep. unfold grid_step in Hstep.
  destruct (shade_transmittance_per_light_path _ _ _) as [sts shd1].
  rewrite decide_False in Hstep by lia.
  apply bind_Ok in Hstep as ([[gss ftc] shd2] & Hbranch & Hstep).
  injection Hstep as <-.
  apply bind_Ok in Hbranch as ([combinations shd3] & Hcomb & Hbranch).
  apply bind_Ok in Hbranch as ([gss' ftc'] & Hsearch & Hbranch).
  injection Hbranch as <- <- <-.
  unfold exhaustive_search in Hsearch.
  apply bind_Ok in Hsearch as (trace & Htrace & Hsearch).
  injection Hsearch as <- <-.
  exists combinations, shd3, trace. done.
Qed.

Lemma selected_in_combinations results grid_info use_states combinations
    occ_mask trace :
  exhaustive_trace results grid_info use_states combinations occ_mask
  = Ok trace →
  ∀ combination, combination ∈ tr_selected trace → combination ∈ combinations.
Proof.
  intros Htrace c (k & Hk)%list_elem_of_lookup_1.
  destruct (exhaustive_trace_Ok _ _ _ _ _ _ Htrace) as (_&_&_&_&_&_& Hsel).
  destruct (mapM_Ok_lookup_r _ _ _ _ _ Hsel Hk) as (idx & _ & Hpick).
  unfold pick in Hpick. destruct (combinations !! idx) eqn:Hc; [|done].
  injection Hpick as ->. by eapply list_elem_of_lookup_2.
Qed.

(** C4.  For a grid with at most six light paths the loop body runs the
    exhaustive search, and at every occupied hour at which some combination
    is not marked invalid, the selected combination is not marked invalid
    either, its overlit fraction is the largest among the combinations that
    are not marked invalid, and it is the first combination of the
    enumeration with that fraction. *)
Theorem selected_is_first_valid_maximum
    (ext : collaborators) (results : AnnualDaylight)
    (shade_transmittance : shade_input) (use_states : bool)
    (occ_mask : list Z) (acc acc' : schedule_state) (grid_info : grid_info) :
  (length (light_paths_of grid_info) ≤ 6)%nat →
  grid_step ext results shade_transmittance use_states occ_mask acc grid_info
    = Ok acc' →
  ∃ combinations trace,
    exhaustive_trace results grid_info use_states combinations occ_mask
      = Ok trace ∧
    acc'.1.1 = merge_grid_schedule use_states acc.1.1
                 (merge_combinations (tr_selected trace) []) ∧
    ∀ j m i p,
      occ_mask !! j = Some m → np.truthy m →
      np.entry (tr_percentages trace) i j = Some p → p ≤ two_percent →
      ∃ idx combination q,
        tr_max_indices trace !! occ_rank occ_mask j = Some idx ∧
        combinations !! idx = Some combination ∧
        tr_selected trace !! occ_rank occ_mask j = Some combination ∧
        np.entry (tr_percentages trace) idx j = Some q ∧
        q ≤ two_percent ∧ p ≤ q ∧ (p = q → (idx ≤ i)%nat).
Proof.
  intros Hlen Hstep. destruct acc as [[ss ftc] shd].
  destruct (grid_step_exhaustive _ _ _ _ _ _ _ _ _ _ Hlen Hstep)
    as (combinations & shd' & trace & _ & Htrace & ->).
  exists combinations, trace. split_and!; [done | done |].
  intros j m i p. apply (selected_valid_max _ _ _ _ _ _ Htrace).
Qed.


(** C10.  At an occupied hour at which every enumerated combination is
    marked invalid, the hour is recorded, index 0 is selected, the first
    combination of the enumeration is the one kept for the hour, and in
    transmittance mode the grid's schedule of every light path other than
    the static apertures holds the multiplier 1 at that hour. *)
Theorem noncomplying_hour_keeps_first_combination
    (ext : collaborators) (results : AnnualDaylight)
    (shade_transmittance : shade_input) (use_states : bool)
    (occ_mask : list Z) (acc acc' : schedule_state) (grid_info : grid_info) :
  (length (light_paths_of grid_info) ≤ 6)%nat →
  grid_step ext results shade_transmittance use_states occ_mask acc grid_info
    = Ok acc' →
  ∃ combinations trace grid_states_schedule,
    exhaustive_trace results grid_info use_states combinations occ_mask
      = Ok trace ∧
    grid_states_schedule = merge_combinations (tr_selected trace) [] ∧
    acc'.1.1 = merge_grid_schedule use_states acc.1.1 grid_states_schedule ∧
    ∀ j m,
      occ_mask !! j = Some m → np.truthy m →
      (∀ i p, np.entry (tr_percentages trace) i j = Some p →
              two_percent < p) →
      (∀ hoy, sun_up_hours results !! j = Some hoy →
              int_of hoy ∈ tr_failing trace) ∧
      tr_max_indices trace !! occ_rank occ_mask j = Some 0%nat ∧
      tr_selected trace !! occ_rank occ_mask j = combinations !! 0%nat ∧
      (use_states = false →
       ∀ light_path,
         light_path ∈ light_paths_of grid_info →
         light_path ≠ static_apertures →
         ∃ values,
           odict.get light_path grid_states_schedule = Some values ∧
           values !! occ_rank occ_mask j = Some 1).
Proof.
  intros Hlen Hstep. destruct acc as [[ss ftc] shd].
  destruct (grid_step_exhaustive _ _ _ _ _ _ _ _ _ _ Hlen Hstep)
    as (combinations & shd' & trace & Hcomb & Htrace & ->).
  exists combinations, trace, (merge_combinations (tr_selected trace) []).
  split_and!; try done.
  intros j m Hj Hm Hall.
  assert (Hlt : (j < length occ_mask)%nat) by by eapply lookup_lt_Some.
  destruct (selected_when_none_valid _ _ _ _ _ _ Htrace j m Hj Hm Hall)
    as [Hidx Hsel].
  split_and!; try done.
  - intros hoy Hhoy. apply (failing_spec _ _ _ _ _ _ Htrace).
    exists j, hoy. split_and!; try done.
    by apply (grid_comply_spec _ _ _ _ _ _ Htrace).
  - intros -> lp Hlp Hstatic. unfold grid_combinations in Hcomb.
    destruct (shade_transmittance_per_light_path (light_paths_of grid_info)
                shade_transmittance
                (shade_transmittance_per_light_path
                   (light_paths_of grid_info) shade_transmittance shd).2)
      as [sts shd''] eqn:Hsts.
    apply bind_Ok in Hcomb as (combos & Hcombos & [= <- <-]).
    replace sts with (sts, shd'').1 in Hcombos by done. rewrite <- Hsts in Hcombos.
    apply transmittance_combinations_shape in Hcombos
      as (keys & Hnd & Hkeys & Hsame & first & Hfirst & Hones).
    rewrite Hfirst in Hsel.
    (* every selected combination holds one value for the light path *)
    assert (Hsingle : Forall (λ c, ∃ v, values_for lp c = [v])
                             (tr_selected trace)).
    { apply list.Forall_forall. intros c Hc.
      apply (selected_in_combinations _ _ _ _ _ _ Htrace) in Hc.
      pose proof (Hsame c Hc) as Hck.
      destruct (odict.get lp c) as [v|] eqn:Hv.
      - exists v. apply values_for_unique; [by rewrite Hck | done].
      - apply get_None_not_key in Hv. rewrite Hck in Hv.
        destruct Hv. by apply Hkeys. }
    assert (Hone : values_for lp first = [1]).
    { apply values_for_unique.
      - rewrite (Hsame first); [done|]. by eapply list_elem_of_lookup_2.
      - by apply Hones, Hkeys. }
    pose proof (bind_singletons_lookup (values_for lp) _ _ first 1
                  Hsingle Hsel Hone) as Hentry.
    rewrite merge_combinations_get by done. simpl.
    destruct (tr_selected trace ≫= values_for lp) as [|v vs] eqn:Hvs; [done|].
    by eexists.
Qed.

(** ** The search returns on well-shaped data *)

Lemma shape_ok_scale hours array v :
  shape_ok hours array → shape_ok hours (np.scale array v).
Proof.
  intros [Hne Hrows]. split.
  - unfold np.scale. by destruct array.
  - unfold np.scale. apply Forall_fmap.
    eapply list.Forall_impl; [exact Hrows|]. simpl. intros row <-.
    by rewrite length_map.
Qed.

Lemma shape_ok_add hours a b :
  shape_ok hours a → shape_ok hours b → shape_ok hours (np.add a b).
Proof.
  intros [Hna Ha] [Hnb Hb]. unfold np.add. split.
  - by destruct a, b.
  - clear Hna Hnb. revert b Hb.
    induction Ha as [|ra a Hra _ IH]; intros b Hb; [constructor|].
    destruct Hb as [|rb b Hrb Hb]; [constructor|].
    simpl. constructor; [|by apply IH].
    rewrite length_zip_with. lia.
Qed.

Lemma shape_ok_sum hours a rest :
  shape_ok hours a → Forall (shape_ok hours) rest →
  shape_ok hours (foldl np.add a rest).
Proof.
  intros Ha Hrest. revert a Ha.
  induction Hrest as [|b rest Hb _ IH]; intros a Ha; [done|].
  simpl. apply IH. by apply shape_ok_add.
Qed.

Lemma shape_ok_ncols hours array : shape_ok hours array → np.ncols array = hours.
Proof.
  intros [Hne Hrows]. destruct array as [|row array]; [done|].
  by apply list.Forall_cons in Hrows as [Hrow _].
Qed.

Lemma combination_array_returns results grid_info use_states occ_mask
    combination :
  well_shaped results grid_info occ_mask → combination ≠ [] →
  ∃ array,
    combination_array results grid_info use_states combination = Ok array ∧
    shape_ok (length occ_mask) array.
Proof.
  intros [_ Hshape] Hne. unfold combination_array.
  assert (Hall : Forall (shape_ok (length occ_mask))
                   (combination_arrays results grid_info use_states
                      combination)).
  { unfold combination_arrays. apply Forall_fmap, list.Forall_forall.
    intros [lp v] _. simpl. destruct use_states; [apply Hshape|].
    case_decide; [apply Hshape | apply shape_ok_scale, Hshape]. }
  destruct (combination_arrays _ _ _ _) as [|a rest] eqn:Harr.
  { destruct combination; [done | discriminate Harr]. }
  apply list.Forall_cons in Hall as [Ha Hrest].
  eexists. split; [done|]. by apply shape_ok_sum.
Qed.

Lemma column_length_le {A} (a : list (list A)) j :
  (length (np.column j a) ≤ length a)%nat.
Proof.
  unfold np.column. induction a as [|row a IH]; [done|].
  change (omap (λ row : list A, row !! j) (row :: a))
    with (match row !! j with
          | Some x => x :: omap (λ row : list A, row !! j) a
          | None => omap (λ row : list A, row !! j) a
          end).
  destruct (row !! j); simpl; lia.
Qed.

Lemma exhaustive_trace_returns results grid_info use_states combinations
    occ_mask :
  well_shaped results grid_info occ_mask →
  combinations ≠ [] → Forall (λ c, c ≠ []) combinations →
  ∃ trace,
    exhaustive_trace results grid_info use_states combinations occ_mask
    = Ok trace.
Proof.
  intros Hws Hcomb Hdicts. pose proof Hws as [Hsun _].
  set (n := length occ_mask).
  (* the percentages *)
  destruct (mapM_is_Ok
              (λ combination,
                 array ← combination_array results grid_info use_states
                           combination;
                 Ok (combination_percentage array (gi_count grid_info)))
              combinations) as [pcts Hpcts].
  { intros c Hc. rewrite list.Forall_forall in Hdicts.
    destruct (combination_array_returns _ _ use_states _ c Hws (Hdicts c Hc))
      as (array & -> & _). by eexists. }
  assert (Hrows : Forall (λ row : list Qc, length row = n) pcts).
  { apply list.Forall_forall. intros row (i & Hi)%list_elem_of_lookup_1.
    destruct (mapM_Ok_lookup_r _ _ _ _ _ Hpcts Hi) as (c & Hc & Hrow).
    rewrite list.Forall_forall in Hdicts.
    destruct (combination_array_returns _ _ use_states _ c Hws)
      as (array & Harr & Hshape).
    { apply Hdicts. by eapply list_elem_of_lookup_2. }
    rewrite Harr in Hrow. injection Hrow as <-.
    unfold combination_percentage, np.columns.
    by rewrite !length_fmap, length_seq, (shape_ok_ncols n). }
  assert (Hlen : length pcts = length combinations)
    by by eapply mapM_Ok_length.
  destruct pcts as [|row0 pcts'] eqn:Hp.
  { destruct combinations; [done | discriminate Hlen]. }
  rewrite <- Hp in *.
  assert (Hnc : np.ncols pcts = n).
  { rewrite Hp. simpl. rewrite Hp in Hrows.
    by apply list.Forall_cons in Hrows as [Hrow0 _]. }
  unfold exhaustive_trace, array_list_combinations. rewrite Hpcts. simpl.
  unfold np.array2d. rewrite decide_True by by rewrite Hnc. simpl.
  (* the record *)
  destruct (mapM_is_Ok
              (λ j, match sun_up_hours results !! j with
                    | Some hoy => Ok (int_of hoy)
                    | None => Raise IndexError
                    end)
              (grid_comply (mark_invalid pcts))) as [failing Hfailing].
  { intros j Hj. unfold grid_comply in Hj.
    apply list_elem_of_filter in Hj as [_ Hj]. apply elem_of_seq in Hj.
    rewrite ncols_mark_invalid, Hnc in Hj.
    destruct (lookup_lt_is_Some_2 (sun_up_hours results) j) as [hoy ->];
      [rewrite Hsun; unfold n in Hj; lia | by eexists]. }
  unfold failing_hoys. rewrite Hfailing. simpl.
  (* the filter *)
  unfold filter_array2d.
  destruct (mark_invalid pcts) as [|mrow0 marked'] eqn:Hmarked.
  { rewrite Hp in Hmarked. discriminate Hmarked. }
  assert (Hm0 : length mrow0 = n).
  { pose proof (ncols_mark_invalid pcts) as Hm. rewrite Hmarked in Hm.
    simpl in Hm. by rewrite Hm. }
  rewrite decide_True by done. rewrite <- Hmarked. simpl.
  (* the indices *)
  destruct (mapM_is_Ok argmax
              (np.columns (np.select occ_mask <$> mark_invalid pcts)))
    as [max_indices Hmax].
  { intros col (k & Hk)%list_elem_of_lookup_1.
    unfold np.columns in Hk. rewrite list_lookup_fmap in Hk.
    destruct (seq 0 _ !! k) as [k'|] eqn:Hseq; [|done].
    apply lookup_seq in Hseq as [-> Hlt]. injection Hk as <-.
    apply argmax_is_Ok. rewrite Hmarked in *. simpl in *.
    apply lookup_lt_is_Some_2 in Hlt as [x Hx]. unfold np.column. simpl.
    by rewrite Hx. }
  unfold argmax_axis0. rewrite Hmax. simpl.
  (* the selected combinations *)
  destruct (mapM_is_Ok (pick combinations) max_indices) as [selected Hsel].
  { intros idx (k & Hk)%list_elem_of_lookup_1.
    destruct (mapM_Ok_lookup_r _ _ _ _ _ Hmax Hk) as (col & Hcol & Harg).
    apply argmax_first_max in Harg as (x & Hx & _).
    apply lookup_lt_Some in Hx.
    unfold np.columns in Hcol. rewrite list_lookup_fmap in Hcol.
    destruct (seq 0 _ !! k) as [k'|]; [|done]. injection Hcol as <-.
    pose proof (column_length_le (np.select occ_mask <$> mark_invalid pcts) k')
      as Hle.
    rewrite length_fmap in Hle.
    replace (length (mark_invalid pcts)) with (length pcts) in Hle
      by (unfold mark_invalid; by rewrite length_map).
    unfold pick.
    destruct (lookup_lt_is_Some_2 combinations idx) as [c ->]; [lia|].
    by eexists. }
  destruct (mapM _ max_indices) as [chosen|e] eqn:Hchosen; simpl;
    [by eexists|].
  discriminate Hsel.
Qed.

(** In transmittance mode the loop body returns for every grid that has a
    light path, at most six of them, and well-shaped arrays. *)
Lemma grid_step_returns ext results shade_transmittance occ_mask acc grid_info :
  well_shaped results grid_info occ_mask →
  light_paths_of grid_info ≠ [] →
  (length (light_paths_of grid_info) ≤ 6)%nat →
  ∃ acc',
    grid_step ext results shade_transmittance false occ_mask acc grid_info
    = Ok acc'.
Proof.
  intros Hws Hlps Hlen. destruct acc as [[ss ftc] shd].
  unfold grid_step.
  destruct (shade_transmittance_per_light_path (light_paths_of grid_info)
              shade_transmittance shd) as [sts shd1] eqn:Hfirst.
  rewrite decide_False by lia. unfold grid_combinations.
  destruct (shade_transmittance_per_light_path (light_paths_of grid_info)
              shade_transmittance shd1) as [sts' shd2] eqn:Hsecond.
  assert (Hsts : sts' = (shade_transmittance_per_light_path
                           (light_paths_of grid_info) shade_transmittance
                           shd1).1) by by rewrite Hsecond.
  (* the dictionary of multipliers is not empty *)
  assert (Hne : sts' ≠ []).
  { destruct (light_paths_of grid_info) as [|lp lps] eqn:Hl; [done|].
    destruct (shade_transmittance_per_light_path_fold_get shade_transmittance
                (lp :: lps) shd1 lp) as [v Hv]; [by left|].
    rewrite <- Hsts in Hv. by destruct sts'. }
  destruct (transmittance_combinations sts') as [combinations|] eqn:Hcomb;
    [|by destruct sts'].
  pose proof Hcomb as Hshape. rewrite Hsts in Hshape.
  apply transmittance_combinations_shape in Hshape
    as (keys & _ & Hkeys & Hsame & first & Hfirst0 & _).
  simpl.
  destruct (exhaustive_trace_returns results grid_info false combinations
              occ_mask Hws) as [trace Htrace].
  - by destruct combinations.
  - apply list.Forall_forall. intros c Hc ->.
    specialize (Hsame [] Hc). simpl in Hsame.
    destruct (light_paths_of grid_info) as [|lp lps] eqn:Hl; [done|].
    specialize (Hkeys lp ltac:(by left)). rewrite <- Hsame in Hkeys.
    by apply elem_of_nil in Hkeys.
  - unfold exhaustive_search. rewrite Htrace. simpl. by eexists.
Qed.

Example sample_is_well_shaped :
  well_shaped sample.results sample.grid (occ_mask sample.results).
Proof.
  split; [done|]. intros light_path state type. simpl.
  case_decide; (split; [done | by repeat constructor]).
Qed.

Example sample_grid_step_returns :
  ∃ acc',
    grid_step sample.ext sample.results (ShdScalar default_shd_trans) false
      (occ_mask sample.results) ([], [], ∅) sample.grid
    = Ok acc'.
Proof.
  apply grid_step_returns.
  - apply sample_is_well_shaped.
  - done.
  - simpl. lia.
Qed.

(** ** The always-open and always-closed arrays *)

(** In state mode every controlled light path puts its blinds-down array on
    the list twice. *)
Lemma states_blinds_down_appended_twice results grid_info acc light_path acc' :
  light_path ≠ static_apertures →
  sda_light_path_states results grid_info acc light_path = Ok acc' →
  ∃ down,
    filter_array2d (_get_array results grid_info light_path 1 total)
                   (occ_mask results) = Ok down ∧
    arrays_blinds_down acc' = arrays_blinds_down acc ++ [down; down].
Proof.
  intros Hlp Hstep. unfold sda_light_path_states in Hstep.
  rewrite decide_True in Hstep by done.
  apply bind_Ok in Hstep as (up & Hup & Hstep).
  apply bind_Ok in Hstep as (down & Hdown & [= <-]).
  exists down. done.
Qed.

(** In transmittance mode every light path puts one array on each list. *)
Lemma transmittance_arrays_appended_once results grid_info states_schedule
    shd_trans_dict acc light_path acc' :
  sda_light_path_transmittance results grid_info states_schedule
    shd_trans_dict acc light_path = Ok acc' →
  ∃ array_filter,
    filter_array2d (_get_array results grid_info light_path 0 total)
                   (occ_mask results) = Ok array_filter ∧
    arrays_blinds_up acc' = arrays_blinds_up acc ++ [array_filter] ∧
    ∃ down,
      arrays_blinds_down acc' = arrays_blinds_down acc ++ [down] ∧
      (light_path = static_apertures → down = array_filter) ∧
      (light_path ≠ static_apertures →
       ∃ shd_trans, shd_trans_dict !! light_path = Some shd_trans ∧
                    down = np.scale array_filter shd_trans).
Proof.
  intros Hstep. unfold sda_light_path_transmittance in Hstep.
  apply bind_Ok in Hstep as (array_filter & Hfilter & Hstep).
  exists array_filter. split; [done|]. case_decide as Hlp.
  - apply bind_Ok in Hstep as (shd_trans_array & _ & Hstep).
    destruct (shd_trans_dict !! light_path) as [shd_trans|]; [|done].
    injection Hstep as <-. split; [done|]. eexists. split_and!; eauto.
    done.
  - injection Hstep as <-. split; [done|]. eexists. split_and!; eauto.
    intros Hne. by destruct Hlp.
Qed.

(** C5.  On the sample with simulated states the blinds-down array of
    aperture group [A] is [[200]], yet the always-closed array that
    [sda_arrays] returns is [[400]]: the array is counted twice.  With a
    threshold of 300 lux the always-closed flags then say that the sensor
    passes, while the daylight autonomy of the blinds-down array itself
    fails the target. *)
Theorem blinds_down_array_counted_twice :
  _get_array sample.states_results sample.states_grid "A" 1 total
    = [[sample.q 200 1]] ∧
  sda_arrays sample.states_results sample.states_grid true [] ∅
    = Ok ([[sample.q 500 1]], [[sample.q 500 1]], [[sample.q 400 1]]) ∧
  sda_of_grid sample.ext sample.states_results sample.states_grid true [] ∅
      (sample.q 300 1) (sample.q 50 1)
    = Ok ([hundred], [true], [true], [true]) ∧
  pass_flags (sample.daylight_autonomy [[sample.q 200 1]] 1 (sample.q 300 1))
             (λ x, bool_decide (sample.q 50 1 ≤ x))
    = [false].
Proof.
  split_and!; apply (bool_decide_unpack _); vm_compute; exact I.
Qed.

(** ** Configuration errors *)

(** C8, as amended.  A custom [states_schedule] that is not empty makes
    [leed_option_one] raise [NotImplementedError] whatever the other
    arguments are, so before any schedule or metric is computed; a shade
    transmittance, by contrast, is not checked: the resolver hands any
    number on as the multiplier it was given. *)
Theorem custom_schedule_is_rejected :
  (∀ ext results grids_filter shade_transmittance use_states states_schedule
     threshold direct_threshold occ_hours target_time model_areas,
     is_falsy states_schedule = false →
     leed_option_one ext results grids_filter shade_transmittance use_states
       states_schedule threshold direct_threshold occ_hours target_time
       model_areas = Raise NotImplementedError) ∧
  (∀ (x : Qc) light_paths shd_trans_dict light_path,
     light_path ∈ light_paths → light_path ≠ static_apertures →
     odict.get light_path
       (shade_transmittance_per_light_path
          light_paths (ShdScalar x) shd_trans_dict).1 = Some [1; x]) ∧
  (∀ (x : Qc) (m : gmap string Qc) light_paths shd_trans_dict light_path,
     light_path ∈ light_paths → m !! light_path = Some x →
     odict.get light_path
       (shade_transmittance_per_light_path
          light_paths (ShdMapping m) shd_trans_dict).1 = Some [1; x]).
Proof.
  split_and!.
  - intros ext results grids_filter shade_transmittance use_states
      states_schedule threshold direct_threshold occ_hours target_time
      model_areas Hcustom.
    unfold leed_option_one. by rewrite Hcustom.
  - intros x lps dict lp Hin Hne. rewrite shade_transmittance_foldl.
    destruct (shade_transmittance_fold (ShdScalar x) lps [] dict lp) as [H _].
    rewrite decide_True in H by done. unfold resolved_multiplier in H.
    by rewrite decide_True in H by done.
  - intros x m lps dict lp Hin Hm. rewrite shade_transmittance_foldl.
    destruct (shade_transmittance_fold (ShdMapping m) lps [] dict lp) as [H _].
    rewrite decide_True in H by done. unfold resolved_multiplier in H.
    by rewrite Hm in H.
Qed.

(** C8, counterexample.  With the scalar shade transmittance 1.5, which is
    outside the allowed range, the run on the sample completes; the
    multiplier is used in the search (hour 10 now fails too). *)
Lemma out_of_range_transmittance_is_accepted :
  match
    leed_option_one sample.ext sample.results "*" (ShdScalar (sample.q 3 2))
      false None (sample.q 300 1) (sample.q 1000 1) (sample.q 250 1)
      (sample.q 50 1) []
  with
  | Ok r =>
      lr_fail_to_comply r = [("G", [8; 10]%Z)] ∧
      lr_summary r !! "credits" = Some (JInt 0)
  | Raise _ => False
  end.
Proof. vm_compute. split; reflexivity. Qed.

(** ** Values on the boundary *)



(** ** The theorems at work on the sample data *)



Lemma selected_is_first_valid_maximum_witness :
  ∃ combinations trace,
    exhaustive_trace sample.results sample.grid false combinations
      [1; 1; 1]%Z = Ok trace ∧
    sample.acc.1.1 = merge_grid_schedule false []
                       (merge_combinations (tr_selected trace) []) ∧
    ∀ j m i p,
      [1; 1; 1]%Z !! j = Some m → np.truthy m →
      np.entry (tr_percentages trace) i j = Some p → p ≤ two_percent →
      ∃ idx combination q,
        tr_max_indices trace !! occ_rank [1; 1; 1]%Z j = Some idx ∧
        combinations !! idx = Some combination ∧
        tr_selected trace !! occ_rank [1; 1; 1]%Z j = Some combination ∧
        np.entry (tr_percentages trace) idx j = Some q ∧
        q ≤ two_percent ∧ p ≤ q ∧ (p = q → (idx ≤ i)%nat).
Proof.
  apply (selected_is_first_valid_maximum sample.ext sample.results
           (ShdScalar default_shd_trans) false [1; 1; 1]%Z ([], [], ∅)
           sample.acc sample.grid).
  - vm_compute. lia.
  - vm_compute. reflexivity.
Defined.

Lemma noncomplying_hour_keeps_first_combination_witness :
  ∃ combinations trace grid_states_schedule,
    exhaustive_trace sample.results sample.grid false combinations
      [1; 1; 1]%Z = Ok trace ∧
    grid_states_schedule = merge_combinations (tr_selected trace) [] ∧
    sample.acc.1.1 = merge_grid_schedule false [] grid_states_schedule ∧
    ∀ j m,
      [1; 1; 1]%Z !! j = Some m → np.truthy m →
      (∀ i p, np.entry (tr_percentages trace) i j = Some p →
              two_percent < p) →
      (∀ hoy, sun_up_hours sample.results !! j = Some hoy →
              int_of hoy ∈ tr_failing trace) ∧
      tr_max_indices trace !! occ_rank [1; 1; 1]%Z j = Some 0%nat ∧
      tr_selected trace !! occ_rank [1; 1; 1]%Z j = combinations !! 0%nat ∧
      (false = false →
       ∀ light_path,
         light_path ∈ light_paths_of sample.grid →
         light_path ≠ static_apertures →
         ∃ values,
           odict.get light_path grid_states_schedule = Some values ∧
           values !! occ_rank [1; 1; 1]%Z j = Some 1).
Proof.
  apply (noncomplying_hour_keeps_first_combination sample.ext sample.results
           (ShdScalar default_shd_trans) false [1; 1; 1]%Z ([], [], ∅)
           sample.acc sample.grid).
  - vm_compute. lia.
  - vm_compute. reflexivity.
Defined.


Lemma noncompliance_forces_zero_credit_witness :
  assign_credits [("G", [8%Z])] sample.summary sample.summary_grid
    = Ok (<["note" :=
              JStr ("0 credits have been awarded. The following sensor grids "
                    +:+ "have at least one hour where 2% of the floor area "
                    +:+ "receives direct illuminance of 1000 lux or more: "
                    +:+ join_comma (odict.keys [("G", [8%Z])]) +:+ ".")]>
            (<["credits" := JInt 0]> sample.summary)) ∧
  lr_fail_to_comply sample.run = [("G", [8%Z])] ∧
  lr_summary sample.run !! "credits" = Some (JInt 0) ∧
  lr_summary sample.run !! "note" = Some (JStr (fail_note [("G", [8%Z])])).
Proof.
  destruct (noncompliance_forces_zero_credit [("G", [8%Z])] sample.summary
              sample.summary_grid) as [Hblock Hrun]; [discriminate|].
  split; [exact Hblock|]. split; [vm_compute; reflexivity|].
  apply (Hrun sample.ext sample.results "*" (ShdScalar default_shd_trans)
           false None (sample.q 300 1) (sample.q 1000 1) (sample.q 250 1)
           (sample.q 50 1) [] sample.run).
  - vm_compute. reflexivity.
  - vm_compute. reflexivity.
Defined.

Lemma cross_grid_merge_assoc_comm_witness :
  odict.get "A"
    (merge_grid_schedule false
       (merge_grid_schedule false [("A", [1; 1])]
          [("A", [default_shd_trans; 1])]) [("A", [1; default_shd_trans])])
  = odict.get "A"
      (merge_grid_schedule false
         (merge_grid_schedule false [("A", [1; 1])]
            [("A", [1; default_shd_trans])]) [("A", [default_shd_trans; 1])]).
Proof.
  apply (proj2 (proj2 (cross_grid_merge_assoc_comm false)));
    apply (bool_decide_unpack _); vm_compute; exact I.
Defined.

Lemma custom_schedule_is_rejected_witness :
  leed_option_one sample.ext sample.results "*" (ShdScalar default_shd_trans)
    false (Some [("A", [1])]) (sample.q 300 1) (sample.q 1000 1)
    (sample.q 250 1) (sample.q 50 1) [] = Raise NotImplementedError.
Proof.
  apply (proj1 custom_schedule_is_rejected). reflexivity.
Defined.


(** The search on the sample grid: hour 8 fails and keeps index 0, hour 9
    is a tie that index 0 wins, hour 10 selects the second combination
    (group [B] shaded). *)
Example sample_trace :
  ∃ trace,
    exhaustive_trace sample.results sample.grid false
      [[("A", 1); ("B", 1)]; [("A", 1); ("B", default_shd_trans)];
       [("A", default_shd_trans); ("B", 1)];
       [("A", default_shd_trans); ("B", default_shd_trans)]]
      [1; 1; 1]%Z = Ok trace ∧
    tr_failing trace = [8%Z] ∧
    tr_max_indices trace = [0; 0; 1]%nat ∧
    sample.acc.1.1 = [("A", [1; 1; 1]); ("B", [1; 1; default_shd_trans])] ∧
    sample.acc.1.2 = [("G", [8%Z])].
Proof.
  eexists. split; [vm_compute; reflexivity|].
  split_and!; apply (bool_decide_unpack _); vm_compute; exact I.
Qed.

(** * Further properties of the code *)

(** ** The transmittance resolver, again *)

Lemma shade_transmittance_fold_fst shade_transmittance light_paths
    shade_transmittances shd_trans_dict shd_trans_dict' :
  (foldl (shade_transmittance_step shade_transmittance)
         (shade_transmittances, shd_trans_dict) light_paths).1
  = (foldl (shade_transmittance_step shade_transmittance)
           (shade_transmittances, shd_trans_dict') light_paths).1.
Proof.
  revert shade_transmittances shd_trans_dict shd_trans_dict'.
  induction light_paths as [|lp lps IH]; intros sts d d'; [done|].
  cbn [foldl]. unfold shade_transmittance_step at 2 4. cbn [add_multiplier].
  apply IH.
Qed.

Lemma resolver_second_call light_paths shade_transmittance shd_trans_dict :
  shade_transmittance_per_light_path light_paths shade_transmittance
    (shade_transmittance_per_light_path light_paths shade_transmittance
       shd_trans_dict).2
  = shade_transmittance_per_light_path light_paths shade_transmittance
      shd_trans_dict.
Proof.
  rewrite !shade_transmittance_foldl.
  apply injective_projections.
  - apply shade_transmittance_fold_fst.
  - apply map_eq. intros lp.
    destruct (shade_transmittance_fold shade_transmittance light_paths []
                (foldl (shade_transmittance_step shade_transmittance)
                       ([], shd_trans_dict) light_paths).2 lp) as [_ H1].
    destruct (shade_transmittance_fold shade_transmittance light_paths []
                shd_trans_dict lp) as [_ H2].
    destruct (decide (lp ∈ light_paths)); [|done].
    by etrans; [exact H1|].
Qed.

(** X1.  [leed_states_schedule] calls the resolver a second time with the
    map that the first call returned (transmittance mode, at most six light
    paths); the second call returns the pair that the first one returned. *)
Theorem resolver_second_call_is_redundant (light_paths : list string)
    (shade_transmittance : shade_input) (shd_trans_dict : gmap string Qc) :
  shade_transmittance_per_light_path light_paths shade_transmittance
    (shade_transmittance_per_light_path light_paths shade_transmittance
       shd_trans_dict).2
  = shade_transmittance_per_light_path light_paths shade_transmittance
      shd_trans_dict.
Proof.
  apply resolver_second_call.
Qed.

Lemma shade_transmittance_fold_keys shade_transmittance light_paths
    shade_transmittances shd_trans_dict :
  NoDup light_paths →
  (∀ lp, lp ∈ light_paths → lp ∉ odict.keys shade_transmittances) →
  odict.keys
    (foldl (shade_transmittance_step shade_transmittance)
           (shade_transmittances, shd_trans_dict) light_paths).1
  = odict.keys shade_transmittances ++ light_paths.
Proof.
  revert shade_transmittances shd_trans_dict.
  induction light_paths as [|lp lps IH]; intros sts d Hnd Hfresh.
  - by rewrite app_nil_r.
  - apply list.NoDup_cons in Hnd as [Hlp Hnd].
    cbn [foldl]. unfold shade_transmittance_step at 2. cbn [add_multiplier].
    rewrite odict_facts.append_set_eq, IH; [|done|].
    + rewrite set_keys, decide_False by (apply Hfresh; by left).
      by rewrite <- app_assoc.
    + intros lp' Hin. rewrite set_keys, decide_False by (apply Hfresh; by left).
      rewrite elem_of_app, list_elem_of_singleton.
      intros [Hk| ->]; [|done]. revert Hk. apply Hfresh. by right.
Qed.

Lemma resolver_keys_spec light_paths shade_transmittance shd_trans_dict :
  NoDup (odict.keys
           (shade_transmittance_per_light_path light_paths shade_transmittance
              shd_trans_dict).1) ∧
  (∀ light_path,
     light_path ∈
       odict.keys
         (shade_transmittance_per_light_path light_paths shade_transmittance
            shd_trans_dict).1
     ↔ light_path ∈ light_paths) ∧
  Forall (λ pool, ∃ m, pool = [1; m])
    (odict.values
       (shade_transmittance_per_light_path light_paths shade_transmittance
          shd_trans_dict).1).
Proof.
  rewrite shade_transmittance_foldl.
  destruct (shade_transmittance_fold_shape shade_transmittance light_paths []
              shd_trans_dict) as [Hnd Hpools];
    [apply NoDup_nil_2 | apply Forall_nil_2 |].
  split_and!; [done| |done].
  intros lp.
  destruct (shade_transmittance_fold shade_transmittance light_paths []
              shd_trans_dict lp) as [Hget _].
  destruct (decide (lp ∈ light_paths)) as [Hin|Hnin].
  - split; [done|]. intros _.
    destruct (decide (lp ∈ odict.keys
                (foldl (shade_transmittance_step shade_transmittance)
                       ([], shd_trans_dict) light_paths).1)) as [|Hk];
      [done|].
    apply get_None_not_key in Hk.
    discriminate (eq_trans (eq_sym Hget) Hk).
  - split; [|done]. intros Hk. exfalso.
    apply (proj1 (get_None_not_key lp _) Hget), Hk.
Qed.

(** X2.  The dictionary that [shade_transmittance_per_light_path] returns
    has the given light paths as its keys, nothing else, in the given order
    when the light paths are distinct; and the accumulated map keeps the
    entry (or the absence) of every aperture group that is not among the
    light paths. *)
Theorem resolver_keys_and_frame (light_paths : list string)
    (shade_transmittance : shade_input) (shd_trans_dict : gmap string Qc) :
  (NoDup light_paths →
   odict.keys
     (shade_transmittance_per_light_path light_paths shade_transmittance
        shd_trans_dict).1 = light_paths) ∧
  (∀ light_path,
     light_path ∈
       odict.keys
         (shade_transmittance_per_light_path light_paths shade_transmittance
            shd_trans_dict).1
     ↔ light_path ∈ light_paths) ∧
  (∀ light_path,
     light_path ∉ light_paths →
     (shade_transmittance_per_light_path light_paths shade_transmittance
        shd_trans_dict).2 !! light_path
     = shd_trans_dict !! light_path).
Proof.
  split_and!.
  - intros Hnd. rewrite shade_transmittance_foldl.
    apply (shade_transmittance_fold_keys shade_transmittance light_paths []
             shd_trans_dict Hnd).
    intros lp _. apply not_elem_of_nil.
  - apply resolver_keys_spec.
  - intros lp Hnin. rewrite shade_transmittance_foldl.
    destruct (shade_transmittance_fold shade_transmittance light_paths []
                shd_trans_dict lp) as [_ Hdict].
    by rewrite decide_False in Hdict.
Qed.

Lemma resolver_keys_and_frame_witness :
  odict.keys
    (shade_transmittance_per_light_path ["A"; "B"]
       (ShdScalar default_shd_trans) {[ "C" := 1 ]}).1 = ["A"; "B"] ∧
  (shade_transmittance_per_light_path ["A"; "B"]
     (ShdScalar default_shd_trans) {[ "C" := 1 ]}).2 !! "C"
  = ({[ "C" := 1 ]} : gmap string Qc) !! "C".
Proof.
  destruct (resolver_keys_and_frame ["A"; "B"] (ShdScalar default_shd_trans)
              {[ "C" := 1 ]}) as (Hkeys & _ & Hframe).
  split.
  - apply Hkeys. by apply (bool_decide_unpack _).
  - apply Hframe. by apply (bool_decide_unpack _).
Defined.

(** X3.  A mapping that lists none of the light paths gives what the
    scalar 0.05, the default of [leed_option_one], gives. *)
Theorem unlisted_mapping_is_the_default (light_paths : list string)
    (mapping : gmap string Qc) (shd_trans_dict : gmap string Qc) :
  (∀ light_path, light_path ∈ light_paths → mapping !! light_path = None) →
  shade_transmittance_per_light_path light_paths (ShdMapping mapping)
    shd_trans_dict
  = shade_transmittance_per_light_path light_paths
      (ShdScalar default_shd_trans) shd_trans_dict.
Proof.
  unfold shade_transmittance_per_light_path.
  generalize (@nil (string * list Qc), shd_trans_dict) as acc.
  induction light_paths as [|lp lps IH]; intros acc Hnone; [done|].
  cbn [foldl]. rewrite (Hnone lp) by (by left).
  apply IH. intros lp' Hin. apply Hnone. by right.
Qed.

Lemma unlisted_mapping_is_the_default_witness :
  shade_transmittance_per_light_path [static_apertures; "A"]
    (ShdMapping {[ "B" := 1 ]}) ∅
  = shade_transmittance_per_light_path [static_apertures; "A"]
      (ShdScalar default_shd_trans) ∅.
Proof.
  apply (unlisted_mapping_is_the_default [static_apertures; "A"]
           {[ "B" := 1 ]} ∅).
  intros lp Hin.
  apply elem_of_cons in Hin as [->|Hin]; [done|].
  apply list_elem_of_singleton in Hin as ->. done.
Defined.

(** ** The light paths of a grid *)

(** X4.  The flattened list of light paths of a grid holds every member
    of every group, except that the static apertures are dropped from a
    group that has another member; they are kept where they stand alone. *)
Theorem light_paths_of_spec (grid_info : grid_info) (light_path : string) :
  light_path ∈ light_paths_of grid_info
  ↔ ∃ lp, lp ∈ gi_light_path grid_info ∧ light_path ∈ lp ∧
          (light_path = static_apertures → lp = [static_apertures]).
Proof.
  unfold light_paths_of. rewrite list_elem_of_bind. split.
  - intros (lp & Hin & Hlp). apply list_elem_of_filter in Hin as [Hkeep Hin].
    exists lp. split_and!; [done..|]. intros ->.
    destruct lp as [|x [|y lp]].
    + by apply elem_of_nil in Hin.
    + by apply list_elem_of_singleton in Hin as <-.
    + exfalso. apply Hkeep. split; [done | simpl; lia].
  - intros (lp & Hlp & Hin & Hstatic). exists lp. split; [|done].
    apply list_elem_of_filter. split; [|done].
    intros [Heq Hlen]. rewrite (Hstatic Heq) in Hlen. simpl in Hlen. lia.
Qed.

(** ** The combinations of transmittance mode, again *)

Lemma product_count {A} (pools : list (list A)) :
  Forall (λ pool, length pool = 2%nat) pools →
  length (product pools) = (2 ^ length pools)%nat.
Proof.
  induction 1 as [|pool pools Hpool _ IH]; [done|].
  destruct pool as [|x [|y [|? ?]]]; try done.
  cbn [product]. change ([x; y] ≫= ?f) with (f x ++ (f y ++ [])).
  rewrite app_nil_r, length_app, !length_fmap, IH. simpl. lia.
Qed.

(** X5.  In transmittance mode the exhaustive search enumerates two
    candidates per distinct light path: the number of combinations is 2 to
    the number of distinct light paths of the grid, hence at most 64 for a
    grid that is searched exhaustively. *)
Theorem transmittance_combinations_count (results : AnnualDaylight)
    (grid_info : grid_info) (shade_transmittance : shade_input)
    (shd_trans_dict shd_trans_dict' : gmap string Qc)
    (combinations : list (odict.t Qc)) :
  grid_combinations results grid_info (light_paths_of grid_info)
    shade_transmittance false shd_trans_dict
  = Ok (combinations, shd_trans_dict') →
  length combinations
  = (2 ^ length (remove_dups (light_paths_of grid_info)))%nat ∧
  ((length (light_paths_of grid_info) ≤ 6)%nat →
   (length combinations ≤ 64)%nat).
Proof.
  unfold grid_combinations.
  destruct (shade_transmittance_per_light_path _ _ _) as [sts shd] eqn:Hres.
  intros Hcomb. apply bind_Ok in Hcomb as (combos & Hcomb & Hret).
  injection Hret as -> ->.
  assert (Hsts : sts = (shade_transmittance_per_light_path
                          (light_paths_of grid_info) shade_transmittance
                          shd_trans_dict).1) by by rewrite Hres.
  destruct (resolver_keys_spec (light_paths_of grid_info) shade_transmittance
              shd_trans_dict) as (Hnd & Hkeys & Hpools).
  rewrite <- Hsts in Hnd, Hkeys, Hpools.
  assert (Hlen : length (odict.keys sts)
                 = length (remove_dups (light_paths_of grid_info))).
  { apply Permutation_length, NoDup_Permutation;
      [done | apply NoDup_remove_dups |].
    intros lp. by rewrite Hkeys, elem_of_remove_dups. }
  assert (Hcount : length combinations = (2 ^ length (odict.keys sts))%nat).
  { unfold transmittance_combinations in Hcomb.
    assert (combinations
            = (λ v, zip (odict.keys sts) v) <$> product (odict.values sts))
      as -> by (destruct sts; [done | by injection Hcomb]).
    rewrite length_fmap, product_count.
    - unfold odict.keys, odict.values. by rewrite !length_fmap.
    - eapply list.Forall_impl; [exact Hpools|]. by intros pool [m ->]. }
  split; [by rewrite Hcount, Hlen|].
  intros Hsix. rewrite Hcount, Hlen.
  assert (Hle : (length (remove_dups (light_paths_of grid_info))
                 ≤ length (light_paths_of grid_info))%nat).
  { apply submseteq_length, NoDup_submseteq; [apply NoDup_remove_dups|].
    intros lp. by rewrite elem_of_remove_dups. }
  change 64%nat with (2 ^ 6)%nat. apply Nat.pow_le_mono_r; lia.
Qed.

Lemma transmittance_combinations_count_witness :
  length sample_runs.combinations.1
  = (2 ^ length (remove_dups (light_paths_of sample.grid)))%nat ∧
  ((length (light_paths_of sample.grid) ≤ 6)%nat →
   (length sample_runs.combinations.1 ≤ 64)%nat).
Proof.
  apply (transmittance_combinations_count sample.results sample.grid
           (ShdScalar default_shd_trans) ∅ sample_runs.combinations.2
           sample_runs.combinations.1).
  vm_compute. reflexivity.
Defined.

Lemma foldlM_Raise {A B} (f : B → A → result B) (l : list A) (a : A) (b : B) :
  a ∈ l → (∀ b, ∃ e, f b a = Raise e) → ∃ e, foldlM f b l = Raise e.
Proof.
  intros Hin Hraise. revert b.
  induction l as [|a' l IH]; intros b; [by apply elem_of_nil in Hin|].
  simpl. destruct (f b a') as [b'|e] eqn:Hf; simpl; [|by eexists].
  apply elem_of_cons in Hin as [->|Hin]; [|by apply IH].
  destruct (Hraise b) as [e He]. congruence.
Qed.

(** X6.  In transmittance mode a grid without a light path cannot be
    unpacked into keys and values: the loop body raises [ValueError] at
    such a grid, and [leed_states_schedule] does not return once the filter
    selects one. *)
Theorem grid_without_light_path_raises (ext : collaborators)
    (results : AnnualDaylight) (grids_filter : string)
    (shade_transmittance : shade_input) (grid_info : grid_info) :
  light_paths_of grid_info = [] →
  (∀ occ_mask acc,
     grid_step ext results shade_transmittance false occ_mask acc grid_info
     = Raise ValueError) ∧
  (grid_info ∈ _filter_grids results grids_filter →
   ∃ e, leed_states_schedule ext results grids_filter shade_transmittance
          false = Raise e).
Proof.
  intros Hempty.
  assert (Hstep : ∀ occ_mask acc,
            grid_step ext results shade_transmittance false occ_mask acc
              grid_info = Raise ValueError).
  { intros occ_mask [[ss ftc] shd]. unfold grid_step, grid_combinations.
    rewrite Hempty. by destruct shade_transmittance. }
  split; [done|]. intros Hin. unfold leed_states_schedule.
  destruct (foldlM_Raise
              (grid_step ext results shade_transmittance false
                 (filter_schedule_by_hours ext (sun_up_hours results)))
              (_filter_grids results grids_filter) grid_info ([], [], ∅) Hin)
    as [e He].
  - intros b. eexists. apply Hstep.
  - rewrite He. by eexists.
Qed.

Lemma grid_without_light_path_raises_witness :
  (∀ occ_mask acc,
     grid_step sample.ext sample_runs.bare_results
       (ShdScalar default_shd_trans) false occ_mask acc sample_runs.bare_grid
     = Raise ValueError) ∧
  ∃ e, leed_states_schedule sample.ext sample_runs.bare_results "*"
         (ShdScalar default_shd_trans) false = Raise e.
Proof.
  destruct (grid_without_light_path_raises sample.ext sample_runs.bare_results
              "*" (ShdScalar default_shd_trans) sample_runs.bare_grid)
    as [Hstep Hrun]; [reflexivity|].
  split; [exact Hstep|]. apply Hrun. right. left.
Defined.

(** ** The schedule of one grid *)

Lemma select_length {A} (mask : list Z) (row : list A) :
  length mask = length row →
  length (np.select mask row) = length (filter np.truthy mask).
Proof.
  unfold np.select. rewrite length_fmap. revert row.
  induction mask as [|m mask IH]; intros [|x row] Hlen; try done.
  simpl in Hlen. cbn [zip zip_with].
  rewrite (filter_cons _ (x, m)), (filter_cons _ m). cbn [snd].
  destruct (decide (np.truthy m)); simpl; rewrite IH by lia; done.
Qed.

Lemma selected_length results grid_info use_states combinations occ_mask
    trace :
  exhaustive_trace results grid_info use_states combinations occ_mask
  = Ok trace →
  length (tr_selected trace) = length (filter np.truthy occ_mask).
Proof.
  intros Htrace.
  destruct (exhaustive_trace_Ok _ _ _ _ _ _ Htrace)
    as (_ & _ & _ & Hnc & Hne & Hmax & Hsel).
  apply mapM_Ok_length in Hsel, Hmax. rewrite Hsel, Hmax.
  unfold np.columns. rewrite length_fmap, length_seq.
  destruct (tr_percentages trace) as [|row0 pcts]; [done|].
  simpl in *. rewrite select_length; [done|]. by rewrite length_map.
Qed.

Lemma merge_combinations_static selected schedule :
  odict.get static_apertures (merge_combinations selected schedule)
  = odict.get static_apertures schedule.
Proof.
  unfold merge_combinations. revert schedule.
  induction selected as [|c selected IH]; intros schedule; [done|].
  cbn [foldl]. rewrite IH. clear IH. revert schedule.
  induction c as [|[k v] c IH]; intros schedule; [done|].
  cbn [foldl]. rewrite IH. case_decide; [|done].
  by rewrite append_get, decide_False.
Qed.

Lemma product_elem {A} (pools : list (list A)) v :
  v ∈ product pools → Forall2 (λ x pool, x ∈ pool) v pools.
Proof.
  revert v. induction pools as [|pool pools IH]; intros v; simpl.
  - intros ->%list_elem_of_singleton. constructor.
  - intros (x & (w & -> & Hw)%list_elem_of_fmap & Hx)%list_elem_of_bind.
    constructor; auto.
Qed.

Lemma get_zip_pool {V} (d : odict.t (list V)) (v : list V) k x :
  Forall2 (λ x pool, x ∈ pool) v (odict.values d) →
  odict.get k (zip (odict.keys d) v) = Some x →
  ∃ pool, odict.get k d = Some pool ∧ x ∈ pool.
Proof.
  unfold odict.keys, odict.values. revert v.
  induction d as [|[k' pool] d IH]; intros v Hall Hget.
  - done.
  - rewrite fmap_cons in Hall. apply Forall2_cons_inv_r in Hall
      as (y & v' & Hy & Hall & ->).
    simpl in *. destruct (decide (k' = k)) as [->|Hne].
    + injection Hget as <-. eauto.
    + eauto.
Qed.

Lemma extend_None values : default [] (extend None values) = values.
Proof. by destruct values. Qed.

(** The values that the selected combinations hold for a light path of
    the grid in transmittance mode. *)
Lemma selected_values results grid_info shade_transmittance shd_trans_dict
    shd_trans_dict' combinations occ_mask trace light_path :
  grid_combinations results grid_info (light_paths_of grid_info)
    shade_transmittance false shd_trans_dict
  = Ok (combinations, shd_trans_dict') →
  exhaustive_trace results grid_info false combinations occ_mask = Ok trace →
  light_path ∈ light_paths_of grid_info →
  shd_trans_dict' !! light_path
  = Some (resolved_multiplier shade_transmittance light_path) ∧
  length (tr_selected trace ≫= values_for light_path)
  = length (filter np.truthy occ_mask) ∧
  Forall (λ value,
            value = 1 ∨
            value = resolved_multiplier shade_transmittance light_path)
         (tr_selected trace ≫= values_for light_path).
Proof.
  intros Hcomb Htrace Hin. rename light_path into lp.
  unfold grid_combinations in Hcomb.
  destruct (shade_transmittance_per_light_path _ _ _) as [sts shd] eqn:Hres.
  apply bind_Ok in Hcomb as (combos & Hcomb & Hret).
  injection Hret as -> ->.
  assert (Hsts : sts = (shade_transmittance_per_light_path
                          (light_paths_of grid_info) shade_transmittance
                          shd_trans_dict).1) by by rewrite Hres.
  assert (Hshd : shd_trans_dict'
                 = (shade_transmittance_per_light_path
                      (light_paths_of grid_info) shade_transmittance
                      shd_trans_dict).2) by by rewrite Hres.
  assert (Hdict : shd_trans_dict' !! lp
                  = Some (resolved_multiplier shade_transmittance lp)).
  { rewrite Hshd, shade_transmittance_foldl.
    destruct (shade_transmittance_fold shade_transmittance
                (light_paths_of grid_info) [] shd_trans_dict lp) as [_ H].
    by rewrite decide_True in H. }
  destruct (resolver_keys_spec (light_paths_of grid_info) shade_transmittance
              shd_trans_dict) as (Hnd & Hkeys & _).
  rewrite <- Hsts in Hnd, Hkeys.
  assert (Hpool : odict.get lp sts
                  = Some [1; resolved_multiplier shade_transmittance lp]).
  { rewrite Hsts, shade_transmittance_foldl.
    destruct (shade_transmittance_fold shade_transmittance
                (light_paths_of grid_info) [] shd_trans_dict lp) as [H _].
    by rewrite decide_True in H. }
  assert (Hc : combinations
               = (λ v, zip (odict.keys sts) v) <$> product (odict.values sts)).
  { unfold transmittance_combinations in Hcomb.
    destruct sts; [done | by injection Hcomb]. }
  assert (Hone : Forall (λ c, ∃ v, values_for lp c = [v] ∧
                    (v = 1 ∨ v = resolved_multiplier shade_transmittance lp))
                   (tr_selected trace)).
  { apply list.Forall_forall. intros c Hc_sel.
    apply (selected_in_combinations _ _ _ _ _ _ Htrace) in Hc_sel.
    rewrite Hc in Hc_sel.
    apply list_elem_of_fmap in Hc_sel as (v & -> & Hv).
    assert (Hk : odict.keys (zip (odict.keys sts) v) = odict.keys sts).
    { apply fst_zip. apply product_length in Hv.
      unfold odict.keys, odict.values in *. rewrite Hv, !length_fmap. done. }
    destruct (odict.get lp (zip (odict.keys sts) v)) as [x|] eqn:Hx.
    - exists x. split.
      + apply values_for_unique; [by rewrite Hk | done].
      + destruct (get_zip_pool sts v lp x (product_elem _ _ Hv) Hx)
          as (pool & Hp & Hxin).
        rewrite Hpool in Hp. injection Hp as <-.
        apply elem_of_cons in Hxin as [->|Hxin]; [by left|].
        apply list_elem_of_singleton in Hxin as ->. by right.
    - apply get_None_not_key in Hx. rewrite Hk in Hx.
      exfalso. apply Hx, Hkeys, Hin. }
  split; [done|].
  rewrite <- (selected_length _ _ _ _ _ _ Htrace).
  clear Htrace. induction Hone as [|c sel (v & Hv & Hcase) _ [IH1 IH2]].
  - split; [done | constructor].
  - change ((c :: sel) ≫= values_for lp)
      with (values_for lp c ++ (sel ≫= values_for lp)).
    rewrite Hv. simpl. split; [by rewrite IH1|]. by constructor.
Qed.

(** X7.  In transmittance mode the exhaustive search gives every light
    path of the grid, the static apertures apart, one schedule value per
    occupied sun-up hour, and each of these values is 1 or the multiplier
    that the returned map records for the light path; the static apertures
    get no schedule. *)
Theorem grid_schedule_shape (results : AnnualDaylight)
    (grid_info : grid_info) (shade_transmittance : shade_input)
    (shd_trans_dict shd_trans_dict' : gmap string Qc)
    (combinations : list (odict.t Qc)) (occ_mask : list Z)
    (fail_to_comply fail_to_comply' : odict.t (list Z))
    (grid_states_schedule : odict.t (list Qc)) :
  grid_combinations results grid_info (light_paths_of grid_info)
    shade_transmittance false shd_trans_dict
  = Ok (combinations, shd_trans_dict') →
  exhaustive_search results grid_info false combinations occ_mask []
    fail_to_comply
  = Ok (grid_states_schedule, fail_to_comply') →
  odict.get static_apertures grid_states_schedule = None ∧
  ∀ light_path,
    light_path ∈ light_paths_of grid_info →
    light_path ≠ static_apertures →
    length (default [] (odict.get light_path grid_states_schedule))
    = length (filter np.truthy occ_mask) ∧
    Forall (λ value, value = 1 ∨ shd_trans_dict' !! light_path = Some value)
           (default [] (odict.get light_path grid_states_schedule)).
Proof.
  intros Hcomb Hsearch.
  unfold exhaustive_search in Hsearch.
  apply bind_Ok in Hsearch as (trace & Htrace & Hret).
  injection Hret as <- _.
  split; [apply merge_combinations_static|].
  intros lp Hin Hlp. rewrite merge_combinations_get by done.
  change (odict.get lp []) with (@None (list Qc)). rewrite extend_None.
  destruct (selected_values _ _ _ _ _ _ _ _ _ Hcomb Htrace Hin)
    as (Hdict & Hlen & Hvals).
  split; [done|]. eapply list.Forall_impl; [exact Hvals|].
  intros x [->| ->]; [by left | by right].
Qed.

Lemma grid_schedule_shape_witness :
  odict.get static_apertures sample_runs.searched.1 = None ∧
  ∀ light_path,
    light_path ∈ light_paths_of sample.grid →
    light_path ≠ static_apertures →
    length (default [] (odict.get light_path sample_runs.searched.1))
    = length (filter np.truthy [1; 1; 1]%Z) ∧
    Forall (λ value,
              value = 1 ∨ sample_runs.combinations.2 !! light_path = Some value)
           (default [] (odict.get light_path sample_runs.searched.1)).
Proof.
  apply (grid_schedule_shape sample.results sample.grid
           (ShdScalar default_shd_trans) ∅ sample_runs.combinations.2
           sample_runs.combinations.1 [1; 1; 1]%Z [] sample_runs.searched.2
           sample_runs.searched.1).
  - vm_compute. reflexivity.
  - vm_compute. reflexivity.
Defined.

(** ** Invariants of the loop over the grids *)

Lemma foldlM_Ok_invariant_in {A B} (f : B → A → result B) (P : B → Prop)
    (l : list A) (b b' : B) :
  (∀ b a b', a ∈ l → P b → f b a = Ok b' → P b') →
  P b → foldlM f b l = Ok b' → P b'.
Proof.
  revert b. induction l as [|a l IH]; intros b Hstep Hb Hrun.
  - by injection Hrun as <-.
  - simpl in Hrun. apply bind_Ok in Hrun as (b1 & H1 & Hrun).
    apply (IH b1); [|by eapply Hstep; [left|..]|done].
    intros b2 a2 b3 Hin. apply Hstep. by right.
Qed.

Lemma leed_states_schedule_Ok ext results grids_filter shade_transmittance
    use_states states_schedule fail_to_comply shd_trans_dict :
  leed_states_schedule ext results grids_filter shade_transmittance use_states
  = Ok (states_schedule, fail_to_comply, shd_trans_dict) →
  ∃ schedule,
    foldlM (grid_step ext results shade_transmittance use_states
              (filter_schedule_by_hours ext (sun_up_hours results)))
           ([], [], ∅) (_filter_grids results grids_filter)
    = Ok (schedule, fail_to_comply, shd_trans_dict) ∧
    states_schedule = map_to_annual ext results schedule.
Proof.
  unfold leed_states_schedule. intros Hrun.
  apply bind_Ok in Hrun as ([[ss ftc] shd] & Hfold & Hret).
  injection Hret as <- <- <-. by exists ss.
Qed.

Lemma failing_hoys_elem sun_up_hours grid_comply hoys h :
  failing_hoys sun_up_hours grid_comply = Ok hoys → h ∈ hoys →
  ∃ hoy, hoy ∈ sun_up_hours ∧ int_of hoy = h.
Proof.
  intros Hfail (i & Hi)%list_elem_of_lookup_1.
  destruct (mapM_Ok_lookup_r _ _ _ _ _ Hfail Hi) as (j & _ & Hj).
  destruct (sun_up_hours !! j) as [hoy|] eqn:Hhoy; [|done].
  injection Hj as <-. exists hoy. split; [|done].
  by eapply list_elem_of_lookup_2.
Qed.

(** X8.  When every grid that the filter selects has at most six light
    paths, the record that [leed_states_schedule] returns holds, under the
    name of a selected grid only, a list of hours that is never empty, and
    every hour of it is the truncated hour of the year of a sun-up hour. *)
Theorem fail_to_comply_record_invariant (ext : collaborators)
    (results : AnnualDaylight) (grids_filter : string)
    (shade_transmittance : shade_input) (use_states : bool)
    (states_schedule : odict.t (list Qc)) (fail_to_comply : odict.t (list Z))
    (shd_trans_dict : gmap string Qc) :
  (∀ grid_info, grid_info ∈ _filter_grids results grids_filter →
                (length (light_paths_of grid_info) ≤ 6)%nat) →
  leed_states_schedule ext results grids_filter shade_transmittance use_states
  = Ok (states_schedule, fail_to_comply, shd_trans_dict) →
  ∀ name hoys,
    odict.get name fail_to_comply = Some hoys →
    hoys ≠ [] ∧
    (∃ grid_info, grid_info ∈ _filter_grids results grids_filter ∧
                  gi_name grid_info = name) ∧
    ∀ h, h ∈ hoys → ∃ hoy, hoy ∈ sun_up_hours results ∧ int_of hoy = h.
Proof.
  intros Hsix Hrun.
  apply leed_states_schedule_Ok in Hrun as (schedule & Hfold & _).
  revert Hfold.
  apply (foldlM_Ok_invariant_in _
           (λ acc : schedule_state,
              ∀ name hoys,
                odict.get name acc.1.2 = Some hoys →
                hoys ≠ [] ∧
                (∃ grid_info,
                   grid_info ∈ _filter_grids results grids_filter ∧
                   gi_name grid_info = name) ∧
                ∀ h, h ∈ hoys →
                     ∃ hoy, hoy ∈ sun_up_hours results ∧ int_of hoy = h)
           _ ([], [], ∅) (schedule, fail_to_comply, shd_trans_dict));
    [|done].
  intros [[ss ftc] shd] grid_info acc' Hin Hinv Hstep.
  destruct (grid_step_exhaustive _ _ _ _ _ _ _ _ _ _ (Hsix _ Hin) Hstep)
    as (combinations & shd' & trace & _ & Htrace & ->).
  cbn [fst snd] in *. intros name hoys.
  destruct (exhaustive_trace_Ok _ _ _ _ _ _ Htrace)
    as (_ & _ & Hfail & _).
  destruct (tr_failing trace) as [|h0 failing] eqn:Hfailing; [apply Hinv|].
  destruct (decide (gi_name grid_info = name)) as [<-|Hne].
  - rewrite odict_facts.get_set_eq. intros [= <-].
    split_and!; [done | by exists grid_info |].
    intros h Hh. by eapply failing_hoys_elem.
  - rewrite odict_facts.get_set_ne by done. apply Hinv.
Qed.

Lemma sample_grids_are_searched grid_info :
  grid_info ∈ _filter_grids sample.results "*" →
  (length (light_paths_of grid_info) ≤ 6)%nat.
Proof.
  intros Hin. apply list_elem_of_singleton in Hin as ->. vm_compute. lia.
Defined.

Lemma fail_to_comply_record_invariant_witness :
  odict.get "G" sample_runs.schedule.1.2 = Some [8%Z] ∧
  [8%Z] ≠ [] ∧
  (∃ grid_info, grid_info ∈ _filter_grids sample.results "*" ∧
                gi_name grid_info = "G") ∧
  ∀ h, h ∈ [8%Z] → ∃ hoy, hoy ∈ sun_up_hours sample.results ∧ int_of hoy = h.
Proof.
  split; [vm_compute; reflexivity|].
  apply (fail_to_comply_record_invariant sample.ext sample.results "*"
           (ShdScalar default_shd_trans) false sample_runs.schedule.1.1
           sample_runs.schedule.1.2 sample_runs.schedule.2).
  - exact sample_grids_are_searched.
  - vm_compute. reflexivity.
  - vm_compute. reflexivity.
Defined.

Lemma merge_grid_schedule_keys use_states states_schedule grid_states_schedule
    key :
  is_Some (odict.get key
             (merge_grid_schedule use_states states_schedule
                grid_states_schedule)) →
  is_Some (odict.get key states_schedule) ∨
  key ∈ odict.keys grid_states_schedule.
Proof.
  unfold merge_grid_schedule, odict.keys. revert states_schedule.
  induction grid_states_schedule as [|[k v] g IH]; intros ss Hsome;
    [by left|].
  cbn [foldl] in Hsome. apply IH in Hsome as [Hsome|Hin].
  - destruct (decide (k = key)) as [->|Hne]; [right; by left|].
    left. destruct (odict.get k ss);
      by rewrite odict_facts.get_set_ne in Hsome.
  - right. by right.
Qed.

Lemma map_to_annual_get ext results states_schedule key :
  is_Some (odict.get key (map_to_annual ext results states_schedule))
  ↔ is_Some (odict.get key states_schedule).
Proof.
  unfold map_to_annual. induction states_schedule as [|[k v] d IH]; [done|].
  simpl. destruct (decide (k = key)); [|done].
  split; intros _; by eexists.
Qed.

Lemma merge_combinations_keys selected key :
  key ∈ odict.keys (merge_combinations selected []) →
  key ≠ static_apertures ∧
  ∃ combination, combination ∈ selected ∧ key ∈ odict.keys combination.
Proof.
  intros Hkey.
  assert (Hsome : is_Some (odict.get key (merge_combinations selected []))).
  { destruct (odict.get key (merge_combinations selected [])) eqn:Hget;
      [by eexists|].
    by apply get_None_not_key in Hget. }
  destruct (decide (key = static_apertures)) as [->|Hne].
  { rewrite merge_combinations_static in Hsome. by destruct Hsome. }
  split; [done|]. rewrite merge_combinations_get in Hsome by done.
  change (odict.get key []) with (@None (list Qc)) in Hsome.
  destruct (selected ≫= values_for key) as [|v vs] eqn:Hvs;
    [by destruct Hsome|].
  assert (Hv : v ∈ selected ≫= values_for key) by (rewrite Hvs; by left).
  apply list_elem_of_bind in Hv as (c & Hv & Hc). exists c. split; [done|].
  destruct (decide (key ∈ odict.keys c)) as [|Hnin]; [done|].
  rewrite values_for_absent in Hv by done. by apply elem_of_nil in Hv.
Qed.

(** X9.  Whatever the mode, when every selected grid has at most six
    light paths the schedule that [leed_states_schedule] returns has no
    entry for the static apertures. *)
Theorem static_apertures_never_scheduled (ext : collaborators)
    (results : AnnualDaylight) (grids_filter : string)
    (shade_transmittance : shade_input) (use_states : bool)
    (states_schedule : odict.t (list Qc)) (fail_to_comply : odict.t (list Z))
    (shd_trans_dict : gmap string Qc) :
  (∀ grid_info, grid_info ∈ _filter_grids results grids_filter →
                (length (light_paths_of grid_info) ≤ 6)%nat) →
  leed_states_schedule ext results grids_filter shade_transmittance use_states
  = Ok (states_schedule, fail_to_comply, shd_trans_dict) →
  odict.get static_apertures states_schedule = None.
Proof.
  intros Hsix Hrun.
  apply leed_states_schedule_Ok in Hrun as (schedule & Hfold & ->).
  destruct (odict.get static_apertures (map_to_annual ext results schedule))
    eqn:Hget; [|done].
  exfalso.
  assert (Hsome : is_Some (odict.get static_apertures schedule))
    by (apply (map_to_annual_get ext results); by eexists).
  revert Hsome. clear Hget. revert Hfold.
  apply (foldlM_Ok_invariant_in _
           (λ acc : schedule_state,
              ¬ is_Some (odict.get static_apertures acc.1.1))
           _ ([], [], ∅) (schedule, fail_to_comply, shd_trans_dict));
    [|by intros [? ?]].
  intros [[ss ftc] shd] grid_info acc' Hin Hinv Hstep.
  destruct (grid_step_exhaustive _ _ _ _ _ _ _ _ _ _ (Hsix _ Hin) Hstep)
    as (combinations & shd' & trace & _ & Htrace & ->).
  cbn [fst snd] in *.
  intros [Hsome|Hkey]%merge_grid_schedule_keys; [by apply Hinv|].
  by apply merge_combinations_keys in Hkey as [Hne _].
Qed.

Lemma static_apertures_never_scheduled_witness :
  odict.get static_apertures sample_runs.schedule.1.1 = None.
Proof.
  apply (static_apertures_never_scheduled sample.ext sample.results "*"
           (ShdScalar default_shd_trans) false sample_runs.schedule.1.1
           sample_runs.schedule.1.2 sample_runs.schedule.2).
  - exact sample_grids_are_searched.
  - vm_compute. reflexivity.
Defined.

(** ** The conversion to data collections *)

Lemma resolver_dict_is_Some light_paths shade_transmittance shd_trans_dict key :
  is_Some (shd_trans_dict !! key) ∨ key ∈ light_paths →
  is_Some ((shade_transmittance_per_light_path light_paths shade_transmittance
              shd_trans_dict).2 !! key).
Proof.
  intros Hcase. rewrite shade_transmittance_foldl.
  destruct (shade_transmittance_fold shade_transmittance light_paths []
              shd_trans_dict key) as [_ Hdict].
  destruct (decide (key ∈ light_paths)); [by eexists|].
  destruct Hcase as [[t Ht]|]; [|done].
  exists t. by etrans; [exact Hdict|].
Qed.

Lemma get_is_Some_key {V} key (d : odict.t V) :
  is_Some (odict.get key d) ↔ key ∈ odict.keys d.
Proof.
  destruct (odict.get key d) eqn:Hget.
  - split; [|by eexists]. intros _.
    destruct (decide (key ∈ odict.keys d)) as [|Hnin]; [done|].
    apply get_None_not_key in Hnin. congruence.
  - split; [by intros [? ?]|]. intros Hin.
    by apply get_None_not_key in Hget.
Qed.

Lemma schedule_datacollections_Ok shd_trans_dict
    (states_schedule : odict.t (list Qc)) :
  (∀ key, key ∈ odict.keys states_schedule → is_Some (shd_trans_dict !! key)) →
  ∃ collections,
    schedule_datacollections shd_trans_dict states_schedule = Ok collections ∧
    odict.keys collections = odict.keys states_schedule.
Proof.
  unfold schedule_datacollections, odict.keys.
  induction states_schedule as [|[k v] ss IH]; intros Hkeys.
  - by exists [].
  - destruct IH as (cs & Hcs & Hk); [intros key Hin; apply Hkeys; by right|].
    destruct (Hkeys k) as [t Ht]; [by left|].
    eexists. split.
    + apply mapM_Ok_cons. eexists _, cs. split_and!; [|exact Hcs|done].
      unfold to_datacollection. rewrite Ht. simpl. done.
    + rewrite !fmap_cons. by f_equal.
Qed.

(** X10.  In transmittance mode, when every selected grid has at most
    six light paths, every aperture group of the schedule that
    [leed_states_schedule] returns has its multiplier in the returned map,
    so the conversion of that schedule to data collections raises no
    [KeyError] and keeps the aperture groups in their order. *)
Theorem schedule_converts_to_datacollections (ext : collaborators)
    (results : AnnualDaylight) (grids_filter : string)
    (shade_transmittance : shade_input)
    (states_schedule : odict.t (list Qc)) (fail_to_comply : odict.t (list Z))
    (shd_trans_dict : gmap string Qc) :
  (∀ grid_info, grid_info ∈ _filter_grids results grids_filter →
                (length (light_paths_of grid_info) ≤ 6)%nat) →
  leed_states_schedule ext results grids_filter shade_transmittance false
  = Ok (states_schedule, fail_to_comply, shd_trans_dict) →
  (∀ aperture_group,
     aperture_group ∈ odict.keys states_schedule →
     is_Some (shd_trans_dict !! aperture_group)) ∧
  ∃ collections,
    schedule_datacollections shd_trans_dict states_schedule = Ok collections ∧
    odict.keys collections = odict.keys states_schedule.
Proof.
  intros Hsix Hrun.
  assert (Hkeys : ∀ aperture_group,
            aperture_group ∈ odict.keys states_schedule →
            is_Some (shd_trans_dict !! aperture_group)).
  { apply leed_states_schedule_Ok in Hrun as (schedule & Hfold & ->).
    intros key Hkey. apply get_is_Some_key, map_to_annual_get in Hkey.
    revert key Hkey. revert Hfold.
    apply (foldlM_Ok_invariant_in _
             (λ acc : schedule_state,
                ∀ key, is_Some (odict.get key acc.1.1) →
                       is_Some (acc.2 !! key))
             _ ([], [], ∅) (schedule, fail_to_comply, shd_trans_dict));
      [|by intros key [? ?]].
    intros [[ss ftc] shd] grid_info acc' Hin Hinv Hstep.
    destruct (grid_step_exhaustive _ _ _ _ _ _ _ _ _ _ (Hsix _ Hin) Hstep)
      as (combinations & shd' & trace & Hcomb & Htrace & ->).
    cbn [fst snd] in *. intros key Hkey.
    unfold grid_combinations in Hcomb.
    destruct (shade_transmittance_per_light_path (light_paths_of grid_info)
                shade_transmittance
                (shade_transmittance_per_light_path
                   (light_paths_of grid_info) shade_transmittance shd).2)
      as [sts shd2] eqn:Hres.
    apply bind_Ok in Hcomb as (combos & Hcomb & Hret).
    injection Hret as -> ->.
    assert (Hshd : shd' = (shade_transmittance_per_light_path
                             (light_paths_of grid_info) shade_transmittance
                             (shade_transmittance_per_light_path
                                (light_paths_of grid_info) shade_transmittance
                                shd).2).2) by by rewrite Hres.
    rewrite Hshd.
    apply merge_grid_schedule_keys in Hkey as [Hsome|Hkey].
    - do 2 (apply resolver_dict_is_Some; left). by apply Hinv.
    - apply resolver_dict_is_Some. right.
      apply merge_combinations_keys in Hkey as (_ & c & Hc & Hkey).
      apply (selected_in_combinations _ _ _ _ _ _ Htrace) in Hc.
      assert (Hfst : transmittance_combinations
                (shade_transmittance_per_light_path
                   (light_paths_of grid_info) shade_transmittance
                   (shade_transmittance_per_light_path
                      (light_paths_of grid_info) shade_transmittance shd).2).1
              = Ok combinations) by by rewrite Hres.
      destruct (resolver_keys_spec (light_paths_of grid_info)
                  shade_transmittance
                  (shade_transmittance_per_light_path
                     (light_paths_of grid_info) shade_transmittance shd).2)
        as (_ & Hlp & _).
      rewrite Hres in Hlp. cbn [fst] in Hlp. apply Hlp.
      unfold transmittance_combinations in Hcomb.
      assert (combinations
              = (λ v, zip (odict.keys sts) v) <$> product (odict.values sts))
        as -> by (destruct sts; [done | by injection Hcomb]).
      apply list_elem_of_fmap in Hc as (v & -> & Hv).
      assert (Hk : odict.keys (zip (odict.keys sts) v) = odict.keys sts).
      { apply fst_zip. apply product_length in Hv.
        unfold odict.keys, odict.values in *. rewrite Hv, !length_fmap.
        done. }
      by rewrite Hk in Hkey. }
  split; [done|]. by apply schedule_datacollections_Ok.
Qed.

Lemma schedule_converts_to_datacollections_witness :
  (∀ aperture_group,
     aperture_group ∈ odict.keys sample_runs.schedule.1.1 →
     is_Some (sample_runs.schedule.2 !! aperture_group)) ∧
  ∃ collections,
    schedule_datacollections sample_runs.schedule.2 sample_runs.schedule.1.1
    = Ok collections ∧
    odict.keys collections = odict.keys sample_runs.schedule.1.1.
Proof.
  apply (schedule_converts_to_datacollections sample.ext sample.results "*"
           (ShdScalar default_shd_trans) sample_runs.schedule.1.1
           sample_runs.schedule.1.2 sample_runs.schedule.2).
  - exact sample_grids_are_searched.
  - vm_compute. reflexivity.
Defined.

(** X11.  In transmittance mode [to_datacollection] turns the schedule
    of an aperture group whose recorded multiplier is neither 0 nor 1 into
    shading flags: the collection carries the multiplier as its shade
    transmittance, has one value per value of the schedule, holds 1 exactly
    at the hours at which the schedule holds the multiplier, holds 0 where
    the schedule holds 1, and leaves any other value as it is. *)
Theorem to_datacollection_flags (shd_trans_dict : gmap string Qc)
    (aperture_group : string) (values : list Qc) (shd_trans : Qc) :
  shd_trans_dict !! aperture_group = Some shd_trans →
  shd_trans ≠ 0 → shd_trans ≠ 1 →
  ∃ collection,
    to_datacollection false shd_trans_dict aperture_group values
    = Ok collection ∧
    dc_shade_transmittance collection = Some shd_trans ∧
    length (dc_values collection) = length values ∧
    (∀ i, dc_values collection !! i = Some 1 ↔ values !! i = Some shd_trans) ∧
    (∀ i, values !! i = Some 1 → dc_values collection !! i = Some 0) ∧
    (∀ i v, values !! i = Some v → v ≠ 1 → v ≠ shd_trans →
            dc_values collection !! i = Some v).
Proof.
  intros Hdict H0 H1. unfold to_datacollection. rewrite Hdict.
  eexists. split; [done|]. cbn [dc_shade_transmittance dc_values].
  split_and!; [done | by rewrite !length_fmap | ..].
  - intros i. rewrite !list_lookup_fmap.
    destruct (values !! i) as [v|]; simpl; [|done].
    destruct (decide (v = 1)) as [->|Hv1].
    + rewrite decide_False by done. split; intros [=]; congruence.
    + destruct (decide (v = shd_trans)) as [->|Hvt]; [done|].
      split; intros [=]; congruence.
  - intros i Hi. rewrite !list_lookup_fmap, Hi. simpl.
    destruct (decide ((1 : Qc) = 1)); [|done]. by rewrite decide_False.
  - intros i v Hi Hv1 Hvt. rewrite !list_lookup_fmap, Hi. simpl.
    destruct (decide (v = 1)); [done|]. by rewrite decide_False.
Qed.

Lemma to_datacollection_flags_witness :
  ∃ collection,
    to_datacollection false {[ "A" := default_shd_trans ]} "A"
      [1; default_shd_trans; 0]
    = Ok collection ∧
    dc_shade_transmittance collection = Some default_shd_trans ∧
    length (dc_values collection) = length [1; default_shd_trans; 0] ∧
    (∀ i, dc_values collection !! i = Some 1
          ↔ [1; default_shd_trans; 0] !! i = Some default_shd_trans) ∧
    (∀ i, [1; default_shd_trans; 0] !! i = Some 1 →
          dc_values collection !! i = Some 0) ∧
    (∀ i v, [1; default_shd_trans; 0] !! i = Some v → v ≠ 1 →
            v ≠ default_shd_trans → dc_values collection !! i = Some v).
Proof.
  apply (to_datacollection_flags {[ "A" := default_shd_trans ]} "A"
           [1; default_shd_trans; 0] default_shd_trans).
  - reflexivity.
  - by apply (bool_decide_unpack _).
  - by apply (bool_decide_unpack _).
Defined.

(** X12.  The two multipliers for which the flags of [to_datacollection]
    say nothing.  With the recorded multiplier 1 no value of the collection
    is 1, so shading is never reported; with the recorded multiplier 0
    every hour whose schedule value is 0 or 1 is reported as shaded. *)
Theorem to_datacollection_degenerate (shd_trans_dict : gmap string Qc)
    (aperture_group : string) (values : list Qc) (shd_trans : Qc) :
  shd_trans_dict !! aperture_group = Some shd_trans →
  ∃ collection,
    to_datacollection false shd_trans_dict aperture_group values
    = Ok collection ∧
    (shd_trans = 1 → Forall (λ v, v ≠ 1) (dc_values collection)) ∧
    (shd_trans = 0 →
     ∀ i v, values !! i = Some v → v = 0 ∨ v = 1 →
            dc_values collection !! i = Some 1).
Proof.
  intros Hdict. unfold to_datacollection. rewrite Hdict.
  eexists. split; [done|]. cbn [dc_values]. split.
  - intros ->. apply Forall_fmap, Forall_fmap, list.Forall_forall.
    intros v _. simpl. destruct (decide (v = 1)) as [->|Hv].
    + rewrite decide_False by (symmetry; apply Qc_1_neq_0).
      symmetry. apply Qc_1_neq_0.
    + by rewrite decide_False.
  - intros -> i v Hi Hv. rewrite !list_lookup_fmap, Hi. simpl.
    destruct (decide (v = 1)) as [->|Hv1].
    + by rewrite decide_True.
    + destruct Hv as [->|]; [|done]. by rewrite decide_True.
Qed.

Lemma to_datacollection_degenerate_witness :
  ∃ collection,
    to_datacollection false {[ "A" := 0 ]} "A" [1; 0] = Ok collection ∧
    ((0 : Qc) = 1 → Forall (λ v, v ≠ 1) (dc_values collection)) ∧
    ((0 : Qc) = 0 →
     ∀ i v, [1; 0] !! i = Some v → v = 0 ∨ v = 1 →
            dc_values collection !! i = Some 1).
Proof.
  apply (to_datacollection_degenerate {[ "A" := 0 ]} "A" [1; 0] 0).
  reflexivity.
Defined.

(** ** The merge across grids, hour by hour *)

(** X13.  Where the building-wide dictionary and the schedule of a grid
    both hold an aperture group, with one value per occupied hour each, the
    merged schedule has one value per occupied hour again, and at every hour
    it is the smaller of the two multipliers in transmittance mode, and in
    state mode 1 when either state is not 0 and 0 when both are 0: the group
    is shaded as soon as one grid needs it shaded. *)
Theorem merged_schedule_keeps_the_shading (use_states : bool)
    (states_schedule grid_states_schedule : odict.t (list Qc))
    (key : string) (current value : list Qc) :
  NoDup (odict.keys grid_states_schedule) →
  odict.get key states_schedule = Some current →
  odict.get key grid_states_schedule = Some value →
  length current = length value →
  ∃ merged,
    odict.get key
      (merge_grid_schedule use_states states_schedule grid_states_schedule)
    = Some merged ∧
    length merged = length value ∧
    ∀ i x y,
      current !! i = Some x → value !! i = Some y →
      ∃ v, merged !! i = Some v ∧
           if use_states
           then (v = 1 ∧ (x ≠ 0 ∨ y ≠ 0)) ∨ (v = 0 ∧ x = 0 ∧ y = 0)
           else v ≤ x ∧ v ≤ y ∧ (v = x ∨ v = y).
Proof.
  intros Hnd Hcur Hval Hlen.
  rewrite merge_grid_schedule_get, Hval, Hcur by done.
  eexists. split; [done|]. split.
  { unfold merge_schedules. destruct use_states;
      rewrite length_zip_with; lia. }
  intros i x y Hx Hy.
  unfold merge_schedules. destruct use_states.
  - exists (np.logical_or x y). split.
    + by rewrite lookup_zip_with, Hx; simpl; rewrite Hy.
    + unfold np.logical_or. case_decide as Hor; [by left|]. right.
      split; [done|].
      destruct (decide (x = 0)), (decide (y = 0)); tauto.
  - exists (np.minimum x y). split.
    + by rewrite lookup_zip_with, Hx; simpl; rewrite Hy.
    + unfold np.minimum. case_decide as Hle.
      * split_and!; [apply Qcle_refl | done | by left].
      * split_and!; [|apply Qcle_refl | by right].
        apply Qclt_le_weak, Qcnot_le_lt, Hle.
Qed.

Lemma merged_schedule_keeps_the_shading_witness :
  ∃ merged,
    odict.get "A"
      (merge_grid_schedule false [("A", [1; default_shd_trans])]
         [("A", [default_shd_trans; 1])])
    = Some merged ∧
    length merged = length [default_shd_trans; 1] ∧
    ∀ i x y,
      [1; default_shd_trans] !! i = Some x →
      [default_shd_trans; 1] !! i = Some y →
      ∃ v, merged !! i = Some v ∧ v ≤ x ∧ v ≤ y ∧ (v = x ∨ v = y).
Proof.
  apply (merged_schedule_keeps_the_shading false
           [("A", [1; default_shd_trans])] [("A", [default_shd_trans; 1])]
           "A" [1; default_shd_trans] [default_shd_trans; 1]).
  - apply list.NoDup_singleton.
  - reflexivity.
  - reflexivity.
  - reflexivity.
Defined.

(** ** The summaries, grid by grid *)

Lemma create_grid_summary_fields ext grid_info sda up down ase pass_sda
    pass_ase total_floor (area_weighted : bool) :
  (_create_grid_summary ext grid_info sda up down ase pass_sda pass_ase
     total_floor area_weighted).1 = gi_full_id grid_info ∧
  (_create_grid_summary ext grid_info sda up down ase pass_sda pass_ase
     total_floor area_weighted).2 !! "sda" = Some (JNum (round2 ext sda)) ∧
  (_create_grid_summary ext grid_info sda up down ase pass_sda pass_ase
     total_floor area_weighted).2 !! "full_id"
  = Some (JStr (gi_full_id grid_info)) ∧
  (_create_grid_summary ext grid_info sda up down ase pass_sda pass_ase
     total_floor area_weighted).2 !! "name" = Some (JStr (gi_name grid_info)).
Proof.
  unfold _create_grid_summary. cbn [fst snd].
  split_and!; [done|..]; apply lookup_union_Some_l;
    destruct area_weighted; by simplify_map_eq.
Qed.

Lemma recursive_dict_merge_ok dict_1 entry :
  map_Forall grid_summary_ok dict_1 → grid_summary_ok entry.1 entry.2 →
  map_Forall grid_summary_ok (recursive_dict_merge dict_1 entry).
Proof.
  intros Hall [[x Hsda] Hid]. unfold recursive_dict_merge.
  destruct (dict_1 !! entry.1) as [present|] eqn:Hp.
  - apply map_Forall_insert_2; [|done]. split.
    + exists x. by apply lookup_union_Some_l.
    + by apply lookup_union_Some_l.
  - apply map_Forall_insert_2; [|done]. split; [by exists x | done].
Qed.

Lemma recursive_dict_merge_dom dict_1 entry grid_id :
  is_Some (recursive_dict_merge dict_1 entry !! grid_id)
  ↔ is_Some (dict_1 !! grid_id) ∨ grid_id = entry.1.
Proof.
  unfold recursive_dict_merge.
  destruct (dict_1 !! entry.1) as [present|] eqn:Hp;
    (destruct (decide (grid_id = entry.1)) as [->|Hne];
     [rewrite lookup_insert_eq; split; [by right | by eexists]
     |rewrite lookup_insert_ne by done; split; [by left | by intros [|]]]).
Qed.

Lemma area_step_Ok ext acc item acc' :
  area_step ext acc item = Ok acc' →
  ∃ grid_summary,
    grid_summary.1 = gi_full_id item.1.1.2 ∧
    grid_summary_ok grid_summary.1 grid_summary.2 ∧
    grids_done acc' = recursive_dict_merge (grids_done acc) grid_summary.
Proof.
  destruct item as [[[[[pa ps] ga] gi] up] down]. unfold area_step.
  case_decide; [done|]. intros [= <-]. cbn [grids_done fst snd].
  eexists. split_and!; [| |done].
  - apply create_grid_summary_fields.
  - split; [eexists|]; apply create_grid_summary_fields.
Qed.

Lemma count_step_grids ext acc item :
  ∃ grid_summary,
    grid_summary.1 = gi_full_id item.1.1.2 ∧
    grid_summary_ok grid_summary.1 grid_summary.2 ∧
    grids_done (count_step ext acc item)
    = recursive_dict_merge (grids_done acc) grid_summary.
Proof.
  destruct item as [[[[pa ps] gi] up] down]. cbn [count_step grids_done fst snd].
  eexists. split_and!; [| |done].
  - apply create_grid_summary_fields.
  - split; [eexists|]; apply create_grid_summary_fields.
Qed.

Lemma area_fold_grids ext items acc acc' :
  foldlM (area_step ext) acc items = Ok acc' →
  (map_Forall grid_summary_ok (grids_done acc) →
   map_Forall grid_summary_ok (grids_done acc')) ∧
  ∀ grid_id,
    is_Some (grids_done acc' !! grid_id)
    ↔ is_Some (grids_done acc !! grid_id) ∨
      grid_id ∈ (λ item, gi_full_id item.1.1.2) <$> items.
Proof.
  revert acc. induction items as [|item items IH]; intros acc Hrun.
  - injection Hrun as <-. split; [done|]. intros grid_id.
    rewrite fmap_nil, elem_of_nil. tauto.
  - simpl in Hrun. apply bind_Ok in Hrun as (acc1 & Hstep & Hrun).
    apply area_step_Ok in Hstep as (gs & Hid & Hok & Hdone).
    destruct (IH _ Hrun) as [IHok IHdom]. split.
    + intros Hall. apply IHok. rewrite Hdone.
      by apply recursive_dict_merge_ok.
    + intros grid_id. rewrite IHdom, Hdone, recursive_dict_merge_dom, Hid.
      rewrite fmap_cons, elem_of_cons. tauto.
Qed.

Lemma count_fold_grids ext items acc :
  (map_Forall grid_summary_ok (grids_done acc) →
   map_Forall grid_summary_ok (grids_done (foldl (count_step ext) acc items))) ∧
  ∀ grid_id,
    is_Some (grids_done (foldl (count_step ext) acc items) !! grid_id)
    ↔ is_Some (grids_done acc !! grid_id) ∨
      grid_id ∈ (λ item, gi_full_id item.1.1.2) <$> items.
Proof.
  revert acc. induction items as [|item items IH]; intros acc.
  - split; [done|]. intros grid_id. rewrite fmap_nil, elem_of_nil. simpl. tauto.
  - cbn [foldl].
    destruct (count_step_grids ext acc item) as (gs & Hid & Hok & Hdone).
    destruct (IH (count_step ext acc item)) as [IHok IHdom]. split.
    + intros Hall. apply IHok. rewrite Hdone.
      by apply recursive_dict_merge_ok.
    + intros grid_id. rewrite IHdom, Hdone, recursive_dict_merge_dom, Hid.
      rewrite fmap_cons, elem_of_cons. tauto.
Qed.

Lemma item_grid_fmap {A B C D} (items : list (A * B * C * D)) :
  (λ item : A * B * C * D, item.1.1.2) <$> items = items.*1.*1.*2.
Proof. by rewrite <- !list_fmap_compose. Qed.

(** The summary dictionaries of a run of [_leed_summary], and the items
    that its loop went through. *)
Lemma leed_summary_Ok ext pass_ase_grids pass_sda_grids grids_info grid_areas
    pass_sda_blinds_up_grids pass_sda_blinds_down_grids summary summary_grid :
  _leed_summary ext pass_ase_grids pass_sda_grids grids_info grid_areas
    pass_sda_blinds_up_grids pass_sda_blinds_down_grids
  = Ok (summary, summary_grid) →
  (∃ x, summary !! "sda" = Some (JNum x)) ∧
  map_Forall grid_summary_ok summary_grid ∧
  ∃ grids : list grid_info,
    (∀ grid_id, is_Some (summary_grid !! grid_id)
                ↔ grid_id ∈ gi_full_id <$> grids) ∧
    (∀ grid_info, grid_info ∈ grids → grid_info ∈ grids_info) ∧
    (length pass_ase_grids = length grids_info →
     length pass_sda_grids = length grids_info →
     length grid_areas = length grids_info →
     length pass_sda_blinds_up_grids = length grids_info →
     length pass_sda_blinds_down_grids = length grids_info →
     grids = grids_info).
Proof.
  unfold _leed_summary. intros Hrun. case_decide as Hareas.
  - apply bind_Ok in Hrun as (t & Hfold & Hrun).
    case_decide; [done|]. injection Hrun as <- <-.
    destruct (area_fold_grids _ _ _ _ Hfold) as [Hok Hdom].
    split_and!; [eexists; by simplify_map_eq | apply Hok, map_Forall_empty |].
    exists ((λ item : list bool * list bool * list Qc * grid_info * list bool
                      * list bool, item.1.1.2)
            <$> zip6 pass_ase_grids pass_sda_grids (default [] <$> grid_areas)
                  grids_info pass_sda_blinds_up_grids
                  pass_sda_blinds_down_grids).
    split_and!.
    + intros grid_id. rewrite Hdom, <- list_fmap_compose.
      cbn [grids_done]. rewrite lookup_empty. split; [|by right].
      by intros [[? [=]]|].
    + intros g (item & -> & Hitem)%list_elem_of_fmap.
      unfold zip6, zip5 in Hitem. destruct item as [[[[[pa ps] ga] gi] up] down].
      apply elem_of_zip_l, elem_of_zip_l, elem_of_zip_r in Hitem. done.
    + intros H1 H2 H3 H4 H5. unfold zip6, zip5.
      rewrite <- (length_fmap (default [])) in H3.
      etrans; [apply item_grid_fmap|].
      rewrite !fst_zip, snd_zip; [done|..]; rewrite ?length_zip; lia.
  - case_decide; [done|]. injection Hrun as <- <-.
    destruct (count_fold_grids ext
                (zip5 pass_ase_grids pass_sda_grids grids_info
                   pass_sda_blinds_up_grids pass_sda_blinds_down_grids)
                (Totals 0 0 0 ∅)) as [Hok Hdom].
    split_and!; [eexists; by simplify_map_eq | apply Hok, map_Forall_empty |].
    exists ((λ item : list bool * list bool * grid_info * list bool
                      * list bool, item.1.1.2)
            <$> zip5 pass_ase_grids pass_sda_grids grids_info
                  pass_sda_blinds_up_grids pass_sda_blinds_down_grids).
    split_and!.
    + intros grid_id. rewrite Hdom, <- list_fmap_compose.
      cbn [grids_done]. rewrite lookup_empty. split; [|by right].
      by intros [[? [=]]|].
    + intros g (item & -> & Hitem)%list_elem_of_fmap.
      unfold zip5 in Hitem. destruct item as [[[[pa ps] gi] up] down].
      apply elem_of_zip_l, elem_of_zip_l, elem_of_zip_r in Hitem. done.
    + intros H1 H2 H3 H4 H5. unfold zip5.
      etrans; [apply item_grid_fmap|].
      rewrite !fst_zip, snd_zip; [done|..]; rewrite ?length_zip; lia.
Qed.

(** X14.  The credits block reads ['sda'] from the building summary and
    from every grid summary; on the summaries that [_leed_summary] builds
    these reads never fail, so the block returns a summary with credits
    whatever the compliance record holds. *)
Theorem credits_are_defined_on_summaries (ext : collaborators)
    (pass_ase_grids pass_sda_grids : list (list bool))
    (grids_info : list grid_info) (grid_areas : list (option (list Qc)))
    (pass_sda_blinds_up_grids pass_sda_blinds_down_grids : list (list bool))
    (summary : gmap string jvalue)
    (summary_grid : gmap string (gmap string jvalue))
    (fail_to_comply : odict.t (list Z)) :
  _leed_summary ext pass_ase_grids pass_sda_grids grids_info grid_areas
    pass_sda_blinds_up_grids pass_sda_blinds_down_grids
  = Ok (summary, summary_grid) →
  ∃ summary',
    assign_credits fail_to_comply summary summary_grid = Ok summary' ∧
    is_Some (summary' !! "credits") ∧
    summary' !! "sda" = summary !! "sda".
Proof.
  intros Hrun.
  apply leed_summary_Ok in Hrun as ([x Hsda] & Hgrids & _).
  unfold assign_credits. destruct fail_to_comply as [|failure failures].
  - assert (sda_of summary = Ok x) as -> by (unfold sda_of; by rewrite Hsda).
    destruct (mapM_is_Ok sda_of (map_to_list summary_grid).*2)
      as [grid_sdas Hsdas].
    { intros d (entry & -> & Hentry)%list_elem_of_fmap.
      destruct entry as [grid_id d]. apply elem_of_map_to_list in Hentry.
      destruct (Hgrids _ _ Hentry) as [[y Hy] _].
      exists y. unfold sda_of. simpl. by rewrite Hy. }
    cbn [mbind result_bind]. rewrite Hsdas. cbn [mbind result_bind].
    destruct (forallb _ grid_sdas); [case_decide|];
      eexists; (split; [done|]); by simplify_map_eq.
  - eexists. split; [done|]. by simplify_map_eq.
Qed.

Lemma credits_are_defined_on_summaries_witness :
  ∃ summary',
    assign_credits [("G", [8%Z])] sample.summaries.1 sample.summaries.2
    = Ok summary' ∧
    is_Some (summary' !! "credits") ∧
    summary' !! "sda" = sample.summaries.1 !! "sda".
Proof.
  apply (credits_are_defined_on_summaries sample.ext [[true; true]]
           [[true; false]] [sample.grid] [Some [1; sample.q 3 1]]
           [[true; true]] [[false; false]]).
  vm_compute. reflexivity.
Defined.

(** X15.  Without a grid there is nothing to divide by: [_leed_summary]
    raises [ZeroDivisionError] for an empty list of grids whatever the
    other lists hold, and so does a run of [leed_option_one] in
    transmittance mode whose filter selects no grid. *)
Theorem no_grid_raises_zero_division (ext : collaborators)
    (results : AnnualDaylight) (grids_filter : string)
    (shade_transmittance : shade_input)
    (states_schedule : option (odict.t (list Qc)))
    (threshold direct_threshold occ_hours target_time : Qc)
    (model_areas : list (list Qc)) :
  (∀ pass_ase_grids pass_sda_grids grid_areas pass_sda_blinds_up_grids
     pass_sda_blinds_down_grids,
     _leed_summary ext pass_ase_grids pass_sda_grids [] grid_areas
       pass_sda_blinds_up_grids pass_sda_blinds_down_grids
     = Raise ZeroDivisionError) ∧
  (_filter_grids results grids_filter = [] →
   is_falsy states_schedule = true →
   leed_option_one ext results grids_filter shade_transmittance false
     states_schedule threshold direct_threshold occ_hours target_time
     model_areas
   = Raise ZeroDivisionError).
Proof.
  assert (Hsummary : ∀ pass_ase_grids pass_sda_grids grid_areas
            pass_sda_blinds_up_grids pass_sda_blinds_down_grids,
            _leed_summary ext pass_ase_grids pass_sda_grids [] grid_areas
              pass_sda_blinds_up_grids pass_sda_blinds_down_grids
            = Raise ZeroDivisionError).
  { intros pa ps ga up down. unfold _leed_summary.
    assert (zip6 pa ps (default [] <$> ga) (@nil grid_info) up down = [])
      as -> by (unfold zip6, zip5; by destruct (zip (zip pa ps) _)).
    assert (zip5 pa ps (@nil grid_info) up down = [])
      as -> by (unfold zip5; by destruct (zip pa ps)).
    case_decide; [|done]. cbn [foldlM mbind result_bind total_all].
    by destruct (decide ((0 : Qc) = 0)). }
  split; [done|]. intros Hnone Hfalsy.
  unfold leed_option_one, leed_states_schedule.
  rewrite Hfalsy, Hnone. simpl.
  destruct model_areas; simpl; [done | by rewrite Hsummary].
Qed.

Lemma no_grid_raises_zero_division_witness :
  (∀ pass_ase_grids pass_sda_grids grid_areas pass_sda_blinds_up_grids
     pass_sda_blinds_down_grids,
     _leed_summary sample.ext pass_ase_grids pass_sda_grids [] grid_areas
       pass_sda_blinds_up_grids pass_sda_blinds_down_grids
     = Raise ZeroDivisionError) ∧
  leed_option_one sample.ext sample_runs.empty_results "*"
    (ShdScalar default_shd_trans) false None (sample.q 300 1)
    (sample.q 1000 1) (sample.q 250 1) (sample.q 50 1) []
  = Raise ZeroDivisionError.
Proof.
  destruct (no_grid_raises_zero_division sample.ext sample_runs.empty_results
              "*" (ShdScalar default_shd_trans) None (sample.q 300 1)
              (sample.q 1000 1) (sample.q 250 1) (sample.q 50 1) [])
    as [Hsummary Hrun].
  split; [exact Hsummary | by apply Hrun].
Defined.

(** X16.  [_leed_summary] keys the grid summaries by the [full_id] of
    the grids: every key of the returned dictionary is the [full_id] of one
    of the grids and is repeated inside its summary, and when the six lists
    are of one length every grid has a summary. *)
Theorem grid_summaries_are_keyed_by_full_id (ext : collaborators)
    (pass_ase_grids pass_sda_grids : list (list bool))
    (grids_info : list grid_info) (grid_areas : list (option (list Qc)))
    (pass_sda_blinds_up_grids pass_sda_blinds_down_grids : list (list bool))
    (summary : gmap string jvalue)
    (summary_grid : gmap string (gmap string jvalue)) :
  _leed_summary ext pass_ase_grids pass_sda_grids grids_info grid_areas
    pass_sda_blinds_up_grids pass_sda_blinds_down_grids
  = Ok (summary, summary_grid) →
  (∀ grid_id grid_summary,
     summary_grid !! grid_id = Some grid_summary →
     grid_summary !! "full_id" = Some (JStr grid_id) ∧
     ∃ grid_info, grid_info ∈ grids_info ∧ gi_full_id grid_info = grid_id) ∧
  (length pass_ase_grids = length grids_info →
   length pass_sda_grids = length grids_info →
   length grid_areas = length grids_info →
   length pass_sda_blinds_up_grids = length grids_info →
   length pass_sda_blinds_down_grids = length grids_info →
   ∀ grid_info, grid_info ∈ grids_info →
                is_Some (summary_grid !! gi_full_id grid_info)).
Proof.
  intros Hrun.
  apply leed_summary_Ok in Hrun as (_ & Hok & grids & Hdom & Hsub & Hall).
  split.
  - intros grid_id d Hd. split; [by destruct (Hok _ _ Hd)|].
    assert (Hin : grid_id ∈ gi_full_id <$> grids)
      by (apply Hdom; by eexists).
    apply list_elem_of_fmap in Hin as (g & -> & Hg). exists g. auto.
  - intros H1 H2 H3 H4 H5 g Hg. apply Hdom.
    rewrite (Hall H1 H2 H3 H4 H5). by apply list_elem_of_fmap_2.
Qed.

Lemma grid_summaries_are_keyed_by_full_id_witness :
  (∀ grid_id grid_summary,
     sample.summaries.2 !! grid_id = Some grid_summary →
     grid_summary !! "full_id" = Some (JStr grid_id) ∧
     ∃ grid_info, grid_info ∈ [sample.grid] ∧ gi_full_id grid_info = grid_id) ∧
  ∀ grid_info, grid_info ∈ [sample.grid] →
               is_Some (sample.summaries.2 !! gi_full_id grid_info).
Proof.
  destruct (grid_summaries_are_keyed_by_full_id sample.ext [[true; true]]
              [[true; false]] [sample.grid] [Some [1; sample.q 3 1]]
              [[true; true]] [[false; false]] sample.summaries.1
              sample.summaries.2) as [Hkeys Hall].
  - vm_compute. reflexivity.
  - split; [exact Hkeys|]. by apply Hall.
Defined.

(** ** Credits and the building's sDA *)

Lemma tier_mono a b : a ≤ b → (tier a ≤ tier b)%Z.
Proof.
  intros Hab. unfold tier.
  repeat case_decide; try lia; exfalso; qc_lra.
Qed.

Lemma tier_range a : (0 ≤ tier a ≤ 3)%Z.
Proof. unfold tier. repeat case_decide; lia. Qed.

(** X17.  With an empty compliance record and the same grid summaries, a
    higher building sDA never lowers the credits: a numeric credit stays
    numeric and does not decrease or becomes the exemplary marker, and the
    exemplary marker stays; a numeric credit lies between 0 and 3. *)
Theorem credits_grow_with_building_sda
    (summary_1 summary_2 : gmap string jvalue)
    (summary_grid : gmap string (gmap string jvalue)) (sda_1 sda_2 : Qc)
    (result_1 result_2 : gmap string jvalue) :
  sda_of summary_1 = Ok sda_1 → sda_of summary_2 = Ok sda_2 →
  sda_1 ≤ sda_2 →
  assign_credits [] summary_1 summary_grid = Ok result_1 →
  assign_credits [] summary_2 summary_grid = Ok result_2 →
  (∀ credits_1,
     result_1 !! "credits" = Some (JInt credits_1) →
     (0 ≤ credits_1 ≤ 3)%Z ∧
     (result_2 !! "credits" = Some (JStr exemplary) ∨
      ∃ credits_2, result_2 !! "credits" = Some (JInt credits_2) ∧
                   (credits_1 ≤ credits_2)%Z)) ∧
  (result_1 !! "credits" = Some (JStr exemplary) →
   result_2 !! "credits" = Some (JStr exemplary)).
Proof.
  intros Hs1 Hs2 Hle Hr1 Hr2. unfold assign_credits in Hr1, Hr2.
  rewrite Hs1 in Hr1. rewrite Hs2 in Hr2. cbn [mbind result_bind] in Hr1, Hr2.
  destruct (mapM sda_of (map_to_list summary_grid).*2) as [grid_sdas|];
    [|done].
  cbn [mbind result_bind] in Hr1, Hr2.
  pose proof (tier_mono _ _ Hle) as Hmono.
  pose proof (tier_range sda_1) as Hrange1.
  pose proof (tier_range sda_2) as Hrange2.
  destruct (forallb _ grid_sdas).
  - destruct (decide (tier sda_1 ≤ 2)%Z), (decide (tier sda_2 ≤ 2)%Z);
      injection Hr1 as <-; injection Hr2 as <-; rewrite !lookup_insert_eq;
      split; try (intros ? [= <-]); try (intros [=]); try done;
      try (split; [lia|]); try lia.
    + right. eexists. split; [done|]. lia.
    + by left.
  - injection Hr1 as <-. injection Hr2 as <-. rewrite !lookup_insert_eq.
    split; [|by intros [=]]. intros ? [= <-]. split; [lia|].
    right. eexists. split; [done|]. lia.
Qed.

Lemma credits_grow_with_building_sda_witness :
  (∀ credits_1,
     from_Ok ∅ (assign_credits [] {[ "sda" := JNum (Qc_of_Z 41) ]}
                  sample.summary_grid) !! "credits"
     = Some (JInt credits_1) →
     (0 ≤ credits_1 ≤ 3)%Z ∧
     (from_Ok ∅ (assign_credits [] sample.summary sample.summary_grid)
        !! "credits" = Some (JStr exemplary) ∨
      ∃ credits_2,
        from_Ok ∅ (assign_credits [] sample.summary sample.summary_grid)
          !! "credits" = Some (JInt credits_2) ∧
        (credits_1 ≤ credits_2)%Z)) ∧
  (from_Ok ∅ (assign_credits [] {[ "sda" := JNum (Qc_of_Z 41) ]}
                sample.summary_grid) !! "credits"
   = Some (JStr exemplary) →
   from_Ok ∅ (assign_credits [] sample.summary sample.summary_grid)
     !! "credits" = Some (JStr exemplary)).
Proof.
  apply (credits_grow_with_building_sda {[ "sda" := JNum (Qc_of_Z 41) ]}
           sample.summary sample.summary_grid (Qc_of_Z 41) (Qc_of_Z 76)).
  - reflexivity.
  - reflexivity.
  - by apply (bool_decide_unpack _).
  - vm_compute. reflexivity.
  - vm_compute. reflexivity.
Defined.

(** ** Shading and the share of overlit sensors *)

Lemma Qcinv_nonneg z : 0 < z → 0 ≤ / z.
Proof.
  intros Hz. apply Qcnot_lt_le. intros Hneg.
  apply (Qcmult_lt_compat_r _ _ z Hz) in Hneg.
  rewrite Qcmult_inv_l, Qcmult_0_l in Hneg
    by (intros ->; by apply Qclt_not_eq in Hz).
  revert Hneg. by apply Qcle_not_lt.
Qed.

Lemma Qc_of_Z_le a b : (a ≤ b)%Z → Qc_of_Z a ≤ Qc_of_Z b.
Proof.
  intros Hab. unfold Qcle, Qc_of_Z, Q2Qc. cbn [this].
  by rewrite <- Zle_Qle.
Qed.

Lemma Qc_of_Z_lt a b : (a < b)%Z → Qc_of_Z a < Qc_of_Z b.
Proof.
  intros Hab. unfold Qclt, Qc_of_Z, Q2Qc. cbn [this].
  by rewrite <- Zlt_Qlt.
Qed.

Lemma Qcdiv_le_compat x y z : 0 < z → x ≤ y → x / z ≤ y / z.
Proof.
  intros Hz Hxy. unfold Qcdiv. apply Qcmult_le_compat_r; [done|].
  by apply Qcinv_nonneg.
Qed.

Lemma filter_length_le_impl {A} (P Q : A → Prop) `{∀ x, Decision (P x)}
    `{∀ x, Decision (Q x)} (f : A → A) (l : list A) :
  Forall (λ x, P (f x) → Q x) l →
  (length (filter P (f <$> l)) ≤ length (filter Q l))%nat.
Proof.
  induction 1 as [|x l Hx _ IH]; [done|].
  rewrite fmap_cons, !filter_cons.
  destruct (decide (P (f x))), (decide (Q x)); simpl; try lia. tauto.
Qed.

Lemma column_scale j array value :
  np.column j (np.scale array value) = (λ x, x * value) <$> np.column j array.
Proof.
  unfold np.column, np.scale. induction array as [|row array IH]; [done|].
  simpl. rewrite list_lookup_fmap.
  destruct (row !! j); simpl; [f_equal|]; apply IH.
Qed.

Lemma column_elem {A} (array : list (list A)) j x :
  x ∈ np.column j array → ∃ row, row ∈ array ∧ x ∈ row.
Proof.
  unfold np.column. intros (row & Hrow & Hx)%list_elem_of_omap.
  exists row. split; [done|]. by eapply list_elem_of_lookup_2.
Qed.

(** X18.  For an array of illuminances that are not negative and a grid
    with at least one sensor, multiplying the array by a multiplier of at
    most 1 does not raise the share of sensors at 1000 lux or more at any
    hour: shading a light path never makes an hour worse. *)
Theorem shading_never_raises_the_overlit_share (array : np.matrix)
    (value : Qc) (grid_count : Z) :
  value ≤ 1 → (0 < grid_count)%Z →
  Forall (Forall (λ x, 0 ≤ x)) array →
  Forall2 Qcle
    (combination_percentage (np.scale array value) grid_count)
    (combination_percentage array grid_count).
Proof.
  intros Hv1 Hcount Hpos. unfold combination_percentage, np.columns.
  assert (np.ncols (np.scale array value) = np.ncols array) as ->.
  { destruct array; [done|]. simpl. by rewrite length_map. }
  rewrite <- !list_fmap_compose. apply Forall2_fmap, Forall_Forall2_diag.
  apply list.Forall_forall. intros j _. simpl. rewrite column_scale.
  unfold overlit_fraction. apply Qcdiv_le_compat.
  { by apply (Qc_of_Z_lt 0). }
  apply Qc_of_Z_le, inj_le.
  apply (filter_length_le_impl (λ x, lux_1000 ≤ x) (λ x, lux_1000 ≤ x)).
  apply list.Forall_forall. intros x Hx Hlux.
  apply column_elem in Hx as (row & Hrow & Hx).
  rewrite list.Forall_forall in Hpos. specialize (Hpos row Hrow).
  rewrite list.Forall_forall in Hpos. specialize (Hpos x Hx).
  eapply Qcle_trans; [exact Hlux|].
  rewrite <- (Qcmult_1_r x) at 2. rewrite !(Qcmult_comm x).
  by apply Qcmult_le_compat_r.
Qed.

Lemma shading_never_raises_the_overlit_share_witness :
  Forall2 Qcle
    (combination_percentage
       (np.scale [[lux_1000; Qc_of_Z 2000]; [0; lux_1000]] default_shd_trans)
       2)
    (combination_percentage [[lux_1000; Qc_of_Z 2000]; [0; lux_1000]] 2).
Proof.
  apply (shading_never_raises_the_overlit_share
           [[lux_1000; Qc_of_Z 2000]; [0; lux_1000]] default_shd_trans 2).
  - by apply (bool_decide_unpack _).
  - lia.
  - repeat constructor; by apply (bool_decide_unpack _).
Defined.

(** ** The hourly share above the direct threshold *)






Lemma column_length {A} (array : list (list A)) j :
  Forall (λ row, length row = np.ncols array) array →
  (j < np.ncols array)%nat →
  length (np.column j array) = length array.
Proof.
  intros Hrect Hj.
  assert (Hall : Forall (λ row : list A, (j < length row)%nat) array).
  { eapply list.Forall_impl; [exact Hrect|]. simpl. intros row ->. done. }
  clear Hrect Hj. unfold np.column.
  induction Hall as [|row array Hrow _ IH]; [done|].
  apply lookup_lt_is_Some_2 in Hrow as [x Hx].
  change (omap (λ row : list A, row !! j) (row :: array))
    with (match row !! j with
          | Some x => x :: omap (λ row : list A, row !! j) array
          | None => omap (λ row : list A, row !! j) array
          end).
  rewrite Hx. simpl. by rewrite IH.
Qed.



Lemma Qcplus_nonneg x y : 0 ≤ x → 0 ≤ y → 0 ≤ x + y.
Proof.
  intros Hx Hy. rewrite <- (Qcplus_0_l 0). by apply Qcplus_le_compat.
Qed.

Lemma sum_list_nonneg l : Forall (λ x, 0 ≤ x) l → 0 ≤ sum_list l.
Proof.
  induction 1 as [|x l Hx _ IH]; [apply Qcle_refl|].
  cbn [sum_list foldr]. by apply Qcplus_nonneg.
Qed.

Lemma sum_list_filter_le {A} (P : A * Qc → Prop) `{∀ x, Decision (P x)}
    (l : list (A * Qc)) :
  Forall (λ x, 0 ≤ x) l.*2 →
  0 ≤ sum_list (filter P l).*2 ∧ sum_list (filter P l).*2 ≤ sum_list l.*2.
Proof.
  induction l as [|[x a] l IH]; intros Hall.
  - split; apply Qcle_refl.
  - rewrite fmap_cons in Hall. apply list.Forall_cons in Hall as [Ha Hall].
    destruct (IH Hall) as [IH0 IHle]. rewrite filter_cons.
    destruct (decide (P (x, a))); rewrite ?fmap_cons;
      cbn [snd sum_list foldr]; change (foldr Qcplus 0 ?l) with (sum_list l).
    + split; [by apply Qcplus_nonneg|].
      apply Qcplus_le_compat; [apply Qcle_refl | done].
    + split; [done|]. rewrite <- (Qcplus_0_l (sum_list (filter P l).*2)).
      by apply Qcplus_le_compat.
Qed.

Lemma percentage_bounds part whole :
  0 ≤ part → part ≤ whole → 0 < whole →
  0 ≤ part / whole * hundred ∧ part / whole * hundred ≤ hundred.
Proof.
  intros Hpart Hle Hwhole.
  assert (Hhundred : 0 ≤ hundred) by by apply (bool_decide_unpack _).
  assert (Hinv : 0 ≤ / whole) by by apply Qcinv_nonneg.
  assert (Hne : whole ≠ 0) by (intros ->; by apply Qclt_not_eq in Hwhole).
  split.
  - rewrite <- (Qcmult_0_l hundred). apply Qcmult_le_compat_r; [|done].
    unfold Qcdiv. rewrite <- (Qcmult_0_l (/ whole)).
    by apply Qcmult_le_compat_r.
  - rewrite <- (Qcmult_1_l hundred) at 2. apply Qcmult_le_compat_r; [|done].
    rewrite <- (Qcmult_inv_r whole Hne). by apply Qcdiv_le_compat.
Qed.

(** X20.  The percentages that [_ase_hourly_percentage] hands to
    [values_to_annual] are percentages: there is one per hour of the array
    and each lies between 0 and 100, for face areas that are not negative
    and not all zero (one per sensor) as well as for the sensor count of a
    grid with one row per sensor. *)
Theorem hourly_percentage_is_a_percentage (ext : collaborators)
    (results : AnnualDaylight) (array : np.matrix) (grid_info : grid_info)
    (direct_threshold : Qc) (grid_area : option (list Qc)) :
  Forall (λ row, length row = np.ncols array) array →
  match grid_area with
  | Some areas =>
      length areas = length array ∧ Forall (λ a, 0 ≤ a) areas ∧
      0 < sum_list areas
  | None => gi_count grid_info = Z.of_nat (length array) ∧ array ≠ []
  end →
  ∃ percentage_above,
    _ase_hourly_percentage ext results array grid_info direct_threshold
      grid_area
    = values_to_annual results (schedule_to_hoys ext (sun_up_hours results))
        percentage_above (timestep results) ∧
    length percentage_above = np.ncols array ∧
    Forall (λ p, 0 ≤ p ∧ p ≤ hundred) percentage_above.
Proof.
  intros Hrect Hinput. unfold _ase_hourly_percentage.
  eexists. split; [done|]. destruct grid_area as [areas|].
  - destruct Hinput as (Hlen & Hpos & Hsum). unfold np.columns. split.
    + by rewrite !length_fmap, length_seq.
    + apply Forall_fmap, Forall_fmap, list.Forall_forall.
      intros j Hj%elem_of_seq. simpl.
      assert (Hsnd : (zip (np.column j array) areas).*2 = areas).
      { apply snd_zip. rewrite column_length; [lia | done | lia]. }
      destruct (sum_list_filter_le
                  (λ xa : Qc * Qc, direct_threshold < xa.1)
                  (zip (np.column j array) areas)) as [H0 Hle];
        [by rewrite Hsnd|].
      rewrite Hsnd in Hle. by apply percentage_bounds.
  - destruct Hinput as [Hcount Hne]. unfold np.columns. split.
    + by rewrite !length_fmap, length_seq.
    + apply Forall_fmap, Forall_fmap, list.Forall_forall.
      intros j Hj%elem_of_seq. simpl. rewrite Hcount.
      apply percentage_bounds.
      * apply (Qc_of_Z_le 0). lia.
      * apply Qc_of_Z_le, inj_le.
        rewrite <- (column_length array j) by (done || lia).
        apply length_filter.
      * apply (Qc_of_Z_lt 0). destruct array; [done | simpl; lia].
Qed.

Lemma hourly_percentage_is_a_percentage_witness :
  ∃ percentage_above,
    _ase_hourly_percentage sample.ext sample.results
      [[lux_1000; Qc_of_Z 2000; 0]; [0; Qc_of_Z 1500; 0]] sample.grid
      lux_1000 (Some [1; sample.q 3 1])
    = values_to_annual sample.results
        (schedule_to_hoys sample.ext (sun_up_hours sample.results))
        percentage_above (timestep sample.results) ∧
    length percentage_above
    = np.ncols [[lux_1000; Qc_of_Z 2000; 0]; [0; Qc_of_Z 1500; 0]] ∧
    Forall (λ p, 0 ≤ p ∧ p ≤ hundred) percentage_above.
Proof.
  apply (hourly_percentage_is_a_percentage sample.ext sample.results
           [[lux_1000; Qc_of_Z 2000; 0]; [0; Qc_of_Z 1500; 0]] sample.grid
           lux_1000 (Some [1; sample.q 3 1])).
  - by repeat constructor.
  - split_and!; [reflexivity | |by apply (bool_decide_unpack _)].
    repeat constructor; by apply (bool_decide_unpack _).
Defined.

(** ** Runs that return *)

Lemma foldlM_is_Ok {A B} (f : B → A → result B) (l : list A) (b : B) :
  (∀ b a, a ∈ l → ∃ b', f b a = Ok b') → ∃ b', foldlM f b l = Ok b'.
Proof.
  revert b. induction l as [|a l IH]; intros b Hstep; [by eexists|].
  destruct (Hstep b a) as [b1 Hb1]; [by left|]. simpl. rewrite Hb1. simpl.
  apply IH. intros b2 a2 Hin. apply Hstep. by right.
Qed.

(** X21.  In transmittance mode [leed_states_schedule] returns without an
    exception when every selected grid has between one and six light paths
    and the results provider delivers, for each of them, arrays with at
    least one sensor and one column per sun-up hour, the occupancy pattern
    having one entry per sun-up hour. *)
Theorem leed_states_schedule_returns (ext : collaborators)
    (results : AnnualDaylight) (grids_filter : string)
    (shade_transmittance : shade_input) :
  (∀ grid_info,
     grid_info ∈ _filter_grids results grids_filter →
     well_shaped results grid_info
       (filter_schedule_by_hours ext (sun_up_hours results)) ∧
     light_paths_of grid_info ≠ [] ∧
     (length (light_paths_of grid_info) ≤ 6)%nat) →
  ∃ states_schedule fail_to_comply shd_trans_dict,
    leed_states_schedule ext results grids_filter shade_transmittance false
    = Ok (states_schedule, fail_to_comply, shd_trans_dict).
Proof.
  intros Hgrids. unfold leed_states_schedule.
  destruct (foldlM_is_Ok
              (grid_step ext results shade_transmittance false
                 (filter_schedule_by_hours ext (sun_up_hours results)))
              (_filter_grids results grids_filter) ([], [], ∅))
    as [[[ss ftc] shd] Hfold].
  - intros acc grid_info Hin. destruct (Hgrids _ Hin) as (Hws & Hne & Hsix).
    by apply grid_step_returns.
  - rewrite Hfold. simpl. by eexists _, _, _.
Qed.

Lemma leed_states_schedule_returns_witness :
  ∃ states_schedule fail_to_comply shd_trans_dict,
    leed_states_schedule sample.ext sample.results "*"
      (ShdMapping {[ "A" := sample.q 1 10 ]}) false
    = Ok (states_schedule, fail_to_comply, shd_trans_dict).
Proof.
  apply (leed_states_schedule_returns sample.ext sample.results "*"
           (ShdMapping {[ "A" := sample.q 1 10 ]})).
  intros grid_info Hin. apply list_elem_of_singleton in Hin as ->.
  split_and!.
  - apply sample_is_well_shaped.
  - discriminate.
  - vm_compute. lia.
Defined.

(** ** The three daylight-autonomy variants *)

Lemma foldlM_Ok_rel {A B} (f g : B → A → result B) (R : B → B → Prop)
    (l : list A) (b1 b2 b1' b2' : B) :
  (∀ a c1 c2 c1' c2', a ∈ l → R c1 c2 → f c1 a = Ok c1' → g c2 a = Ok c2' →
                      R c1' c2') →
  R b1 b2 → foldlM f b1 l = Ok b1' → foldlM g b2 l = Ok b2' → R b1' b2'.
Proof.
  revert b1 b2. induction l as [|a l IH]; intros b1 b2 Hstep HR H1 H2.
  - injection H1 as <-. by injection H2 as <-.
  - simpl in H1, H2.
    apply bind_Ok in H1 as (c1 & Hc1 & H1).
    apply bind_Ok in H2 as (c2 & Hc2 & H2).
    apply (IH c1 c2); [|by eapply Hstep; [left|..]|done..].
    intros a' ? ? ? ? Hin. apply Hstep. by right.
Qed.

(** X22.  In transmittance mode the blinds-up array of a grid depends
    neither on the schedule nor on the recorded multipliers, and the
    blinds-down array does not depend on the schedule: two runs of
    [sda_arrays] over the same results agree on the first whatever the
    shading inputs, and on the second when the multipliers agree. *)
Theorem baselines_ignore_the_schedule (results : AnnualDaylight)
    (grid_info : grid_info)
    (states_schedule_1 states_schedule_2 : odict.t (list Qc))
    (shd_trans_dict_1 shd_trans_dict_2 : gmap string Qc)
    (array_1 up_1 down_1 array_2 up_2 down_2 : np.matrix) :
  sda_arrays results grid_info false states_schedule_1 shd_trans_dict_1
  = Ok (array_1, up_1, down_1) →
  sda_arrays results grid_info false states_schedule_2 shd_trans_dict_2
  = Ok (array_2, up_2, down_2) →
  up_1 = up_2 ∧ (shd_trans_dict_1 = shd_trans_dict_2 → down_1 = down_2).
Proof.
  unfold sda_arrays. intros H1 H2.
  apply bind_Ok in H1 as (base & Hbase & H1). rewrite Hbase in H2.
  cbn [mbind result_bind] in H1, H2.
  apply bind_Ok in H1 as (lists1 & Hfold1 & [= <- <- <-]).
  apply bind_Ok in H2 as (lists2 & Hfold2 & [= <- <- <-]).
  assert (HR : arrays_blinds_up lists1 = arrays_blinds_up lists2 ∧
               (shd_trans_dict_1 = shd_trans_dict_2 →
                arrays_blinds_down lists1 = arrays_blinds_down lists2)).
  { revert Hfold1 Hfold2.
    apply (foldlM_Ok_rel _ _
             (λ l1 l2, arrays_blinds_up l1 = arrays_blinds_up l2 ∧
                       (shd_trans_dict_1 = shd_trans_dict_2 →
                        arrays_blinds_down l1 = arrays_blinds_down l2)));
      [|done].
    intros lp c1 c2 c1' c2' _ [Hup Hdown] Hc1 Hc2.
    apply transmittance_arrays_appended_once in Hc1
      as (a1 & Ha1 & Hup1 & d1 & Hd1 & Hs1 & Hn1).
    apply transmittance_arrays_appended_once in Hc2
      as (a2 & Ha2 & Hup2 & d2 & Hd2 & Hs2 & Hn2).
    assert (a1 = a2) as <- by congruence.
    split; [congruence|]. intros Heq. rewrite Hd1, Hd2, (Hdown Heq).
    f_equal. f_equal. destruct (decide (lp = static_apertures)) as [Hlp|Hlp].
    - by rewrite Hs1, Hs2.
    - destruct (Hn1 Hlp) as (t1 & Ht1 & ->).
      destruct (Hn2 Hlp) as (t2 & Ht2 & ->). congruence. }
  destruct HR as [Hup Hdown]. split; [by rewrite Hup|].
  intros Heq. by rewrite (Hdown Heq).
Qed.

(** X23.  For a grid that has the static apertures as its only light
    path, shading changes nothing: in transmittance mode the scheduled, the
    blinds-up and the blinds-down arrays of [sda_arrays] are one array, and
    in state mode the blinds-up and the blinds-down arrays are. *)
Theorem static_only_grid_is_not_shaded (results : AnnualDaylight)
    (grid_info : grid_info) (use_states : bool)
    (states_schedule : odict.t (list Qc)) (shd_trans_dict : gmap string Qc)
    (array up down : np.matrix) :
  Forall (λ light_path, light_path = static_apertures)
         (light_paths_of grid_info) →
  sda_arrays results grid_info use_states states_schedule shd_trans_dict
  = Ok (array, up, down) →
  up = down ∧ (use_states = false → array = up).
Proof.
  intros Hstatic. unfold sda_arrays. intros Hrun.
  apply bind_Ok in Hrun as (base & Hbase & Hrun). destruct use_states.
  - apply bind_Ok in Hrun as (scheduled & _ & Hrun).
    apply bind_Ok in Hrun as (lists & Hfold & [= <- <- <-]).
    split; [|done]. f_equal. revert Hfold.
    apply (foldlM_Ok_invariant_in _
             (λ l, arrays_blinds_up l = arrays_blinds_down l)); [|done].
    intros acc lp acc' Hin Heq Hstep.
    rewrite list.Forall_forall in Hstatic. rewrite (Hstatic lp Hin) in Hstep.
    unfold sda_light_path_states in Hstep.
    rewrite decide_False in Hstep by (by intros []).
    apply bind_Ok in Hstep as (a & _ & [= <-]). simpl. by rewrite Heq.
  - apply bind_Ok in Hrun as (lists & Hfold & [= <- <- <-]).
    assert (Heq : arrays lists = arrays_blinds_up lists ∧
                  arrays_blinds_up lists = arrays_blinds_down lists).
    { revert Hfold.
      apply (foldlM_Ok_invariant_in _
               (λ l, arrays l = arrays_blinds_up l ∧
                     arrays_blinds_up l = arrays_blinds_down l)); [|done].
      intros acc lp acc' Hin [Heq1 Heq2] Hstep.
      rewrite list.Forall_forall in Hstatic.
      rewrite (Hstatic lp Hin) in Hstep.
      unfold sda_light_path_transmittance in Hstep.
      apply bind_Ok in Hstep as (a & _ & Hstep).
      rewrite decide_False in Hstep by (by intros []).
      injection Hstep as <-. simpl. by rewrite Heq1, Heq2. }
    destruct Heq as [-> ->]. done.
Qed.

Lemma baselines_ignore_the_schedule_witness :
  sample_runs.arrays_default.1.2 = sample_runs.arrays_tenth.1.2 ∧
  (sample_runs.schedule.2 = sample_runs.schedule_tenth.2 →
   sample_runs.arrays_default.2 = sample_runs.arrays_tenth.2).
Proof.
  apply (baselines_ignore_the_schedule sample.results sample.grid
           sample_runs.schedule.1.1 sample_runs.schedule_tenth.1.1
           sample_runs.schedule.2 sample_runs.schedule_tenth.2
           sample_runs.arrays_default.1.1 sample_runs.arrays_default.1.2
           sample_runs.arrays_default.2
           sample_runs.arrays_tenth.1.1 sample_runs.arrays_tenth.1.2
           sample_runs.arrays_tenth.2).
  - vm_compute. reflexivity.
  - vm_compute. reflexivity.
Defined.

Lemma static_only_grid_is_not_shaded_witness :
  sample_runs.arrays_static.1.2 = sample_runs.arrays_static.2 ∧
  (false = false →
   sample_runs.arrays_static.1.1 = sample_runs.arrays_static.1.2).
Proof.
  apply (static_only_grid_is_not_shaded sample.boundary_results
           sample.boundary_grid false [] ∅).
  - by repeat constructor.
  - vm_compute. reflexivity.
Defined.

(** ** What a run of [leed_option_one] returns *)





(** ** No shading where none is needed *)

Lemma below_refl a : below a a.
Proof.
  apply Forall_Forall2_diag, list.Forall_forall. intros row _.
  apply Forall_Forall2_diag, list.Forall_forall. intros x _. apply Qcle_refl.
Qed.

Lemma below_scale a v :
  Forall (Forall (λ x, 0 ≤ x)) a → v ≤ 1 → below (np.scale a v) a.
Proof.
  intros Hpos Hv. unfold below, np.scale.
  apply Forall2_fmap_l, Forall_Forall2_diag.
  eapply list.Forall_impl; [exact Hpos|]. intros row Hrow. simpl.
  apply Forall2_fmap_l, Forall_Forall2_diag.
  eapply list.Forall_impl; [exact Hrow|]. intros x Hx. simpl.
  rewrite <- (Qcmult_1_r x) at 2. rewrite !(Qcmult_comm x).
  by apply Qcmult_le_compat_r.
Qed.

Lemma below_add a b c d : below a b → below c d → below (np.add a c) (np.add b d).
Proof.
  unfold below, np.add. intros Hab. revert c d.
  induction Hab as [|ra rb a b Hr _ IH]; intros c d Hcd; [constructor|].
  destruct Hcd as [|rc rd c d Hr' Hcd]; [constructor|].
  simpl. constructor; [|by apply IH].
  clear -Hr Hr'. revert rc rd Hr'.
  induction Hr as [|x y ra rb Hxy _ IH]; intros rc rd Hr'; [constructor|].
  destruct Hr' as [|z w rc rd Hzw Hr']; [constructor|].
  simpl. constructor; [by apply Qcplus_le_compat | by apply IH].
Qed.

Lemma below_sum a b l1 l2 :
  below a b → Forall2 below l1 l2 →
  below (foldl np.add a l1) (foldl np.add b l2).
Proof.
  intros Hab Hl. revert a b Hab.
  induction Hl as [|c d l1 l2 Hcd _ IH]; intros a b Hab; [done|].
  simpl. apply IH. by apply below_add.
Qed.

Lemma below_column j a b :
  below a b → Forall2 Qcle (np.column j a) (np.column j b).
Proof.
  unfold below, np.column. induction 1 as [|ra rb a b Hr _ IH]; [constructor|].
  assert (Hcons : ∀ (r : list Qc) l,
            omap (λ row : list Qc, row !! j) (r :: l)
            = match r !! j with
              | Some x => x :: omap (λ row : list Qc, row !! j) l
              | None => omap (λ row : list Qc, row !! j) l
              end) by done.
  rewrite !Hcons. destruct (ra !! j) as [x|] eqn:Hx.
  - destruct (Forall2_lookup_l _ _ _ _ _ Hr Hx) as (y & -> & Hxy).
    by constructor.
  - assert (rb !! j = None) as ->; [|done].
    apply lookup_ge_None. apply lookup_ge_None in Hx.
    apply Forall2_length in Hr. lia.
Qed.

Lemma overlit_count_le l1 l2 :
  Forall2 Qcle l1 l2 →
  (length (filter (λ x : Qc, (lux_1000 ≤ x)%Qc) l1)
   ≤ length (filter (λ x : Qc, (lux_1000 ≤ x)%Qc) l2))%nat.
Proof.
  induction 1 as [|x y l1 l2 Hxy _ IH]; [done|].
  rewrite !filter_cons.
  destruct (decide (lux_1000 ≤ x)), (decide (lux_1000 ≤ y)); simpl; try lia.
  exfalso. eauto using Qcle_trans.
Qed.

Lemma overlit_fraction_le grid_count a b j :
  (0 < grid_count)%Z → below a b →
  overlit_fraction grid_count (np.column j a)
  ≤ overlit_fraction grid_count (np.column j b).
Proof.
  intros Hcount Hab. unfold overlit_fraction. apply Qcdiv_le_compat.
  { by apply (Qc_of_Z_lt 0). }
  apply Qc_of_Z_le, inj_le, overlit_count_le. by apply below_column.
Qed.

Lemma combination_arrays_below results grid_info
    (combination first : odict.t Qc) :
  (∀ light_path,
     Forall (Forall (λ x, 0 ≤ x))
            (_get_array results grid_info light_path 0 direct)) →
  odict.keys combination = odict.keys first →
  Forall (λ kv, kv.2 ≤ 1) combination →
  Forall (λ kv, kv.2 = 1) first →
  Forall2 below (combination_arrays results grid_info false combination)
                (combination_arrays results grid_info false first).
Proof.
  intros Hpos. unfold combination_arrays, odict.keys. revert first.
  induction combination as [|[k v] c IH]; intros [|[k' v'] first] Hkeys Hc Hf;
    try done; try (by constructor).
  rewrite !fmap_cons in Hkeys. injection Hkeys as <- Hkeys.
  apply list.Forall_cons in Hc as [Hv Hc].
  apply list.Forall_cons in Hf as [Hv' Hf]. simpl in Hv, Hv'. subst v'.
  rewrite !fmap_cons. constructor; [|by apply IH].
  rewrite (decide_True (P := (1 : Qc) = 1)) by done.
  case_decide; [apply below_refl | by apply below_scale].
Qed.

Lemma get_elem_NoDup {V} (d : odict.t V) k v :
  NoDup (odict.keys d) → (k, v) ∈ d → odict.get k d = Some v.
Proof.
  unfold odict.keys. induction d as [|[k' v'] d IH]; intros Hnd Hin.
  - by apply elem_of_nil in Hin.
  - rewrite fmap_cons in Hnd. apply list.NoDup_cons in Hnd as [Hk Hnd].
    simpl. apply elem_of_cons in Hin as [[= <- <-]|Hin].
    + by rewrite decide_True.
    + rewrite decide_False; [by apply IH|].
      intros ->. apply Hk. apply list_elem_of_fmap. by exists (k, v).
Qed.

(** X25.  For direct illuminances that are not negative, multipliers of
    the grid's light paths of at most 1 and a grid with at least one
    sensor: at an occupied hour at which the combination that shades
    nothing keeps the overlit share within 2%, the exhaustive search of
    transmittance mode selects that combination, so every light path gets
    the multiplier 1 at that hour. *)
Theorem no_shading_where_none_is_needed (results : AnnualDaylight)
    (grid_info : grid_info) (shade_transmittance : shade_input)
    (shd_trans_dict shd_trans_dict' : gmap string Qc)
    (combinations : list (odict.t Qc)) (occ_mask : list Z)
    (trace : search_trace) (j : nat) (m : Z) (unshaded_share : Qc) :
  grid_combinations results grid_info (light_paths_of grid_info)
    shade_transmittance false shd_trans_dict
  = Ok (combinations, shd_trans_dict') →
  exhaustive_trace results grid_info false combinations occ_mask = Ok trace →
  (∀ light_path,
     Forall (Forall (λ x, 0 ≤ x))
            (_get_array results grid_info light_path 0 direct)) →
  (∀ light_path multiplier,
     light_path ∈ light_paths_of grid_info →
     shd_trans_dict' !! light_path = Some multiplier →
     multiplier ≤ 1) →
  (0 < gi_count grid_info)%Z →
  occ_mask !! j = Some m → np.truthy m →
  np.entry (tr_percentages trace) 0 j = Some unshaded_share →
  unshaded_share ≤ two_percent →
  ∃ unshaded,
    combinations !! 0%nat = Some unshaded ∧
    (∀ light_path, light_path ∈ light_paths_of grid_info →
                   odict.get light_path unshaded = Some 1) ∧
    tr_max_indices trace !! occ_rank occ_mask j = Some 0%nat ∧
    tr_selected trace !! occ_rank occ_mask j = Some unshaded.
Proof.
  intros Hcomb Htrace Hpos Hmult Hcount Hj Hm Hp0 Hvalid.
  (* the combinations *)
  unfold grid_combinations in Hcomb.
  destruct (shade_transmittance_per_light_path _ _ _) as [sts shd] eqn:Hres.
  apply bind_Ok in Hcomb as (combos & Hcomb & Hret).
  injection Hret as -> ->.
  assert (Hsts : sts = (shade_transmittance_per_light_path
                          (light_paths_of grid_info) shade_transmittance
                          shd_trans_dict).1) by by rewrite Hres.
  assert (Hshd : shd_trans_dict'
                 = (shade_transmittance_per_light_path
                      (light_paths_of grid_info) shade_transmittance
                      shd_trans_dict).2) by by rewrite Hres.
  pose proof Hcomb as Hshape. rewrite Hsts in Hshape.
  apply transmittance_combinations_shape in Hshape
    as (keys & Hnd & Hkeys & Hsame & first & Hfirst & Hones).
  destruct (resolver_keys_spec (light_paths_of grid_info) shade_transmittance
              shd_trans_dict) as (Hnd_sts & Hkeys_sts & _).
  rewrite <- Hsts in Hnd_sts, Hkeys_sts.
  assert (Hc : combinations
               = (λ v, zip (odict.keys sts) v) <$> product (odict.values sts)).
  { unfold transmittance_combinations in Hcomb.
    destruct sts; [done | by injection Hcomb]. }
  assert (Hfirst_in : first ∈ combinations)
    by by eapply list_elem_of_lookup_2.
  assert (Hkeys_eq : keys = odict.keys sts).
  { rewrite <- (Hsame first Hfirst_in). rewrite Hc in Hfirst_in.
    apply list_elem_of_fmap in Hfirst_in as (v & -> & Hv).
    apply fst_zip. apply product_length in Hv.
    unfold odict.keys, odict.values in *. rewrite Hv, !length_fmap. done. }
  (* every value of every combination is at most 1 *)
  assert (Hle1 : ∀ c, c ∈ combinations → Forall (λ kv, kv.2 ≤ 1) c).
  { intros c Hc_in. apply list.Forall_forall. intros [k x] Hkx.
    assert (Hget : odict.get k c = Some x).
    { apply get_elem_NoDup; [by rewrite (Hsame c Hc_in)|done]. }
    rewrite Hc in Hc_in.
    apply list_elem_of_fmap in Hc_in as (v & -> & Hv).
    destruct (get_zip_pool sts v k x (product_elem _ _ Hv) Hget)
      as (pool & Hpool & Hx).
    assert (Hk : k ∈ light_paths_of grid_info).
    { apply Hkeys_sts, get_is_Some_key. by eexists. }
    assert (Hp : odict.get k sts
                 = Some [1; resolved_multiplier shade_transmittance k]).
    { rewrite Hsts, shade_transmittance_foldl.
      destruct (shade_transmittance_fold shade_transmittance
                  (light_paths_of grid_info) [] shd_trans_dict k) as [H _].
      by rewrite decide_True in H. }
    assert (Hd : shd_trans_dict' !! k
                 = Some (resolved_multiplier shade_transmittance k)).
    { rewrite Hshd, shade_transmittance_foldl.
      destruct (shade_transmittance_fold shade_transmittance
                  (light_paths_of grid_info) [] shd_trans_dict k) as [_ H].
      by rewrite decide_True in H. }
    rewrite Hp in Hpool. injection Hpool as <-. simpl.
    apply elem_of_cons in Hx as [->|Hx]; [apply Qcle_refl|].
    apply list_elem_of_singleton in Hx as ->. by apply (Hmult k). }
  assert (Hfirst_ones : Forall (λ kv, kv.2 = 1) first).
  { apply list.Forall_forall. intros [k x] Hkx. simpl.
    assert (Hget : odict.get k first = Some x).
    { apply get_elem_NoDup; [by rewrite (Hsame first Hfirst_in)|done]. }
    rewrite Hones in Hget; [by injection Hget|].
    rewrite <- (Hsame first Hfirst_in). apply list_elem_of_fmap.
    by exists (k, x). }
  (* no combination has a larger share than the first *)
  destruct (selected_valid_max _ _ _ _ _ _ Htrace j m 0 unshaded_share
              Hj Hm Hp0 Hvalid)
    as (idx & c & q & Hidx & Hc_idx & Hsel & Hq & Hq_valid & Hle & Hearly).
  assert (Hq_le : q ≤ unshaded_share).
  { destruct (percentage_of_combination _ _ _ _ _ _ Htrace idx c Hc_idx)
      as (array_c & Harr_c & Hq_eq).
    destruct (percentage_of_combination _ _ _ _ _ _ Htrace 0 first Hfirst)
      as (array_0 & Harr_0 & Hp_eq).
    rewrite (Hq_eq j q Hq), (Hp_eq j unshaded_share Hp0).
    apply overlit_fraction_le; [done|].
    assert (Hc_in : c ∈ combinations) by by eapply list_elem_of_lookup_2.
    pose proof (combination_arrays_below results grid_info c first Hpos
                  (eq_trans (Hsame c Hc_in) (eq_sym (Hsame first Hfirst_in)))
                  (Hle1 c Hc_in) Hfirst_ones) as Hbelow.
    unfold combination_array in Harr_c, Harr_0.
    destruct Hbelow as [|a b l1 l2 Hab Hl]; [done|].
    simpl in Harr_c, Harr_0. injection Harr_c as <-. injection Harr_0 as <-.
    by apply below_sum. }
  assert (Heq : unshaded_share = q) by by apply Qcle_antisym.
  assert (idx = 0%nat) as -> by (specialize (Hearly Heq); lia).
  exists first. split_and!; [done| |done|].
  - intros lp Hlp. apply Hones, Hkeys, Hlp.
  - rewrite Hfirst in Hc_idx. by injection Hc_idx as ->.
Qed.

Lemma no_shading_where_none_is_needed_witness :
  ∃ unshaded,
    sample_runs.combinations.1 !! 0%nat = Some unshaded ∧
    (∀ light_path, light_path ∈ light_paths_of sample.grid →
                   odict.get light_path unshaded = Some 1) ∧
    tr_max_indices sample_runs.trace !! occ_rank [1; 1; 1]%Z 1 = Some 0%nat ∧
    tr_selected sample_runs.trace !! occ_rank [1; 1; 1]%Z 1 = Some unshaded.
Proof.
  apply (no_shading_where_none_is_needed sample.results sample.grid
           (ShdScalar default_shd_trans) ∅ sample_runs.combinations.2
           sample_runs.combinations.1 [1; 1; 1]%Z sample_runs.trace 1 1 0).
  - vm_compute. reflexivity.
  - vm_compute. reflexivity.
  - intros light_path. simpl.
    case_decide; repeat constructor; by apply (bool_decide_unpack _).
  - intros light_path multiplier Hin Hm.
    assert (Hcases : light_path = "A" ∨ light_path = "B").
    { apply elem_of_cons in Hin as [->|Hin]; [by left|].
      apply list_elem_of_singleton in Hin as ->. by right. }
    destruct Hcases as [-> | ->]; vm_compute in Hm; injection Hm as <-;
      by apply (bool_decide_unpack _).
  - reflexivity.
  - reflexivity.
  - done.
  - by apply (bool_decide_unpack _).
  - by apply (bool_decide_unpack _).
Defined.

(** ** The schedule before its expansion to the year *)

Lemma append_keys {V} k (v : V) d :
  odict.keys (odict.append k v d)
  = if decide (k ∈ odict.keys d) then odict.keys d else odict.keys d ++ [k].
Proof.
  unfold odict.keys. induction d as [|[k' l] d IH]; [done|].
  cbn [odict.append]. destruct (decide (k' = k)) as [->|Hne].
  - rewrite !fmap_cons. cbn [fst]. by rewrite decide_True by (by left).
  - rewrite !fmap_cons, IH. cbn [fst]. destruct (decide (k ∈ d.*1)).
    + by rewrite decide_True by (by right).
    + rewrite decide_False; [done|]. rewrite elem_of_cons. intros [->|]; done.
Qed.

Lemma merge_combinations_NoDup selected schedule :
  NoDup (odict.keys schedule) →
  NoDup (odict.keys (merge_combinations selected schedule)).
Proof.
  unfold merge_combinations. revert schedule.
  induction selected as [|c selected IH]; intros schedule Hnd; [done|].
  cbn [foldl]. apply IH. clear IH. revert schedule Hnd.
  induction c as [|[k v] c IH]; intros schedule Hnd; [done|].
  cbn [foldl]. apply IH. case_decide; [|done].
  rewrite append_keys. case_decide; [done|].
  apply list.NoDup_app. split_and!; [done| |apply list.NoDup_singleton].
  intros x Hx ->%list_elem_of_singleton. done.
Qed.

Lemma minimum_cases x y : np.minimum x y = x ∨ np.minimum x y = y.
Proof. unfold np.minimum. case_decide; auto. Qed.

(** X26.  In transmittance mode, when every selected grid has at most
    six light paths, the schedule that [leed_states_schedule] expands to
    the year holds, for every aperture group, one value per occupied
    sun-up hour, and each value is 1 or the multiplier that the returned
    map records for the group, however many grids share the group. *)
Theorem schedule_holds_one_or_the_multiplier (ext : collaborators)
    (results : AnnualDaylight) (grids_filter : string)
    (shade_transmittance : shade_input)
    (states_schedule : odict.t (list Qc)) (fail_to_comply : odict.t (list Z))
    (shd_trans_dict : gmap string Qc) :
  (∀ grid_info, grid_info ∈ _filter_grids results grids_filter →
                (length (light_paths_of grid_info) ≤ 6)%nat) →
  leed_states_schedule ext results grids_filter shade_transmittance false
  = Ok (states_schedule, fail_to_comply, shd_trans_dict) →
  ∃ schedule,
    states_schedule = map_to_annual ext results schedule ∧
    ∀ aperture_group values,
      odict.get aperture_group schedule = Some values →
      length values
      = length (filter np.truthy
                  (filter_schedule_by_hours ext (sun_up_hours results))) ∧
      Forall (λ value,
                value = 1 ∨ shd_trans_dict !! aperture_group = Some value)
             values.
Proof.
  intros Hsix Hrun.
  apply leed_states_schedule_Ok in Hrun as (schedule & Hfold & ->).
  exists schedule. split; [done|].
  set (occ := filter_schedule_by_hours ext (sun_up_hours results)) in *.
  assert (Hinv : ∀ key values,
            odict.get key schedule = Some values →
            shd_trans_dict !! key
            = Some (resolved_multiplier shade_transmittance key) ∧
            length values = length (filter np.truthy occ) ∧
            Forall (λ value,
                      value = 1 ∨
                      value = resolved_multiplier shade_transmittance key)
                   values).
  { revert Hfold.
    apply (foldlM_Ok_invariant_in _
             (λ acc : schedule_state,
                ∀ key values,
                  odict.get key acc.1.1 = Some values →
                  acc.2 !! key
                  = Some (resolved_multiplier shade_transmittance key) ∧
                  length values = length (filter np.truthy occ) ∧
                  Forall (λ value,
                            value = 1 ∨
                            value = resolved_multiplier shade_transmittance
                                      key)
                         values)
             _ ([], [], ∅) (schedule, fail_to_comply, shd_trans_dict));
      [|done].
    intros [[ss ftc] shd] grid_info acc' Hin Hacc Hstep.
    destruct (grid_step_exhaustive _ _ _ _ _ _ _ _ _ _ (Hsix _ Hin) Hstep)
      as (combinations & shd' & trace & Hcomb & Htrace & ->).
    cbn [fst snd] in *. intros key values.
    rewrite merge_grid_schedule_get
      by (apply merge_combinations_NoDup, NoDup_nil_2).
    assert (Hshd : shd' = (shade_transmittance_per_light_path
                             (light_paths_of grid_info) shade_transmittance
                             (shade_transmittance_per_light_path
                                (light_paths_of grid_info) shade_transmittance
                                shd).2).2).
    { unfold grid_combinations in Hcomb.
      destruct (shade_transmittance_per_light_path (light_paths_of grid_info)
                  shade_transmittance
                  (shade_transmittance_per_light_path
                     (light_paths_of grid_info) shade_transmittance shd).2)
        as [sts shd2].
      apply bind_Ok in Hcomb as (combos & _ & Hret). by injection Hret. }
    assert (Hdict : ∀ k,
              shd' !! k
              = if decide (k ∈ light_paths_of grid_info)
                then Some (resolved_multiplier shade_transmittance k)
                else shd !! k).
    { intros k. rewrite Hshd, resolver_second_call, shade_transmittance_foldl.
      apply shade_transmittance_fold. }
    destruct (odict.get key (merge_combinations (tr_selected trace) []))
      as [value|] eqn:Hvalue.
    - assert (Hkey : key ∈ odict.keys
                       (merge_combinations (tr_selected trace) []))
        by (apply get_is_Some_key; by eexists).
      apply merge_combinations_keys in Hkey as (Hne & c & Hc & Hkey).
      assert (Hlp : key ∈ light_paths_of grid_info).
      { apply (selected_in_combinations _ _ _ _ _ _ Htrace) in Hc.
        unfold grid_combinations in Hcomb.
        destruct (shade_transmittance_per_light_path
                    (light_paths_of grid_info) shade_transmittance
                    (shade_transmittance_per_light_path
                       (light_paths_of grid_info) shade_transmittance shd).2)
          as [sts shd2] eqn:Hres.
        apply bind_Ok in Hcomb as (combos & Hcomb & Hret).
        injection Hret as -> _.
        destruct (resolver_keys_spec (light_paths_of grid_info)
                    shade_transmittance
                    (shade_transmittance_per_light_path
                       (light_paths_of grid_info) shade_transmittance shd).2)
          as (_ & Hkeys & _).
        rewrite Hres in Hkeys. cbn [fst] in Hkeys. apply Hkeys.
        unfold transmittance_combinations in Hcomb.
        assert (combinations
                = (λ v, zip (odict.keys sts) v) <$> product (odict.values sts))
          as -> by (destruct sts; [done | by injection Hcomb]).
        apply list_elem_of_fmap in Hc as (v & -> & Hv).
        assert (Hk : odict.keys (zip (odict.keys sts) v) = odict.keys sts).
        { apply fst_zip. apply product_length in Hv.
          unfold odict.keys, odict.values in *. rewrite Hv, !length_fmap.
          done. }
        by rewrite Hk in Hkey. }
      destruct (selected_values _ _ _ _ _ _ _ _ _ Hcomb Htrace Hlp)
        as (_ & Hlen & Hvals).
      rewrite merge_combinations_get in Hvalue by done.
      change (odict.get key []) with (@None (list Qc)) in Hvalue.
      assert (value = tr_selected trace ≫= values_for key) as ->.
      { destruct (tr_selected trace ≫= values_for key); [done|].
        by injection Hvalue. }
      rewrite Hdict, decide_True by done.
      destruct (odict.get key ss) as [current|] eqn:Hcur.
      + destruct (Hacc key current Hcur) as (_ & Hclen & Hcvals).
        intros [= <-]. split_and!; [done|..].
        * unfold merge_schedules. rewrite length_zip_with. lia.
        * unfold merge_schedules.
          eapply Forall_zip_with_fst; [exact Hcvals|].
          eapply list.Forall_impl; [exact Hvals|]. intros y Hy x Hx.
          simpl in *. destruct (minimum_cases x y) as [-> | ->]; done.
      + intros [= <-]. done.
    - intros Hcur. destruct (Hacc key values Hcur) as (Hd & Hlen & Hvals).
      split_and!; [|done..]. rewrite Hdict. by case_decide. }
  intros key values Hget. destruct (Hinv key values Hget) as (Hd & Hlen & Hv).
  split; [done|]. eapply list.Forall_impl; [exact Hv|].
  intros x [->| ->]; [by left | by right].
Qed.

Lemma schedule_holds_one_or_the_multiplier_witness :
  ∃ schedule,
    sample_runs.schedule.1.1
    = map_to_annual sample.ext sample.results schedule ∧
    ∀ aperture_group values,
      odict.get aperture_group schedule = Some values →
      length values
      = length (filter np.truthy
                  (filter_schedule_by_hours sample.ext
                     (sun_up_hours sample.results))) ∧
      Forall (λ value,
                value = 1 ∨
                sample_runs.schedule.2 !! aperture_group = Some value)
             values.
Proof.
  apply (schedule_holds_one_or_the_multiplier sample.ext sample.results "*"
           (ShdScalar default_shd_trans) sample_runs.schedule.1.1
           sample_runs.schedule.1.2 sample_runs.schedule.2).
  - exact sample_grids_are_searched.
  - vm_compute. reflexivity.
Defined.

(** ** The totals of the building summary *)

Lemma area_where_bounds (grid_area : list Qc) (pass : list bool) :
  Forall (λ a, 0 ≤ a) grid_area →
  0 ≤ area_where grid_area pass ∧ area_where grid_area pass ≤ sum_list grid_area.
Proof.
  unfold area_where. intros Hpos. revert pass.
  induction Hpos as [|a grid_area Ha Hpos IH]; intros pass.
  - split; apply Qcle_refl.
  - destruct pass as [|b pass].
    + split; [apply Qcle_refl|]. cbn [sum_list foldr].
      apply Qcplus_nonneg; [done | by apply sum_list_nonneg].
    + destruct (IH pass) as [IH0 IHle].
      cbn [zip zip_with]. rewrite (filter_cons _ (a, b)). cbn [snd].
      destruct (decide (b = true)); rewrite ?fmap_cons;
        cbn [fst sum_list foldr]; change (foldr Qcplus 0 ?l) with (sum_list l).
      * split; [by apply Qcplus_nonneg|].
        apply Qcplus_le_compat; [apply Qcle_refl | done].
      * split; [done|].
        rewrite <- (Qcplus_0_l (sum_list (filter _ (zip grid_area pass)).*1)).
        by apply Qcplus_le_compat.
Qed.

Lemma area_fold_totals ext items acc acc' :
  Forall (λ item : list bool * list bool * list Qc * grid_info * list bool
                   * list bool,
            Forall (λ a, 0 ≤ a) item.1.1.1.2) items →
  foldlM (area_step ext) acc items = Ok acc' →
  total_all acc'
  = total_all acc + sum_list ((λ item, sum_list item.1.1.1.2) <$> items) ∧
  (0 ≤ total_pass_sda acc ∧ total_pass_sda acc ≤ total_all acc →
   0 ≤ total_pass_sda acc' ∧ total_pass_sda acc' ≤ total_all acc') ∧
  (0 ≤ total_pass_ase acc ∧ total_pass_ase acc ≤ total_all acc →
   0 ≤ total_pass_ase acc' ∧ total_pass_ase acc' ≤ total_all acc').
Proof.
  intros Hpos. revert acc.
  induction Hpos as [|item items Hitem _ IH]; intros acc Hrun.
  - injection Hrun as <-. split_and!; [|done..].
    simpl. by rewrite Qcplus_0_r.
  - simpl in Hrun. apply bind_Ok in Hrun as (acc1 & Hstep & Hrun).
    destruct (IH _ Hrun) as (IHall & IHsda & IHase).
    destruct item as [[[[[pa ps] ga] gi] up] down]. simpl in Hitem.
    unfold area_step in Hstep. case_decide; [done|].
    injection Hstep as <-. cbn [total_all total_pass_sda total_pass_ase] in *.
    destruct (area_where_bounds ga ps Hitem) as [Hs0 Hs1].
    destruct (area_where_bounds ga pa Hitem) as [Ha0 Ha1].
    split_and!.
    + rewrite IHall, fmap_cons. cbn [sum_list foldr fst snd].
      change (foldr Qcplus 0 ?l) with (sum_list l). ring.
    + intros [H0 H1]. apply IHsda. split.
      * by apply Qcplus_nonneg.
      * by apply Qcplus_le_compat.
    + intros [H0 H1]. apply IHase. split.
      * by apply Qcplus_nonneg.
      * by apply Qcplus_le_compat.
Qed.

(** X27.  In the area-weighted branch, for face areas that are not
    negative and six lists of one length, the building summary reports as
    total floor area the sum of all face areas, and the floor areas passing
    sDA and passing ASE lie between 0 and that total. *)
Theorem building_totals_are_sums (ext : collaborators)
    (pass_ase_grids pass_sda_grids : list (list bool))
    (grids_info : list grid_info) (grid_areas : list (option (list Qc)))
    (pass_sda_blinds_up_grids pass_sda_blinds_down_grids : list (list bool))
    (summary : gmap string jvalue)
    (summary_grid : gmap string (gmap string jvalue)) :
  Forall is_Some grid_areas →
  Forall (λ grid_area, Forall (λ a, 0 ≤ a) (default [] grid_area)) grid_areas →
  length pass_ase_grids = length grids_info →
  length pass_sda_grids = length grids_info →
  length grid_areas = length grids_info →
  length pass_sda_blinds_up_grids = length grids_info →
  length pass_sda_blinds_down_grids = length grids_info →
  _leed_summary ext pass_ase_grids pass_sda_grids grids_info grid_areas
    pass_sda_blinds_up_grids pass_sda_blinds_down_grids
  = Ok (summary, summary_grid) →
  ∃ whole passing_sda passing_ase,
    whole = sum_list (sum_list <$> (default [] <$> grid_areas)) ∧
    summary !! "total_floor_area" = Some (JNum whole) ∧
    summary !! "floor_area_passing_sda" = Some (JNum passing_sda) ∧
    summary !! "floor_area_passing_ase" = Some (JNum passing_ase) ∧
    0 ≤ passing_sda ∧ passing_sda ≤ whole ∧
    0 ≤ passing_ase ∧ passing_ase ≤ whole.
Proof.
  intros Hsome Hpos H1 H2 H3 H4 H5. unfold _leed_summary.
  rewrite decide_True by done. intros Hrun.
  apply bind_Ok in Hrun as (t & Hfold & Hrun).
  case_decide; [done|]. injection Hrun as <- _.
  assert (Hareas : (λ item : list bool * list bool * list Qc * grid_info
                             * list bool * list bool, item.1.1.1.2)
                   <$> zip6 pass_ase_grids pass_sda_grids
                         (default [] <$> grid_areas) grids_info
                         pass_sda_blinds_up_grids pass_sda_blinds_down_grids
                   = default [] <$> grid_areas).
  { unfold zip6, zip5.
    rewrite <- (length_fmap (default [])) in H3.
    transitivity ((zip (zip (zip (zip (zip pass_ase_grids pass_sda_grids)
                                      (default [] <$> grid_areas))
                                 grids_info)
                            pass_sda_blinds_up_grids)
                       pass_sda_blinds_down_grids).*1.*1.*1.*2);
      [by rewrite <- !list_fmap_compose|].
    rewrite !fst_zip, snd_zip; [done|..]; rewrite ?length_zip; lia. }
  assert (Hitems : Forall
            (λ item : list bool * list bool * list Qc * grid_info * list bool
                      * list bool,
               Forall (λ a, 0 ≤ a) item.1.1.1.2)
            (zip6 pass_ase_grids pass_sda_grids (default [] <$> grid_areas)
               grids_info pass_sda_blinds_up_grids
               pass_sda_blinds_down_grids)).
  { apply list.Forall_forall. intros item Hitem.
    assert (Hin : item.1.1.1.2 ∈ default [] <$> grid_areas).
    { rewrite <- Hareas. apply list_elem_of_fmap. by exists item. }
    apply list_elem_of_fmap in Hin as (ga & -> & Hga).
    rewrite list.Forall_forall in Hpos. by apply Hpos. }
  destruct (area_fold_totals _ _ _ _ Hitems Hfold) as (Hall & Hsda & Hase).
  cbn [total_all total_pass_sda total_pass_ase] in *.
  destruct Hsda as [Hs0 Hs1]; [split; apply Qcle_refl|].
  destruct Hase as [Ha0 Ha1]; [split; apply Qcle_refl|].
  exists (total_all t), (total_pass_sda t), (total_pass_ase t).
  split_and!; try done; try (by simplify_map_eq).
  rewrite Hall, Qcplus_0_l. f_equal. symmetry.
  etrans; [apply (f_equal (fmap sum_list) (eq_sym Hareas))|].
  by rewrite <- list_fmap_compose.
Qed.

Lemma building_totals_are_sums_witness :
  ∃ whole passing_sda passing_ase,
    whole = sum_list (sum_list <$> (default [] <$> [Some [1; sample.q 3 1]])) ∧
    sample.summaries.1 !! "total_floor_area" = Some (JNum whole) ∧
    sample.summaries.1 !! "floor_area_passing_sda" = Some (JNum passing_sda) ∧
    sample.summaries.1 !! "floor_area_passing_ase" = Some (JNum passing_ase) ∧
    0 ≤ passing_sda ∧ passing_sda ≤ whole ∧
    0 ≤ passing_ase ∧ passing_ase ≤ whole.
Proof.
  apply (building_totals_are_sums sample.ext [[true; true]] [[true; false]]
           [sample.grid] [Some [1; sample.q 3 1]] [[true; true]]
           [[false; false]] sample.summaries.1 sample.summaries.2).
  - repeat constructor; by eexists.
  - repeat constructor; by apply (bool_decide_unpack _).
  - reflexivity.
  - reflexivity.
  - reflexivity.
  - reflexivity.
  - reflexivity.
  - vm_compute. reflexivity.
Defined.

(** ** The weighting of a run *)

Lemma leed_summary_uses ext pass_ase_grids pass_sda_grids grids_info
    grid_areas pass_sda_blinds_up_grids pass_sda_blinds_down_grids summary
    summary_grid :
  _leed_summary ext pass_ase_grids pass_sda_grids grids_info grid_areas
    pass_sda_blinds_up_grids pass_sda_blinds_down_grids
  = Ok (summary, summary_grid) →
  uses (if decide (Forall is_Some grid_areas) then AreaWeighted
        else CountWeighted) summary.
Proof.
  unfold _leed_summary. intros Hrun. case_decide.
  - apply bind_Ok in Hrun as (t & _ & Hrun). case_decide; [done|].
    injection Hrun as <- _.
    split; intros k Hk; field_cases Hk; by simplify_map_eq.
  - case_decide; [done|]. injection Hrun as <- _.
    split; intros k Hk; field_cases Hk; by simplify_map_eq.
Qed.

Lemma assign_credits_uses w fail_to_comply summary summary_grid summary' :
  assign_credits fail_to_comply summary summary_grid = Ok summary' →
  uses w summary → uses w summary'.
Proof.
  intros Hrun Huses.
  assert (Hsame : ∀ k, k ∈ area_fields ++ count_fields →
                       summary' !! k = summary !! k).
  { intros k Hk. unfold assign_credits in Hrun.
    assert (Hne : k ≠ "credits" ∧ k ≠ "note").
    { apply elem_of_app in Hk as [Hk|Hk]; field_cases Hk; done. }
    destruct Hne as [Hc Hn]. destruct fail_to_comply.
    - apply bind_Ok in Hrun as (sda & _ & Hrun).
      apply bind_Ok in Hrun as (grid_sdas & _ & Hrun).
      destruct (forallb _ grid_sdas); [case_decide|];
        injection Hrun as <-; by rewrite !lookup_insert_ne.
    - injection Hrun as <-. by rewrite !lookup_insert_ne. }
  destruct w; destruct Huses as [Hall Hnone]; split; intros k Hk;
    rewrite Hsame by (apply elem_of_app; auto); auto.
Qed.

Lemma zip_elem_lookup {A B} (a : list A) (b : list B) x y :
  (x, y) ∈ zip a b → ∃ i, a !! i = Some x ∧ b !! i = Some y.
Proof.
  intros (i & Hi)%list_elem_of_lookup_1. exists i.
  apply lookup_zip_with_Some in Hi as (x' & y' & [= -> ->] & Hx & Hy). done.
Qed.

(** X28.  Whether a run of [leed_option_one] weighs by area is decided
    by the model areas alone.  Without any, the summaries are weighted by
    sensor count and every selected grid has a summary; with at least one,
    they are weighted by area, and only grids that are paired with a model
    area (the first ones, as many as there are areas) have a summary. *)
Theorem summaries_follow_the_model_areas (ext : collaborators)
    (results : AnnualDaylight) (grids_filter : string)
    (shade_transmittance : shade_input) (use_states : bool)
    (states_schedule : option (odict.t (list Qc)))
    (threshold direct_threshold occ_hours target_time : Qc)
    (model_areas : list (list Qc)) (run : leed_result) :
  leed_option_one ext results grids_filter shade_transmittance use_states
    states_schedule threshold direct_threshold occ_hours target_time
    model_areas
  = Ok run →
  match model_areas with
  | [] =>
      uses CountWeighted (lr_summary run) ∧
      ∀ grid_info,
        grid_info ∈ _filter_grids results grids_filter →
        is_Some (lr_summary_grid run !! gi_full_id grid_info)
  | _ =>
      uses AreaWeighted (lr_summary run) ∧
      ∀ grid_id,
        is_Some (lr_summary_grid run !! grid_id) →
        ∃ i grid_info,
          (i < length model_areas)%nat ∧
          _filter_grids results grids_filter !! i = Some grid_info ∧
          gi_full_id grid_info = grid_id
  end.
Proof.
  unfold leed_option_one. intros Hrun.
  apply bind_Ok in Hrun as ([[ss ftc] shd] & _ & Hrun).
  apply bind_Ok in Hrun as (ase & Hase & Hrun).
  apply bind_Ok in Hrun as (sda & Hsda & Hrun).
  apply bind_Ok in Hrun as ([summary summary_grid] & Hsummary & Hrun).
  apply bind_Ok in Hrun as (summary' & Hcredits & [= <-]).
  cbn [lr_summary lr_summary_grid].
  apply mapM_Ok_length in Hase, Hsda.
  pose proof (leed_summary_uses _ _ _ _ _ _ _ _ _ Hsummary) as Huses.
  destruct model_areas as [|area areas].
  - (* no model area *)
    destruct (_filter_grids results grids_filter) as [|g grids] eqn:Hgrids.
    { exfalso. destruct ase; [|done]. destruct sda; [|done].
      vm_compute in Hsummary. done. }
    rewrite decide_False in Huses
      by (intros Hall; apply list.Forall_cons in Hall as [[? [=]] _]).
    split; [by eapply assign_credits_uses|].
    apply leed_summary_Ok in Hsummary as (_ & _ & seen & Hdom & _ & Hall).
    rewrite length_zip, length_replicate in Hase.
    assert (seen = g :: grids) as ->
      by (apply Hall; rewrite ?length_fmap, ?length_replicate; lia).
    intros grid_info Hin. apply Hdom. by apply list_elem_of_fmap_2.
  - (* some model area *)
    rewrite decide_True in Huses
      by (apply Forall_fmap, Forall_true; intros ?; by eexists).
    split; [by eapply assign_credits_uses|].
    unfold _leed_summary in Hsummary.
    rewrite decide_True in Hsummary
      by (apply Forall_fmap, Forall_true; intros ?; by eexists).
    apply bind_Ok in Hsummary as (t & Hfold & Hsummary).
    case_decide; [done|]. injection Hsummary as _ <-.
    destruct (area_fold_grids _ _ _ _ Hfold) as [_ Hdom].
    intros grid_id Hsome. apply Hdom in Hsome as [[? [=]]|Hin].
    apply list_elem_of_fmap in Hin as (item & -> & Hitem).
    destruct item as [[[[[pa ps] ga] gi] up] down]. unfold zip6, zip5 in Hitem.
    apply zip_elem_lookup in Hitem as (i & Hitem & _).
    apply lookup_zip_with_Some in Hitem as (x & y & [= <- <-] & Hitem & _).
    apply lookup_zip_with_Some in Hitem as (x & y & [= <- <-] & Hitem & Hgi).
    apply lookup_zip_with_Some in Hitem as (x & y & [= <- <-] & _ & Hga).
    exists i, gi. split_and!; [|done..].
    apply lookup_lt_Some in Hga. by rewrite !length_fmap in Hga.
Qed.

Lemma summaries_follow_the_model_areas_witness :
  uses AreaWeighted (lr_summary sample_runs.area_run) ∧
  ∀ grid_id,
    is_Some (lr_summary_grid sample_runs.area_run !! grid_id) →
    ∃ i grid_info,
      (i < length [[(1 : Qc); sample.q 3 1]])%nat ∧
      _filter_grids sample.results "*" !! i = Some grid_info ∧
      gi_full_id grid_info = grid_id.
Proof.
  apply (summaries_follow_the_model_areas sample.ext sample.results "*"
           (ShdScalar default_shd_trans) false None (sample.q 300 1)
           (sample.q 1000 1) (sample.q 250 1) (sample.q 50 1)
           [[1; sample.q 3 1]] sample_runs.area_run).
  vm_compute. reflexivity.
Defined.
